(** * Arcan shared-memory interface: a shallow embedding

    The development follows three translation units of the repository:

    - [frameserver/arcan_frameserver_libretro.c]: the libretro producer,
      its video callback (resize request, XRGB1555 conversion, frame-ready
      flag), its audio callbacks (the byte ring with its overflow branch,
      the single-sample buffer and its flush) and the input table filled
      from labelled events;
    - [src/shmif/egl-dri-rnode/egl-dri-rnode.c]: the accelerated helper,
      its context slots, the handle export, the signal path with its
      readback fallback, and the opening, set-up and teardown of the
      device record;
    - [src/shmif/arcan_shmif_interop.h]: the event-queue contract, of which
      only the declarations and their documentation are part of the sources.

    Integers are [Z] with the C wrap-around written out, the shared page is a
    byte-addressed memory, and calls into EGL, the kernel or the peer process
    are answered by explicit oracle records. *)

From Stdlib Require Import ZArith Lia Bool List Ascii.
From stdpp Require Import base numbers list strings.

Local Open Scope Z_scope.

(** ** Machine integers *)

Definition to_uint8 (z : Z) : Z := z mod 2 ^ 8.
Definition to_uint16 (z : Z) : Z := z mod 2 ^ 16.
Definition to_uint32 (z : Z) : Z := z mod 2 ^ 32.
Definition to_uint64 (z : Z) : Z := z mod 2 ^ 64.

(** Conversion of a value to a signed type of [2^bits] values. *)
Definition to_signed (bits z : Z) : Z :=
  let u := z mod 2 ^ bits in
  if u <? 2 ^ (bits - 1) then u else u - 2 ^ bits.

Definition to_int32 (z : Z) : Z := to_signed 32 z.
Definition to_int64 (z : Z) : Z := to_signed 64 z.

Definition INT_MAX : Z := 2 ^ 31 - 1.

(** ** Byte-addressed memory of the mapped page *)

Definition memory := Z -> Z.

Definition in_range (lo len p : Z) : bool := (lo <=? p) && (p <? lo + len).

(** [memmove(dst, src, n)]: the source bytes are read before any is
    written, so overlapping regions behave as in C. *)
Definition memmove (m : memory) (dst src n : Z) : memory :=
  fun p => if in_range dst n p then m (src + (p - dst)) else m p.

(** [memcpy(dst, data, n)] from a buffer private to the caller. *)
Definition memcpy (m : memory) (dst : Z) (data : Z -> Z) (n : Z) : memory :=
  fun p => if in_range dst n p then to_uint8 (data (p - dst)) else m p.

(** A little-endian 32-bit store and load. *)
Definition store32 (m : memory) (a v : Z) : memory :=
  fun p => if in_range a 4 p then Z.land (Z.shiftr v (8 * (p - a))) 255 else m p.

Definition load32 (m : memory) (a : Z) : Z :=
  Z.lor (m a)
    (Z.lor (Z.shiftl (m (a + 1)) 8)
       (Z.lor (Z.shiftl (m (a + 2)) 16) (Z.shiftl (m (a + 3)) 24))).

Definition read_bytes (m : memory) (ofs : Z) (n : nat) : list Z :=
  map (fun i => m (ofs + Z.of_nat i)) (seq 0 n).

(** ** The libretro producer ([arcan_frameserver_libretro.c]) *)

Module Libretro.

(** The fields of [struct frameserver_shmpage] that the two callbacks touch.
    The header declaring the struct is not among the sources: the geometry
    and offset fields are kept as the integers the callbacks store, and
    [abufused] is taken as a 32-bit unsigned counter. [page_mem] is the
    mapping itself, addressed by byte offset from the page base. *)
Record frameserver_shmpage := mk_shmpage {
  w : Z;
  h : Z;
  resized : bool;
  vready : bool;
  vbufofs : Z;
  abufofs : Z;
  abufused : Z;
  page_mem : memory
}.

Definition set_w (p : frameserver_shmpage) (v : Z) :=
  mk_shmpage v (h p) (resized p) (vready p) (vbufofs p) (abufofs p) (abufused p) (page_mem p).
Definition set_h (p : frameserver_shmpage) (v : Z) :=
  mk_shmpage (w p) v (resized p) (vready p) (vbufofs p) (abufofs p) (abufused p) (page_mem p).
Definition set_resized (p : frameserver_shmpage) (b : bool) :=
  mk_shmpage (w p) (h p) b (vready p) (vbufofs p) (abufofs p) (abufused p) (page_mem p).
Definition set_vready (p : frameserver_shmpage) (b : bool) :=
  mk_shmpage (w p) (h p) (resized p) b (vbufofs p) (abufofs p) (abufused p) (page_mem p).
Definition set_abufused (p : frameserver_shmpage) (v : Z) :=
  mk_shmpage (w p) (h p) (resized p) (vready p) (vbufofs p) (abufofs p) v (page_mem p).
Definition set_mem (p : frameserver_shmpage) (m : memory) :=
  mk_shmpage (w p) (h p) (resized p) (vready p) (vbufofs p) (abufofs p) (abufused p) m.

(** *** Pixel conversion (the body of the inner loop of [libretro_vidcb]) *)

Definition chan_r (val : Z) : Z := to_uint8 (Z.shiftl (Z.shiftr (Z.land val 0x7c00) 10) 3).
Definition chan_g (val : Z) : Z := to_uint8 (Z.shiftl (Z.shiftr (Z.land val 0x3e0) 5) 3).
Definition chan_b (val : Z) : Z := to_uint8 (Z.shiftl (Z.land val 0x1f) 3).

(** [(0xff) << 24 | b << 16 | g << 8 | r], computed on [int] and stored
    through a [uint32_t*]. *)
Definition pack_pixel (val : Z) : Z :=
  to_uint32
    (Z.lor (Z.lor (Z.lor (to_int32 (Z.shiftl 0xff 24)) (Z.shiftl (chan_b val) 16))
              (Z.shiftl (chan_g val) 8))
       (chan_r val)).

(** *** The stores of one video callback, in program order *)

Inductive store :=
| StW (v : Z)
| StH (v : Z)
| StResized
| StPixel (addr val : Z)
| StVready
| SemcheckV.

Definition exec_store (p : frameserver_shmpage) (s : store) : frameserver_shmpage :=
  match s with
  | StW v => set_w p v
  | StH v => set_h p v
  | StResized => set_resized p true
  | StPixel a v => set_mem p (store32 (page_mem p) a v)
  | StVready => set_vready p true
  | SemcheckV => p
  end.

Definition exec_stores (p : frameserver_shmpage) (l : list store) : frameserver_shmpage :=
  fold_left exec_store l p.

(** The inner loop: [n] remaining columns, [x] the column counter, [buf] the
    index of the row start in the source frame, [dbuf] the destination. *)
Fixpoint vid_row (data : Z -> Z) (n : nat) (x buf dbuf : Z) : list store :=
  match n with
  | O => []
  | S n' =>
      StPixel dbuf (pack_pixel (to_uint16 (data (buf + x))))
        :: vid_row data n' (x + 1) buf (dbuf + 4)
  end.

(** The outer loop: [m] remaining rows; [buf += pitch >> 1] after each. *)
Fixpoint vid_frame (data : Z -> Z) (width pitch : Z) (m : nat) (buf dbuf : Z)
  : list store :=
  match m with
  | O => []
  | S m' =>
      vid_row data (Z.to_nat width) 0 buf dbuf
        ++ vid_frame data width pitch m' (buf + Z.shiftr pitch 1)
             (dbuf + 4 * Z.of_nat (Z.to_nat width))
  end.

Definition geometry_differs (p : frameserver_shmpage) (width height : Z) : bool :=
  negb (width =? w p) || negb (height =? h p).

Definition resize_stores (p : frameserver_shmpage) (width height : Z) : list store :=
  if geometry_differs p width height
  then [StW width; StH height; StResized]
  else [].

Definition vidcb_stores (p : frameserver_shmpage) (data : Z -> Z)
    (width height pitch : Z) : list store :=
  resize_stores p width height
    ++ vid_frame data width pitch (Z.to_nat height) 0 (vbufofs p)
    ++ [StVready; SemcheckV].

(** [libretro_vidcb] run to completion with the consumer idle. *)
Definition libretro_vidcb (p : frameserver_shmpage) (data : Z -> Z)
    (width height pitch : Z) : frameserver_shmpage :=
  exec_stores p (vidcb_stores p data width height pitch).

(** The two stores of [arcan_frameserver_libretro_run] on the page before
    the main loop: only [resized] is on the page, [alive] is local. *)
Definition run_startup (p : frameserver_shmpage) : frameserver_shmpage :=
  set_resized p true.

(** *** Producer and consumer on the same page *)

(** Modelled from the spec: the consumer process is not part of the sources.
    The spec gives it two writes on the page: it clears [resized] once it has
    remapped, and it takes the frame, clearing the frame-ready flag. *)
Definition consumer_ack (p : frameserver_shmpage) : frameserver_shmpage :=
  set_resized p false.

(** Modelled from the spec: the consumer releasing a frame it has read. *)
Definition consumer_release (p : frameserver_shmpage) : frameserver_shmpage :=
  set_vready p false.

(** A configuration is the page and the stores the running callback has yet
    to perform. *)
Definition config : Type := frameserver_shmpage * list store.

Inductive step : config -> config -> Prop :=
| step_producer p s rest :
    step (p, s :: rest) (exec_store p s, rest)
| step_ack p rest :
    step (p, rest) (consumer_ack p, rest)
| step_release p rest :
    step (p, rest) (consumer_release p, rest).

Inductive steps : config -> config -> Prop :=
| steps_refl c : steps c c
| steps_cons c1 c2 c3 : step c1 c2 -> steps c2 c3 -> steps c1 c3.

(** *** The audio callback *)

Section Audio.

(** [SHMPAGE_AUDIOBUF_SIZE] comes from a header that is not among the
    sources. *)
Variable SHMPAGE_AUDIOBUF_SIZE : Z.

(** [data] gives the bytes of the sample buffer; [sem_ok] tells whether
    [frameserver_semcheck(retroctx.async, -1)] returned 0. The result is the
    page and the returned frame count. *)
Definition libretro_audcb (p : frameserver_shmpage) (data : Z -> Z)
    (nframes : Z) (sem_ok : bool) : frameserver_shmpage * Z :=
  let new_s := to_uint64 (nframes * 2 * 2) in
  let dstofs := to_int64 (abufofs p + abufused p) in
  if sem_ok then
    let dstbuf := dstofs in
    let overflow := to_int64 (abufused p + new_s - SHMPAGE_AUDIOBUF_SIZE) in
    let p1 :=
      if 0 <? overflow then
        set_abufused
          (set_mem p (memmove (page_mem p) dstbuf (dstbuf + overflow) overflow))
          (to_uint32 (abufused p - overflow))
      else p in
    let p2 := set_mem p1 (memcpy (page_mem p1) (dstbuf + abufused p1) data new_s) in
    (set_abufused p2 (to_uint32 (abufused p2 + new_s)), nframes)
  else (p, nframes).

(** The audio ring as the consumer reads it: [abufused] bytes from
    [abufofs]. *)
Definition audio_ring (p : frameserver_shmpage) : list Z :=
  read_bytes (page_mem p) (abufofs p) (Z.to_nat (abufused p)).

End Audio.

(** *** Statements the properties below are phrased with *)

(** The on-wire pixel as the specification words it: the three 5-bit
    channels of the source value, each shifted left by 3, red in the low
    byte, and an alpha byte of [0xff]. *)
Definition canonical_pixel (v : Z) : Z :=
  let r := Z.shiftr (Z.land v 0x7c00) 10 in
  let g := Z.shiftr (Z.land v 0x3e0) 5 in
  let b := Z.land v 0x1f in
  Z.lor (Z.shiftl 0xff 24)
    (Z.lor (Z.shiftl (Z.shiftl b 3) 16)
       (Z.lor (Z.shiftl (Z.shiftl g 3) 8) (Z.shiftl r 3))).

(** A test over the [n] integers from [from] upwards. *)
Fixpoint all_from (f : Z -> bool) (n : nat) (from : Z) : bool :=
  match n with
  | O => true
  | S n' => f from && all_from f n' (from + 1)
  end.

(** The conversion against [canonical_pixel] at one value, and over all
    16-bit values. *)
Definition pixel_ok (v : Z) : bool :=
  (pack_pixel v =? canonical_pixel v)
  && (Z.land (Z.shiftr (pack_pixel v) 24) 0xff =? 0xff).


(** Everything on the page but the mapping. *)
Definition header (p : frameserver_shmpage) :=
  (w p, h p, resized p, vready p, vbufofs p, abufofs p, abufused p).

Definition alpha_byte (px : Z) : Z := Z.land (Z.shiftr px 24) 0xff.

(** The address of pixel [(x, y)] of a frame [width] pixels wide. *)
Definition pixel_addr (p : frameserver_shmpage) (width x y : Z) : Z :=
  vbufofs p + 4 * (y * width + x).

(** A reader that finds [resized] set and a geometry that is neither the one
    in force before the request nor the requested one. *)
Definition torn_geometry (prior request : Z * Z) (p : frameserver_shmpage) : Prop :=
  resized p = true /\ (w p, h p) <> prior /\ (w p, h p) <> request.

(** The stores that make up a frame: the pixels and the frame-ready flag. *)
Definition frame_store (s : store) : bool :=
  match s with
  | StPixel _ _ | StVready => true
  | _ => false
  end.

Definition geometry_store (s : store) : bool :=
  match s with
  | StW _ | StH _ | StResized => true
  | _ => false
  end.

(** The producer holding back while a resize is outstanding: in no
    configuration of a callback in which [resized] is set is the producer's
    next store a pixel or the frame-ready flag. *)
Definition producer_waits_for_ack : Prop :=
  forall p data width height pitch c s rest,
    steps (p, vidcb_stores p data width height pitch) c ->
    resized (fst c) = true ->
    snd c = s :: rest ->
    frame_store s = false.

(** No torn geometry: in no configuration of a callback does a reader find
    [resized] set together with a geometry that is neither the prior one nor
    the requested one. *)
Definition resize_never_torn : Prop :=
  forall p data width height pitch c,
    steps (p, vidcb_stores p data width height pitch) c ->
    ~ torn_geometry (w p, h p) (width, height) (fst c).

Definition frame_only (l : list store) : Prop :=
  Forall (fun s => geometry_store s = false) l.

(** Where a callback for [width] x [height] stands: which of the three
    stores of the request are still to come. *)
Inductive request_phase (width height : Z) : config -> Prop :=
| phase_start p l :
    resized p = false -> frame_only l ->
    request_phase width height (p, StW width :: StH height :: StResized :: l)
| phase_w p l :
    resized p = false -> w p = width -> frame_only l ->
    request_phase width height (p, StH height :: StResized :: l)
| phase_wh p l :
    resized p = false -> w p = width -> h p = height -> frame_only l ->
    request_phase width height (p, StResized :: l)
| phase_committed p l :
    (resized p = true -> w p = width /\ h p = height) -> frame_only l ->
    request_phase width height (p, l).

(** *** Concrete pages and frames *)

Definition zero_mem : memory := fun _ => 0.

(** A page negotiated at 640x480, the video buffer behind a 4 KiB header
    and the audio buffer behind the video buffer. *)
Definition page_640x480 : frameserver_shmpage :=
  mk_shmpage 640 480 false false 4096 (4096 + 640 * 480 * 4) 0 zero_mem.

(** A source frame of four XRGB1555 pixels per row. *)
Definition frame_2x1 : Z -> Z :=
  fun i => if i =? 0 then 0x7fff else if i =? 1 then 0x7c00 else 0.

(** The audio ring of the overflow scenario: 8000 bytes in use, each
    non-zero and depending on its position; the rest of the mapping reads 0. *)
Definition AUDIOBUF_8192 : Z := 8192.

Definition audio_page_8000 : frameserver_shmpage :=
  mk_shmpage 640 480 false false 4096 1232896 8000
    (fun p => if in_range 1232896 8000 p then 1 + (p - 1232896) mod 250 else 0).

(** A batch of 100 stereo frames, 400 bytes, none of them zero. *)
Definition batch_100 : Z -> Z := fun i => 128 + i mod 100.

Definition batch_bytes (data : Z -> Z) (n : nat) : list Z :=
  map (fun i => to_uint8 (data (Z.of_nat i))) (seq 0 n).

(** What the overflow branch is meant to leave in the ring: the old content
    without its [dropped] oldest bytes, then the whole batch. *)
Definition ring_after_drop (old batch : list Z) (dropped : nat) : list Z :=
  skipn dropped old ++ batch.

End Libretro.

(** ** More of the libretro producer *)

Module LibretroMore.
Import Libretro.

(** Reading the three 5-bit channels back out of an on-wire pixel. *)
Definition unpack_pixel (px : Z) : Z :=
  Z.lor (Z.shiftl (Z.shiftr (Z.land px 0xff) 3) 10)
    (Z.lor (Z.shiftl (Z.shiftr (Z.land (Z.shiftr px 8) 0xff) 3) 5)
       (Z.shiftr (Z.land (Z.shiftr px 16) 0xff) 3)).

(** *** Single samples ([libretro_audscb]) and the flush of the main loop *)

(** [retroctx.audbuf] and [retroctx.audbuf_used]: 4196 samples of 16 bits
    and the count of those in use. *)
Record sample_buffer := mk_samples {
  audbuf : list Z;
  audbuf_used : Z
}.

Definition AUDBUF_SAMPLES : Z := 4196.

(** A store into [audbuf]; an index outside the array has no defined
    result. *)
Definition audbuf_store (l : list Z) (i v : Z) : option (list Z) :=
  if (0 <=? i) && (i <? AUDBUF_SAMPLES) && (i <? Z.of_nat (length l))
  then Some (<[Z.to_nat i := v]> l) else None.

(** [libretro_audscb]: the two samples go to [audbuf_used] and
    [audbuf_used + 1]. *)
Definition libretro_audscb (a : sample_buffer) (left right : Z) : option sample_buffer :=
  match audbuf_store (audbuf a) (audbuf_used a) (to_signed 16 left) with
  | None => None
  | Some l1 =>
      match audbuf_store l1 (to_uint64 (audbuf_used a + 1)) (to_signed 16 right) with
      | None => None
      | Some l2 => Some (mk_samples l2 (to_uint64 (audbuf_used a + 1 + 1)))
      end
  end.

(** The calls a core makes during one [retro_run]. *)
Fixpoint audscb_all (a : sample_buffer) (samples : list (Z * Z)) : option sample_buffer :=
  match samples with
  | [] => Some a
  | (l, r) :: rest =>
      match libretro_audscb a l r with
      | None => None
      | Some a' => audscb_all a' rest
      end
  end.

(** The sample array as the bytes [libretro_audcb] copies from it. *)
Definition audbuf_bytes (l : list Z) : Z -> Z :=
  fun i => Z.land (Z.shiftr (to_uint16 (nth (Z.to_nat (i / 2)) l 0)) (8 * (i mod 2))) 0xff.

(** The end of the main loop of [arcan_frameserver_libretro_run]: what
    [libretro_audscb] gathered is handed to [libretro_audcb] and the count
    is reset. *)
Definition run_flush_audio (SIZE : Z) (p : frameserver_shmpage) (a : sample_buffer)
    (sem_ok : bool) : frameserver_shmpage * sample_buffer :=
  if audbuf_used a =? 0 then (p, a)
  else (fst (libretro_audcb SIZE p (audbuf_bytes (audbuf a)) (audbuf_used a / 2) sem_ok),
        mk_samples (audbuf a) 0).

(** Samples as the two little-endian bytes of each. *)
Definition le16_bytes (l : list Z) : list Z :=
  flat_map (fun s => [Z.land (Z.shiftr (to_uint16 s) 0) 0xff;
                      Z.land (Z.shiftr (to_uint16 s) 8) 0xff]) l.

(** Left and right samples in the order they are stored. *)
Definition interleave (samples : list (Z * Z)) : list Z :=
  flat_map (fun s => [to_signed 16 (fst s); to_signed 16 (snd s)]) samples.

Definition empty_samples : sample_buffer := mk_samples (repeat 0 4196) 0.

End LibretroMore.

Module LibretroInput.
Import Libretro.

(** *** The input table ([ioev_ctxtbl], [libretro_inputstate]) *)

Definition MAX_PORTS : Z := 4.
Definition MAX_BUTTONS : Z := 12.

(** The identifiers the code takes from [libretro.h]. *)
Record retro_ids := mk_ids {
  RETRO_DEVICE_JOYPAD : Z;
  RETRO_DEVICE_ID_JOYPAD_A : Z;
  RETRO_DEVICE_ID_JOYPAD_B : Z;
  RETRO_DEVICE_ID_JOYPAD_X : Z;
  RETRO_DEVICE_ID_JOYPAD_Y : Z;
  RETRO_DEVICE_ID_JOYPAD_L : Z;
  RETRO_DEVICE_ID_JOYPAD_R : Z;
  RETRO_DEVICE_ID_JOYPAD_UP : Z;
  RETRO_DEVICE_ID_JOYPAD_DOWN : Z;
  RETRO_DEVICE_ID_JOYPAD_LEFT : Z;
  RETRO_DEVICE_ID_JOYPAD_RIGHT : Z;
  RETRO_DEVICE_ID_JOYPAD_SELECT : Z;
  RETRO_DEVICE_ID_JOYPAD_START : Z
}.

Definition in_table (r c : Z) : bool :=
  (0 <=? r) && (r <? MAX_PORTS) && (0 <=? c) && (c <? MAX_BUTTONS).

(** [retroctx.inputmatr.joypad] is [MAX_PORTS] rows of [MAX_BUTTONS] flags.
    [joypad[r][c]]; an index outside either dimension has no defined
    result. *)
Definition joypad_get (j : list (list bool)) (r c : Z) : option bool :=
  if in_table r c then
    match j !! Z.to_nat r with
    | Some row => row !! Z.to_nat c
    | None => None
    end
  else None.

(** [joypad[r][c] = v]. *)
Definition joypad_set (j : list (list bool)) (r c : Z) (v : bool) : option (list (list bool)) :=
  if in_table r c then
    match j !! Z.to_nat r with
    | Some row =>
        if (Z.to_nat c <? length row)%nat
        then Some (<[Z.to_nat r := <[Z.to_nat c := v]> row]> j)
        else None
    | None => None
    end
  else None.

(** **** The two [sscanf] formats *)

Definition char_code (c : ascii) : Z := Z.of_N (N_of_ascii c).

Definition isspace (c : ascii) : bool :=
  let n := char_code c in (n =? 32) || ((9 <=? n) && (n <=? 13)).

Definition digit_of (c : ascii) : option Z :=
  let n := char_code c in
  if (48 <=? n) && (n <=? 57) then Some (n - 48) else None.

Fixpoint skip_space (s : string) : string :=
  match s with
  | String c r => if isspace c then skip_space r else s
  | EmptyString => s
  end.

Fixpoint scan_digits (s : string) (acc : Z) : Z :=
  match s with
  | String c r =>
      match digit_of c with
      | Some d => scan_digits r (10 * acc + d)
      | None => acc
      end
  | EmptyString => acc
  end.

Definition starts_with_digit (s : string) : bool :=
  match s with
  | String c _ => match digit_of c with Some _ => true | None => false end
  | EmptyString => false
  end.

(** The [%d] conversion: white space, an optional sign, then at least one
    decimal digit.  [None] is a failed conversion. *)
Definition scan_int (s : string) : option Z :=
  match skip_space s with
  | String c r =>
      if Ascii.eqb c "-" then
        if starts_with_digit r then Some (- scan_digits r 0) else None
      else if Ascii.eqb c "+" then
        if starts_with_digit r then Some (scan_digits r 0) else None
      else if starts_with_digit (String c r) then Some (scan_digits (String c r) 0)
      else None
  | EmptyString => None
  end.

(** The literal part of a format: it has to be matched character by
    character. *)
Fixpoint strip_prefix (pre s : string) : option string :=
  match pre with
  | EmptyString => Some s
  | String a pre' =>
      match s with
      | String b s' => if Ascii.eqb a b then strip_prefix pre' s' else None
      | EmptyString => None
      end
  end.

(** What [sscanf(s, "<lit>%d...", &x)] does: the count of conversions is
    one exactly when the literal matches and a number follows; a number
    that an [int] cannot hold leaves the call without a defined result. *)
Inductive scanned :=
| NoConversion
| Converted (x : Z)
| ConversionUndefined.

Definition sscanf_d (lit s : string) : scanned :=
  match strip_prefix lit s with
  | None => NoConversion
  | Some rest =>
      match scan_int rest with
      | None => NoConversion
      | Some x => if (- 2 ^ 31 <=? x) && (x <? 2 ^ 31) then Converted x
                  else ConversionUndefined
      end
  end.

(** [strchr(s, c)]: the string from the first [c] on. *)
Fixpoint strchr (s : string) (c : ascii) : option string :=
  match s with
  | String a r => if Ascii.eqb a c then Some s else strchr r c
  | EmptyString => None
  end.

(** The step [subtype++]. *)
Definition next_char (s : string) : string :=
  match s with
  | String _ r => r
  | EmptyString => s
  end.

(** **** Events *)

Inductive io_datatype :=
| EVENT_IDATATYPE_TRANSLATED
| EVENT_IDATATYPE_DIGITAL.

(** The fields of an I/O event that [ioev_ctxtbl] reads. *)
Record io_event := mk_io {
  label : string;
  datatype : io_datatype;
  translated_active : Z;
  digital_active : Z
}.

(** The [value] of [ioev_ctxtbl]: the [active] field of the member that
    the data type selects. *)
Definition event_value (ioev : io_event) : Z :=
  match datatype ioev with
  | EVENT_IDATATYPE_TRANSLATED => to_int32 (translated_active ioev)
  | EVENT_IDATATYPE_DIGITAL => to_int32 (digital_active ioev)
  end.

Section Input.

Variable ids : retro_ids.

Definition remaptbl : list Z :=
  [ RETRO_DEVICE_ID_JOYPAD_A ids;
    RETRO_DEVICE_ID_JOYPAD_B ids;
    RETRO_DEVICE_ID_JOYPAD_X ids;
    RETRO_DEVICE_ID_JOYPAD_Y ids;
    RETRO_DEVICE_ID_JOYPAD_L ids;
    RETRO_DEVICE_ID_JOYPAD_R ids ].

(** [libretro_inputstate]: the two assertions, then the row [ind] of the
    table for the joypad device and 0 for any other; [port] is not used.
    [None] is a failed assertion or an access outside the table. *)
Definition libretro_inputstate (j : list (list bool)) (port dev ind id : Z) : option Z :=
  if (ind <? MAX_PORTS) && (id <? MAX_BUTTONS) then
    if dev =? RETRO_DEVICE_JOYPAD ids then
      match joypad_get j ind id with
      | Some b => Some (to_signed 16 (Z.b2z b))
      | None => None
      end
    else Some 0
  else None.

(** The chain of [strcmp] tests; [button] is what the chain leaves when no
    name matches. *)
Definition named_button (subtype : string) (button : Z) : Z :=
  if String.eqb subtype "UP" then RETRO_DEVICE_ID_JOYPAD_UP ids
  else if String.eqb subtype "DOWN" then RETRO_DEVICE_ID_JOYPAD_DOWN ids
  else if String.eqb subtype "LEFT" then RETRO_DEVICE_ID_JOYPAD_LEFT ids
  else if String.eqb subtype "RIGHT" then RETRO_DEVICE_ID_JOYPAD_RIGHT ids
  else if String.eqb subtype "SELECT" then RETRO_DEVICE_ID_JOYPAD_SELECT ids
  else if String.eqb subtype "START" then RETRO_DEVICE_ID_JOYPAD_START ids
  else button.

(** The button index chosen for a subtype; [None] where the code has no
    defined result. *)
Definition button_of (subtype : string) : option Z :=
  match sscanf_d "BUTTON" subtype with
  | ConversionUndefined => None
  | Converted button =>
      if (0 <? button) && (button <=? MAX_BUTTONS - 6) then
        let button := to_int32 (button - 1) in
        if 6 - 1 <? to_uint64 button then Some (-1)
        else remaptbl !! Z.to_nat button
      else Some (named_button subtype button)
  | NoConversion => Some (named_button subtype (-1))
  end.

(** [ioev_ctxtbl]. *)
Definition ioev_ctxtbl (j : list (list bool)) (ioev : io_event) : option (list (list bool)) :=
  let value := event_value ioev in
  match sscanf_d "PLAYER" (label ioev) with
  | ConversionUndefined => None
  | NoConversion => Some j
  | Converted ind =>
      if (0 <? ind) && (ind <? MAX_PORTS) then
        match strchr (label ioev) "_" with
        | None => Some j
        | Some subtype =>
            match button_of (next_char subtype) with
            | None => None
            | Some button =>
                if 0 <=? button
                then joypad_set j (ind - 1) button (negb (value =? 0))
                else Some j
            end
        end
      else Some j
  end.

End Input.

(** The numbering of [libretro.h]. *)
Definition libretro_h : retro_ids :=
  mk_ids 1 8 0 9 1 10 11 4 5 6 7 2 3.

Definition no_buttons : list (list bool) := repeat (repeat false 12) 4.

(** A table of [MAX_PORTS] rows of [MAX_BUTTONS] flags. *)
Definition table_shape (j : list (list bool)) : Prop :=
  length j = 4%nat /\ Forall (fun row => length row = 12%nat) j.

(** The label [PLAYER<n>_BUTTON<b>] for one-digit [n] and [b]. *)
Definition digit_char (d : Z) : ascii := ascii_of_N (Z.to_N (48 + d)).

Definition button_label (n b : Z) : string :=
  "PLAYER" +:+ String (digit_char n) ("_BUTTON" +:+ String (digit_char b) "").

(** A label that starts [PLAYER<n>], goes on with [junk] and reaches its
    subtype after an underscore. *)
Definition player_label (n : Z) (junk sub : string) : string :=
  "PLAYER" +:+ String (digit_char n) (junk +:+ String "_" sub).

(** The identifiers of the remap table index the table. *)
Definition ids_in_table (ids : retro_ids) : Prop :=
  Forall (fun id => 0 <= id < MAX_BUTTONS) (remaptbl ids).

(** The identifiers of the named buttons index a row of the table. *)
Definition names_in_table (ids : retro_ids) : Prop :=
  Forall (fun id => 0 <= id < MAX_BUTTONS)
    [ RETRO_DEVICE_ID_JOYPAD_UP ids;
      RETRO_DEVICE_ID_JOYPAD_DOWN ids;
      RETRO_DEVICE_ID_JOYPAD_LEFT ids;
      RETRO_DEVICE_ID_JOYPAD_RIGHT ids;
      RETRO_DEVICE_ID_JOYPAD_SELECT ids;
      RETRO_DEVICE_ID_JOYPAD_START ids ].

End LibretroInput.

(** ** The event queues ([arcan_shmif_interop.h])

    The header declares [arcan_shmif_poll], [arcan_shmif_wait],
    [arcan_shmif_enqueue], [arcan_shmif_tryenqueue] and
    [arcan_shmif_acquireloop] and documents their results; their bodies are
    not among the sources. The definitions of this module are written from
    the specification, keeping the result conventions of the header. *)

Module Shmif.

Inductive event_category := EVENT_IO | EVENT_EXTERNAL | EVENT_TARGET.

Inductive event_kind :=
| EVENT_EXTERNAL_REGISTER
| EVENT_EXTERNAL_SEGREQ
| TARGET_COMMAND_ACTIVATE
| TARGET_COMMAND_NEWSEGMENT
| TARGET_COMMAND_REQFAIL
| KIND_OTHER (code : Z).

(** Modelled from the spec: the event record of section 3, a category, a
    payload and the descriptor the event carries, if it carries one. The
    declaration of [struct arcan_event] is not among the sources. *)
Record arcan_event := mk_event {
  category : event_category;
  kind : event_kind;
  payload : Z;
  descriptor : option Z
}.

(** Modelled from the spec: one event subqueue of section 3, a ring of
    fixed-size records with its [front] and [back] indices. The ring is empty
    when [front = back], so a ring of [n] records holds [n - 1] events. *)
Record evqueue := mk_evqueue {
  eventbuf : list arcan_event;
  front : nat;
  back : nat
}.

(** Modelled from the spec: the connection of section 3 as far as the queue
    operations use it, the inbound and outbound queues and the mark the peer
    leaves when the connection is dead. *)
Record shmif_cont := mk_cont {
  inq : evqueue;
  outq : evqueue;
  dead : bool
}.

Definition slots (q : evqueue) : nat := length (eventbuf q).

Definition wf_queue (q : evqueue) : Prop :=
  (2 <= slots q)%nat /\ (front q < slots q)%nat /\ (back q < slots q)%nat.

Definition wf_cont (c : shmif_cont) : Prop := wf_queue (inq c) /\ wf_queue (outq c).

Definition queue_used (q : evqueue) : nat :=
  ((back q + slots q - front q) mod slots q)%nat.

Definition queue_free (q : evqueue) : nat := (slots q - 1 - queue_used q)%nat.

Definition queue_empty (q : evqueue) : bool := (front q =? back q)%nat.

Definition queue_full (q : evqueue) : bool :=
  ((back q + 1) mod slots q =? front q)%nat.

(** Writing at [back] and advancing it; advancing [front]. *)
Definition push (q : evqueue) (e : arcan_event) : evqueue :=
  mk_evqueue (<[back q := e]> (eventbuf q)) (front q) ((back q + 1) mod slots q)%nat.

Definition pop (q : evqueue) : evqueue :=
  mk_evqueue (eventbuf q) ((front q + 1) mod slots q)%nat (back q).

(** The events not yet dequeued, oldest first. *)
Definition pending (q : evqueue) : list arcan_event :=
  omap (fun i => eventbuf q !! ((front q + i) mod slots q)%nat) (seq 0 (queue_used q)).

Definition set_inq (c : shmif_cont) (q : evqueue) := mk_cont q (outq c) (dead c).
Definition set_outq (c : shmif_cont) (q : evqueue) := mk_cont (inq c) q (dead c).

(** Modelled from the spec: [poll] of section 4.2 with the result
    convention of the header for [arcan_shmif_poll] (positive, zero,
    negative). It takes no input but the connection, so it cannot block. A
    dead connection answers with the terminal indicator before anything
    else (section 4.5). *)
Definition arcan_shmif_poll (c : shmif_cont) : Z * option arcan_event * shmif_cont :=
  if dead c then (-1, None, c)
  else if queue_empty (inq c) then (0, None, c)
  else match eventbuf (inq c) !! front (inq c) with
       | Some e => (1, Some e, set_inq c (pop (inq c)))
       | None => (-1, None, c)
       end.

(** What the peer may do while this side is blocked. *)
Inductive peer_action :=
| PeerEnqueue (e : arcan_event)
| PeerDequeue
| PeerDie.

(** Modelled from the spec: the peer's side of the two queues. Its enqueue
    on a full queue inserts nothing. *)
Definition apply_peer (c : shmif_cont) (a : peer_action) : shmif_cont :=
  match a with
  | PeerEnqueue e => if queue_full (inq c) then c else set_inq c (push (inq c) e)
  | PeerDequeue => if queue_empty (outq c) then c else set_outq c (pop (outq c))
  | PeerDie => mk_cont (inq c) (outq c) true
  end.

(** Modelled from the spec: [wait] of section 4.2 with the result convention
    of the header for [arcan_shmif_wait] (non-zero with an event, zero when
    terminal). It blocks until [poll] would succeed or the connection is
    terminal; [acts] is what the peer does meanwhile, and [None] stands for a
    caller still blocked when [acts] is used up. *)
Fixpoint arcan_shmif_wait (acts : list peer_action) (c : shmif_cont)
  : option (Z * option arcan_event * shmif_cont * list peer_action) :=
  match arcan_shmif_poll c with
  | (r, oe, c') =>
      if r =? 0 then
        match acts with
        | [] => None
        | a :: rest => arcan_shmif_wait rest (apply_peer c a)
        end
      else Some (if 0 <? r then 1 else 0, oe, c', acts)
  end.

(** Modelled from the spec: [enqueue(event, lossless)] of section 4.2. It
    writes at [back], advances it and returns the number of free slots left;
    on a full queue it fails at once when [lossless] is false and otherwise
    retries while the peer acts. *)
Fixpoint arcan_shmif_enqueue (acts : list peer_action) (c : shmif_cont)
    (e : arcan_event) (lossless : bool)
  : option (Z * shmif_cont * list peer_action) :=
  if dead c then Some (-1, c, acts)
  else if queue_full (outq c) then
    if lossless then
      match acts with
      | [] => None
      | a :: rest => arcan_shmif_enqueue rest (apply_peer c a) e lossless
      end
    else Some (-1, c, acts)
  else
    let q := push (outq c) e in
    Some (Z.of_nat (queue_free q), set_outq c q, acts).

(** Modelled from the spec: [try_enqueue(event)] of section 4.2, which never
    blocks: it has no peer to wait for. *)
Definition arcan_shmif_tryenqueue (c : shmif_cont) (e : arcan_event)
  : Z * shmif_cont :=
  if dead c then (-1, c)
  else if queue_full (outq c) then (-1, c)
  else
    let q := push (outq c) e in
    (Z.of_nat (queue_free q), set_outq c q).

(** The three outcomes of the acquisition loop. *)
Inductive acquire_result :=
| AcqReply (reply : arcan_event) (backlog : list arcan_event)
| AcqFatal (backlog : list arcan_event)
| AcqOutOfMemory.

(** The replies to a segment request (header: [TARGET_COMMAND_NEWSEGMENT],
    to be told from a [TARGET_COMMAND_REQFAIL]). *)
Definition segment_reply (e : arcan_event) : bool :=
  match category e, kind e with
  | EVENT_TARGET, TARGET_COMMAND_NEWSEGMENT => true
  | EVENT_TARGET, TARGET_COMMAND_REQFAIL => true
  | _, _ => false
  end.

(** Modelled from the spec: [acquire_with_buffering] of section 4.3. Every
    event that is not the awaited reply goes to the end of a growing buffer;
    [limit] is the number of events the allocator lets the buffer hold. One
    round of the loop per unit of [fuel]. *)
Fixpoint acquire_rounds (fuel : nat) (is_reply : arcan_event -> bool) (limit : nat)
    (acts : list peer_action) (c : shmif_cont) (pool : list arcan_event)
  : option (acquire_result * shmif_cont * list peer_action) :=
  match fuel with
  | O => None
  | S fuel' =>
      match arcan_shmif_wait acts c with
      | None => None
      | Some (r, oe, c', rest) =>
          match oe with
          | Some e =>
              if r =? 0 then Some (AcqFatal pool, c', rest)
              else if is_reply e then Some (AcqReply e pool, c', rest)
              else if (length pool <? limit)%nat
                   then acquire_rounds fuel' is_reply limit rest c' (pool ++ [e])
                   else Some (AcqOutOfMemory, c', rest)
          | None => Some (AcqFatal pool, c', rest)
          end
      end
  end.

(** Modelled from the spec: the loop, run for as many rounds as there can be
    events: those waiting in the queue and those the peer may still add. *)
Definition arcan_shmif_acquireloop (is_reply : arcan_event -> bool) (limit : nat)
    (acts : list peer_action) (c : shmif_cont)
  : option (acquire_result * shmif_cont * list peer_action) :=
  acquire_rounds (queue_used (inq c) + length acts + 1) is_reply limit acts c [].

(** The return value of the header's [bool arcan_shmif_acquireloop]: true
    for an accepted segment only. *)
Definition acquireloop_accepted (r : acquire_result) : bool :=
  match r with
  | AcqReply e _ =>
      match kind e with TARGET_COMMAND_NEWSEGMENT => true | _ => false end
  | _ => false
  end.

Definition not_reply (is_reply : arcan_event -> bool) (e : arcan_event) : Prop :=
  is_reply e = false.

(** The events a run of peer actions adds to the inbound queue. *)
Definition enqueued (acts : list peer_action) : list arcan_event :=
  omap (fun a => match a with PeerEnqueue e => Some e | _ => None end) acts.

(** *** Concrete queues *)

Definition ev_io (n : Z) : arcan_event := mk_event EVENT_IO (KIND_OTHER n) n None.
Definition ev_fd (n fd : Z) : arcan_event :=
  mk_event EVENT_TARGET (KIND_OTHER n) n (Some fd).
Definition ev_newsegment : arcan_event :=
  mk_event EVENT_TARGET TARGET_COMMAND_NEWSEGMENT 0 (Some 9).
Definition ev_none : arcan_event := mk_event EVENT_IO (KIND_OTHER 0) 0 None.

(** A ring of four records, empty. *)
Definition empty_ring : evqueue := mk_evqueue (repeat ev_none 4) 0 0.

Definition fresh_cont : shmif_cont := mk_cont empty_ring empty_ring false.

End Shmif.

(** ** The render-node helper ([egl-dri-rnode.c]) *)

Module EglDri.

(** [enum shmifext_setup_status] and [enum shmifext_api] of the interop
    header. *)
Inductive shmifext_setup_status :=
| SHHIFEXT_UNKNOWN
| SHMIFEXT_NO_API
| SHMIFEXT_NO_DISPLAY
| SHMIFEXT_NO_EGL
| SHMIFEXT_NO_CONFIG
| SHMIFEXT_NO_CONTEXT
| SHMIFEXT_ALREADY_SETUP
| SHMIFEXT_OUT_OF_MEMORY
| SHMIFEXT_OK.

Definition API_OPENGL : Z := 0.
Definition API_GLES : Z := 1.
Definition API_VHK : Z := 2.

(** [struct arcan_shmifext_setup] without its reserved tail. *)
Record arcan_shmifext_setup := mk_setup {
  red : Z; green : Z; blue : Z; alpha : Z; depth : Z;
  api : Z; major : Z; minor : Z;
  flags : Z; mask : Z;
  builtin_fbo : Z;
  supersample : Z; stencil : Z; no_context : Z;
  shared_context : Z;
  vidp_pack : Z; vidp_infmt : Z
}.

(** The fields of [struct agp_vstore] that this file reads or writes. *)
Record agp_vstore := mk_vstore {
  vs_w : Z; vs_h : Z; vs_glid : Z; vs_raw : Z; vs_s_raw : Z; vs_s_fmt : Z
}.

Inductive buf_sel := BufA | BufB.

(** [struct shmif_ext_hidden_int]. Pointers and EGL handles are integers
    with 0 for NULL; [buf_cur] points at [buf_a] or [buf_b] or nowhere. *)
Record shmif_ext_hidden_int := mk_int {
  dev : Z;
  rtgt_a : Z; rtgt_b : Z; rtgt_cur : Z;
  buf_a : agp_vstore; buf_b : agp_vstore; buf_cur : option buf_sel;
  nopass : bool; swap : bool;
  image : Z;
  dmabuf : Z;
  ctx_alloc : Z;
  alt_contexts : list Z;
  type_ : Z;
  managed : bool;
  context : Z;
  context_ind : Z;
  display : Z;
  surface : Z
}.

Definition set_rtgt_cur (i : shmif_ext_hidden_int) (v : Z) :=
  mk_int (dev i) (rtgt_a i) (rtgt_b i) v (buf_a i) (buf_b i) (buf_cur i)
    (nopass i) (swap i) (image i) (dmabuf i) (ctx_alloc i) (alt_contexts i)
    (type_ i) (managed i) (context i) (context_ind i) (display i) (surface i).
Definition set_buf_a (i : shmif_ext_hidden_int) (v : agp_vstore) :=
  mk_int (dev i) (rtgt_a i) (rtgt_b i) (rtgt_cur i) v (buf_b i) (buf_cur i)
    (nopass i) (swap i) (image i) (dmabuf i) (ctx_alloc i) (alt_contexts i)
    (type_ i) (managed i) (context i) (context_ind i) (display i) (surface i).
Definition set_buf_b (i : shmif_ext_hidden_int) (v : agp_vstore) :=
  mk_int (dev i) (rtgt_a i) (rtgt_b i) (rtgt_cur i) (buf_a i) v (buf_cur i)
    (nopass i) (swap i) (image i) (dmabuf i) (ctx_alloc i) (alt_contexts i)
    (type_ i) (managed i) (context i) (context_ind i) (display i) (surface i).
Definition set_buf_cur (i : shmif_ext_hidden_int) (v : option buf_sel) :=
  mk_int (dev i) (rtgt_a i) (rtgt_b i) (rtgt_cur i) (buf_a i) (buf_b i) v
    (nopass i) (swap i) (image i) (dmabuf i) (ctx_alloc i) (alt_contexts i)
    (type_ i) (managed i) (context i) (context_ind i) (display i) (surface i).
Definition set_nopass (i : shmif_ext_hidden_int) (v : bool) :=
  mk_int (dev i) (rtgt_a i) (rtgt_b i) (rtgt_cur i) (buf_a i) (buf_b i) (buf_cur i)
    v (swap i) (image i) (dmabuf i) (ctx_alloc i) (alt_contexts i)
    (type_ i) (managed i) (context i) (context_ind i) (display i) (surface i).
Definition set_image (i : shmif_ext_hidden_int) (v : Z) :=
  mk_int (dev i) (rtgt_a i) (rtgt_b i) (rtgt_cur i) (buf_a i) (buf_b i) (buf_cur i)
    (nopass i) (swap i) v (dmabuf i) (ctx_alloc i) (alt_contexts i)
    (type_ i) (managed i) (context i) (context_ind i) (display i) (surface i).
Definition set_dmabuf (i : shmif_ext_hidden_int) (v : Z) :=
  mk_int (dev i) (rtgt_a i) (rtgt_b i) (rtgt_cur i) (buf_a i) (buf_b i) (buf_cur i)
    (nopass i) (swap i) (image i) v (ctx_alloc i) (alt_contexts i)
    (type_ i) (managed i) (context i) (context_ind i) (display i) (surface i).
Definition set_ctx_alloc (i : shmif_ext_hidden_int) (v : Z) :=
  mk_int (dev i) (rtgt_a i) (rtgt_b i) (rtgt_cur i) (buf_a i) (buf_b i) (buf_cur i)
    (nopass i) (swap i) (image i) (dmabuf i) v (alt_contexts i)
    (type_ i) (managed i) (context i) (context_ind i) (display i) (surface i).
Definition set_alt_contexts (i : shmif_ext_hidden_int) (v : list Z) :=
  mk_int (dev i) (rtgt_a i) (rtgt_b i) (rtgt_cur i) (buf_a i) (buf_b i) (buf_cur i)
    (nopass i) (swap i) (image i) (dmabuf i) (ctx_alloc i) v
    (type_ i) (managed i) (context i) (context_ind i) (display i) (surface i).
Definition set_context (i : shmif_ext_hidden_int) (ind v : Z) :=
  mk_int (dev i) (rtgt_a i) (rtgt_b i) (rtgt_cur i) (buf_a i) (buf_b i) (buf_cur i)
    (nopass i) (swap i) (image i) (dmabuf i) (ctx_alloc i) (alt_contexts i)
    (type_ i) (managed i) v ind (display i) (surface i).

(** [struct shmif_ext_hidden] and the fields of [struct arcan_shmif_cont]
    that this file uses. A [NULL] connection is [None]. *)
Record shmif_ext_hidden := mk_hidden {
  internal : option shmif_ext_hidden_int;
  cleanup : bool;
  active_fd : Z;
  pending_fd : Z
}.

Record arcan_shmif_cont := mk_con {
  addr : bool;
  privext : option shmif_ext_hidden;
  con_w : Z;
  con_h : Z;
  vidp : Z;
  hints : Z
}.

(** The chain [con], [con->privext], [con->privext->internal]. *)
Definition ext_internal (con : option arcan_shmif_cont)
  : option (arcan_shmif_cont * shmif_ext_hidden * shmif_ext_hidden_int) :=
  match con with
  | Some c =>
      match privext c with
      | Some pe =>
          match internal pe with
          | Some i => Some (c, pe, i)
          | None => None
          end
      | None => None
      end
  | None => None
  end.

Definition with_internal (c : arcan_shmif_cont) (pe : shmif_ext_hidden)
    (i : shmif_ext_hidden_int) : arcan_shmif_cont :=
  mk_con (addr c)
    (Some (mk_hidden (Some i) (cleanup pe) (active_fd pe) (pending_fd pe)))
    (con_w c) (con_h c) (vidp c) (hints c).

(** The four file-level function pointers; [true] for a resolved one. *)
Record egl_functions := mk_fns {
  create_image : bool;
  destroy_image : bool;
  query_image_format : bool;
  export_dmabuf : bool
}.

(** [check_functions]: the four lookups and their conjunction. *)
Definition check_functions (lookup : list bool) : egl_functions * bool :=
  let f := mk_fns (nth 0 lookup false) (nth 1 lookup false)
             (nth 2 lookup false) (nth 3 lookup false) in
  (f, create_image f && destroy_image f && query_image_format f && export_dmabuf f).

(** What lives outside the process image: the EGL images that exist, the
    descriptors that are open, the context last made current. Images and
    descriptors are named by allocation, never reused. *)
Record egl_world := mk_world {
  live_images : list Z;
  open_fds : list Z;
  next_handle : Z;
  current_context : Z
}.

Definition w_destroy_image (w : egl_world) (img : Z) : egl_world :=
  mk_world (List.filter (fun x => negb (x =? img)) (live_images w)) (open_fds w)
    (next_handle w) (current_context w).

Definition w_close (w : egl_world) (fd : Z) : egl_world :=
  mk_world (live_images w) (List.filter (fun x => negb (x =? fd)) (open_fds w))
    (next_handle w) (current_context w).

Definition w_new_image (w : egl_world) : Z * egl_world :=
  (next_handle w + 1,
   mk_world (next_handle w + 1 :: live_images w) (open_fds w)
     (next_handle w + 1) (current_context w)).

Definition w_new_fd (w : egl_world) : Z * egl_world :=
  (next_handle w + 1,
   mk_world (live_images w) (next_handle w + 1 :: open_fds w)
     (next_handle w + 1) (current_context w)).

Definition w_make_current (w : egl_world) (ctx : Z) : egl_world :=
  mk_world (live_images w) (open_fds w) (next_handle w) ctx.

(** *** Context slots *)

(** [1 << i] on [int]. The counts the program shifts by run from 0 to 63:
    C defines the result for those below the width only, and for the others
    the value is the one of the x86 shift instruction the expression
    compiles to, which takes the count modulo 32. *)
Definition shl_int (i : Z) : Z := to_int32 (Z.shiftl 1 (i mod 32)).

(** The test [(1 << ind) & ctx->ctx_alloc] against the 64-bit mask. *)
Definition slot_bit (alloc ind : Z) : bool :=
  negb (Z.land (to_uint64 (shl_int ind)) alloc =? 0).

(** A read or write of [alt_contexts], an array of 64; an index outside it
    has no defined result. *)
Definition alt_read (l : list Z) (idx : Z) : option Z :=
  if (0 <=? idx) && (idx <? 64) then l !! Z.to_nat idx else None.

Definition alt_write (l : list Z) (idx v : Z) : option (list Z) :=
  if (0 <=? idx) && (idx <? 64) && (idx <? Z.of_nat (length l))
  then Some (<[Z.to_nat idx := v]> l) else None.

(** [get_egl_context]: the outer [None] is an access outside the array, the
    inner one the result [false]. *)
Definition get_egl_context (ctx : shmif_ext_hidden_int) (ind : Z)
  : option (option Z) :=
  if 64 <=? ind then Some None
  else if negb (managed ctx) || negb (slot_bit (ctx_alloc ctx) ind) then Some None
  else match alt_read (alt_contexts ctx) (to_int32 (shl_int ind - 1)) with
       | Some v => Some (Some v)
       | None => None
       end.

(** What EGL answers during [add_context]. *)
Record config_oracle := mk_cfg {
  getconfigs_ok : bool;
  getconfigs_nc : Z;
  chooseconfig_ok : bool;
  chooseconfig_nc : Z;
  create_context : Z -> list Z -> Z
}.

Definition EGL_NONE : Z := 0x3038.
Definition EGL_CONTEXT_CLIENT_VERSION : Z := 0x3098.
Definition EGL_CONTEXT_MAJOR_VERSION_KHR : Z := 0x3098.
Definition EGL_CONTEXT_MINOR_VERSION_KHR : Z := 0x30FB.
Definition EGL_CONTEXT_FLAGS_KHR : Z := 0x30FC.
Definition EGL_CONTEXT_OPENGL_PROFILE_MASK_KHR : Z := 0x30FD.

(** The loop looking for the first free slot, [i] counting up to 64. *)
Fixpoint first_free (alloc : Z) (n : nat) (i : Z) : option Z :=
  match n with
  | O => None
  | S n' => if slot_bit alloc i then first_free alloc n' (i + 1) else Some i
  end.

(** The attribute list [cas] handed to [eglCreateContext]. *)
Definition context_attribs (arg : arcan_shmifext_setup) : list Z :=
  let cas0 := [EGL_CONTEXT_CLIENT_VERSION; 2] ++ repeat EGL_NONE 10 in
  if api arg =? API_GLES then cas0
  else
    let s1 :=
      if major arg =? 0 then (cas0, 0%nat)
      else (<[3%nat := to_int32 (minor arg)]>
              (<[2%nat := EGL_CONTEXT_MINOR_VERSION_KHR]>
                 (<[1%nat := to_int32 (major arg)]>
                    (<[0%nat := EGL_CONTEXT_MAJOR_VERSION_KHR]> cas0))), 4%nat) in
    let s2 :=
      if mask arg =? 0 then s1
      else (<[S (snd s1) := to_int32 (mask arg)]>
              (<[snd s1 := EGL_CONTEXT_OPENGL_PROFILE_MASK_KHR]> (fst s1)),
            S (S (snd s1))) in
    let s3 :=
      if flags arg =? 0 then s2
      else (<[S (snd s2) := to_int32 (flags arg)]>
              (<[snd s2 := EGL_CONTEXT_FLAGS_KHR]> (fst s2)),
            S (S (snd s2))) in
    fst s3.

(** [add_context]: status, the index written to [*ind] if any, and the
    context record as the call leaves it. *)
Definition add_context (ctx : shmif_ext_hidden_int) (arg : arcan_shmifext_setup)
    (env : config_oracle)
  : option (shmifext_setup_status * option Z * shmif_ext_hidden_int) :=
  if negb ((api arg =? API_OPENGL) || (api arg =? API_GLES))
  then Some (SHMIFEXT_NO_API, None, ctx)
  else
    match first_free (ctx_alloc ctx) 64 0 with
    | None => Some (SHMIFEXT_OUT_OF_MEMORY, None, ctx)
    | Some i =>
        if negb (getconfigs_ok env) then Some (SHMIFEXT_NO_CONFIG, None, ctx)
        else if getconfigs_nc env =? 0 then Some (SHMIFEXT_NO_CONFIG, None, ctx)
        else if negb (chooseconfig_ok env) || (chooseconfig_nc env <? 1)
        then Some (SHMIFEXT_NO_CONFIG, None, ctx)
        else
          let sctx_r :=
            if shared_context arg =? 0 then Some None
            else get_egl_context ctx (to_uint32 (shared_context arg)) in
          match sctx_r with
          | None => None
          | Some found =>
              let sctx := match found with Some v => v | None => 0 end in
              let created := create_context env sctx (context_attribs arg) in
              match alt_write (alt_contexts ctx) (to_int32 (shl_int i - 1)) created with
              | None => None
              | Some slots =>
                  let ctx1 := set_alt_contexts ctx slots in
                  match alt_read slots (to_uint64 (Z.shiftl i i)) with
                  | None => None
                  | Some probe =>
                      if probe =? 0 then Some (SHMIFEXT_NO_CONTEXT, None, ctx1)
                      else
                        Some (SHMIFEXT_OK, Some (i + 1),
                              set_ctx_alloc ctx1
                                (Z.lor (ctx_alloc ctx) (to_uint64 (shl_int i))))
                  end
              end
          end
    end.

(** [arcan_shmifext_add_context]: the reference, 0 on any failure. *)
Definition arcan_shmifext_add_context (con : option arcan_shmif_cont)
    (arg : arcan_shmifext_setup) (env : config_oracle)
  : option (Z * option arcan_shmif_cont) :=
  match ext_internal con with
  | None => Some (0, con)
  | Some (c, pe, ctx) =>
      if display ctx =? 0 then Some (0, con)
      else
        match add_context ctx arg env with
        | None => None
        | Some (SHMIFEXT_OK, Some res, ctx') => Some (res, Some (with_internal c pe ctx'))
        | Some (_, _, ctx') => Some (0, Some (with_internal c pe ctx'))
        end
  end.

(** [arcan_shmifext_swap_context]. *)
Definition arcan_shmifext_swap_context (con : option arcan_shmif_cont)
    (context_ref : Z) (w : egl_world)
  : option (option arcan_shmif_cont * egl_world) :=
  match ext_internal con with
  | None => Some (con, w)
  | Some (c, pe, ctx) =>
      if (display ctx =? 0) || (64 <? context_ref) || (context_ref =? 0)
      then Some (con, w)
      else
        match get_egl_context ctx (context_ref - 1) with
        | None => None
        | Some None => Some (con, w)
        | Some (Some egl_ctx) =>
            let ctx' := set_context ctx (context_ref - 1) egl_ctx in
            Some (Some (with_internal c pe ctx'), w_make_current w egl_ctx)
        end
  end.

(** *** Handle export *)

(** What EGL answers during one [arcan_shmifext_gltex_handle]: whether
    [create_image] yields an image, what [query_image_format] reports, and
    whether [export_dmabuf] yields a descriptor and with which stride. *)
Record export_oracle := mk_export {
  o_create : bool;
  o_query : bool;
  o_fourcc : Z;
  o_nplanes : Z;
  o_export : bool;
  o_stride : Z
}.

(** The return value and the three out-parameters ([None] when the call
    did not write them), with the connection and the world it leaves. *)
Record gltex_result := mk_gltex {
  gr_ret : bool;
  gr_dhandle : option Z;
  gr_dstride : option Z;
  gr_dfmt : option Z;
  gr_con : option arcan_shmif_cont;
  gr_world : egl_world
}.

(** The head of [arcan_shmifext_gltex_handle]: an image left in the record
    is destroyed and the descriptor beside it closed. The result is [None]
    when the call goes through a function pointer that did not resolve. *)
Definition gltex_invalidate (fns : egl_functions) (ctx : shmif_ext_hidden_int)
    (w : egl_world) : option (shmif_ext_hidden_int * egl_world) :=
  if image ctx =? 0 then Some (ctx, w)
  else if destroy_image fns
       then Some (set_dmabuf ctx (-1),
                  w_close (w_destroy_image w (image ctx)) (dmabuf ctx))
       else None.

(** The rest of it: create the image, query its format, export it. *)
Definition gltex_export (fns : egl_functions) (c : arcan_shmif_cont)
    (pe : shmif_ext_hidden) (ctx1 : shmif_ext_hidden_int) (w1 : egl_world)
    (o : export_oracle) : option gltex_result :=
  if negb (create_image fns) then None
  else
    let '(img, w2) := if o_create o then w_new_image w1 else (0, w1) in
    let ctx2 := set_image ctx1 img in
    let out r dh ds df cx wx :=
      Some (mk_gltex r dh ds df (Some (with_internal c pe cx)) wx) in
    if img =? 0 then out false None None None ctx2 w2
    else if negb (query_image_format fns) then None
    else if negb (o_query o) then out false None None None ctx2 w2
    else if negb (o_nplanes o =? 1) then out false None None None ctx2 w2
    else if negb (export_dmabuf fns) then None
    else if negb (o_export o) then
      if destroy_image fns
      then out false None None None ctx2 (w_destroy_image w2 img)
      else None
    else
      let '(fd, w3) := w_new_fd w2 in
      if to_int32 (o_stride o) <? 0 then
        if destroy_image fns
        then out false (Some fd) None None ctx2 (w_destroy_image w3 img)
        else None
      else
        out true (Some fd) (Some (to_uint64 (to_int32 (o_stride o))))
          (Some (o_fourcc o)) (set_dmabuf ctx2 fd) w3.

(** [arcan_shmifext_gltex_handle]. The guard returns [-1] from a function
    declared [bool], which is [true]. *)
Definition arcan_shmifext_gltex_handle (fns : egl_functions)
    (con : option arcan_shmif_cont) (display_arg tex_id : Z)
    (o : export_oracle) (w : egl_world) : option gltex_result :=
  match ext_internal con with
  | None => Some (mk_gltex true None None None con w)
  | Some (c, pe, ctx) =>
      if negb (addr c) then Some (mk_gltex true None None None con w)
      else
        match gltex_invalidate fns ctx w with
        | None => None
        | Some (ctx1, w1) => gltex_export fns c pe ctx1 w1 o
        end
  end.

(** A run of export calls on one connection, each with its arguments and
    the answers EGL gives it. *)
Fixpoint export_calls (fns : egl_functions) (con : option arcan_shmif_cont)
    (w : egl_world) (calls : list (Z * Z * export_oracle))
  : option (list gltex_result * option arcan_shmif_cont * egl_world) :=
  match calls with
  | [] => Some ([], con, w)
  | (dpy, tex, o) :: rest =>
      match arcan_shmifext_gltex_handle fns con dpy tex o w with
      | None => None
      | Some r =>
          match export_calls fns (gr_con r) (gr_world r) rest with
          | None => None
          | Some (rs, con', w') => Some (r :: rs, con', w')
          end
      end
  end.


(** The context record of a connection, for reading its fields. *)
Definition internal_of (con : option arcan_shmif_cont) : option shmif_ext_hidden_int :=
  match ext_internal con with
  | Some (_, _, i) => Some i
  | None => None
  end.

(** *** Signalling a frame *)

Definition SHMIFEXT_BUILTIN : Z := 2 ^ 64 - 1.

(** [arcan_shmifext_bufferfail]; [no_fdpass] tells whether
    [ARCAN_VIDEO_NO_FDPASS] is set in the environment. *)
Definition arcan_shmifext_bufferfail (no_fdpass : bool)
    (con : option arcan_shmif_cont) (st : bool) : option arcan_shmif_cont :=
  match ext_internal con with
  | None => con
  | Some (c, pe, i) =>
      Some (with_internal c pe (set_nopass i (if no_fdpass then true else st)))
  end.

(** How a frame leaves [arcan_shmifext_signal]: not at all, as a passed
    descriptor, or as a synchronous readback of a texture into [vidp]. *)
Inductive delivery :=
| Rejected
| ByHandle (fd stride fourcc : Z)
| ByReadback (glid : Z).

(** What the call is answered: EGL during the export, the texture name the
    store has after [agp_stream_commit], the texture
    [agp_rendertarget_swap] hands back, and the unsigned result of
    [arcan_shmif_signal] or [arcan_shmif_signalhandle]. *)
Record signal_oracle := mk_sig {
  s_export : export_oracle;
  s_upload_glid : Z;
  s_swap_tex : Z;
  s_elapsed : Z
}.

Definition cur_vstore (i : shmif_ext_hidden_int) (b : buf_sel) : agp_vstore :=
  match b with BufA => buf_a i | BufB => buf_b i end.

Definition set_cur_vstore (i : shmif_ext_hidden_int) (b : buf_sel) (v : agp_vstore) :=
  match b with BufA => set_buf_a i v | BufB => set_buf_b i v end.

Definition other_buf (b : buf_sel) : buf_sel :=
  match b with BufA => BufB | BufB => BufA end.

(** The part of [arcan_shmifext_signal] before the export: the guards and
    the [SHMIFEXT_BUILTIN] branch. *)
Inductive prepared :=
| PrepRejected
| PrepFallback (tex_id : Z) (ctx : shmif_ext_hidden_int)
| PrepExport (tex_id : Z) (ctx : shmif_ext_hidden_int).

Definition signal_prepare (c : arcan_shmif_cont) (ctx : shmif_ext_hidden_int)
    (display_arg tex_id : Z) (o : signal_oracle) : option prepared :=
  let dpy := if display_arg =? 0 then display ctx else display_arg in
  if dpy =? 0 then Some PrepRejected
  else if tex_id =? SHMIFEXT_BUILTIN then
    if negb (managed ctx) then Some PrepRejected
    else if rtgt_cur ctx =? 0 then
      if nopass ctx then Some (PrepFallback tex_id ctx)
      else
        match buf_cur ctx with
        | None => None
        | Some b =>
            let v := cur_vstore ctx b in
            let v' := mk_vstore (con_w c) (con_h c) (s_upload_glid o) 0
                        (to_uint64 (con_w c * con_h c * 4)) (vs_s_fmt v) in
            let ctx1 := set_cur_vstore ctx b v' in
            Some (PrepExport (vs_glid v') (set_buf_cur ctx1 (Some (other_buf b))))
        end
    else
      match buf_cur ctx with
      | None => None
      | Some _ =>
          let ctx1 :=
            if rtgt_b ctx =? 0 then ctx
            else set_rtgt_cur ctx
                   (if rtgt_cur ctx =? rtgt_a ctx then rtgt_b ctx else rtgt_a ctx) in
          Some (PrepExport (s_swap_tex o) ctx1)
      end
  else Some (PrepExport tex_id ctx).

Definition clamp_int (res : Z) : Z := if INT_MAX <? res then INT_MAX else res.

(** [arcan_shmifext_signal]: the return value, how the frame left, the
    connection and the world. [None] as for the export. *)
Definition arcan_shmifext_signal (fns : egl_functions)
    (con : option arcan_shmif_cont) (display_arg mask_arg tex_id : Z)
    (o : signal_oracle) (w : egl_world)
  : option (Z * delivery * option arcan_shmif_cont * egl_world) :=
  match ext_internal con with
  | None => Some (-1, Rejected, con, w)
  | Some (c, pe, ctx) =>
      if negb (addr c) then Some (-1, Rejected, con, w)
      else
        match signal_prepare c ctx display_arg tex_id o with
        | None => None
        | Some PrepRejected => Some (-1, Rejected, con, w)
        | Some (PrepFallback tex ctx1) =>
            Some (clamp_int (s_elapsed o), ByReadback tex,
                  Some (with_internal c pe ctx1), w)
        | Some (PrepExport tex ctx1) =>
            let con1 := Some (with_internal c pe ctx1) in
            if nopass ctx1 || negb (create_image fns)
            then Some (clamp_int (s_elapsed o), ByReadback tex, con1, w)
            else
              match arcan_shmifext_gltex_handle fns con1 display_arg tex
                      (s_export o) w with
              | None => None
              | Some r =>
                  match gr_ret r, gr_dhandle r, gr_dstride r, gr_dfmt r with
                  | true, Some fd, Some stride, Some fourcc =>
                      Some (clamp_int (s_elapsed o), ByHandle fd stride fourcc,
                            gr_con r, gr_world r)
                  | _, _, _, _ =>
                      Some (clamp_int (s_elapsed o), ByReadback tex,
                            gr_con r, gr_world r)
                  end
              end
        end
  end.

(** The export as [arcan_shmifext_signal] would run it on what its first
    part leaves, whether or not it gets that far. *)
Definition signal_export (fns : egl_functions) (con : option arcan_shmif_cont)
    (display_arg tex_id : Z) (o : signal_oracle) (w : egl_world)
  : option gltex_result :=
  match ext_internal con with
  | Some (c, pe, ctx) =>
      match signal_prepare c ctx display_arg tex_id o with
      | Some (PrepExport tex ctx1) =>
          arcan_shmifext_gltex_handle fns (Some (with_internal c pe ctx1))
            display_arg tex (s_export o) w
      | _ => None
      end
  | None => None
  end.

Definition is_readback (d : delivery) : bool :=
  match d with ByReadback _ => true | _ => false end.

(** *** Statements about the slots *)

(** The context handed to [eglCreateContext] for sharing: the slot named by
    [arg->shared_context] if it is allocated, [NULL] otherwise. *)
Definition shared_sctx (ctx : shmif_ext_hidden_int) (arg : arcan_shmifext_setup) : Z :=
  if shared_context arg =? 0 then 0
  else match get_egl_context ctx (to_uint32 (shared_context arg)) with
       | Some (Some v) => v
       | _ => 0
       end.

(** The indices that pass the probe [alt_contexts[i << i]] of an array of
    64, tested over all 64 slots. *)
Definition probe_in_bounds (i : Z) : bool :=
  negb (to_uint64 (Z.shiftl i i) <? 64) || (i <=? 3).

(** *** Concrete contexts *)

Definition empty_vstore : agp_vstore := mk_vstore 0 0 0 0 0 0.

(** The record as [arcan_shmifext_egl] leaves it after [memset] and the two
    assignments, with a device, and with the display [arcan_shmifext_setup]
    stores. *)
Definition fresh_internal (no_fdpass : bool) : shmif_ext_hidden_int :=
  mk_int 1 0 0 0 empty_vstore empty_vstore None no_fdpass false 0 (-1) 0
    (repeat 0 64) 0 false 0 0 0 0.

Definition managed_internal : shmif_ext_hidden_int :=
  mk_int 1 0 0 0 empty_vstore empty_vstore None false false 0 (-1) 0
    (repeat 0 64) 0 true 0 0 77 0.

Definition con_of (i : shmif_ext_hidden_int) : option arcan_shmif_cont :=
  Some (mk_con true (Some (mk_hidden (Some i) true 5 (-1))) 640 480 4096 0).

Definition default_setup : arcan_shmifext_setup :=
  mk_setup 1 1 1 1 16 API_OPENGL 2 1 0 0 2 0 0 0 0 0 0.

(** An EGL that has configurations and creates the context [h]. *)
Definition egl_creates (h : Z) : config_oracle :=
  mk_cfg true 4 true 1 (fun _ _ => h).

Definition fresh_world : egl_world := mk_world [] [0; 1; 2; 5] 5 0.

Definition all_resolved : egl_functions := mk_fns true true true true.

Definition export_ok (stride : Z) : export_oracle := mk_export true true 875713112 1 true stride.
Definition export_refused : export_oracle := mk_export true true 875713112 1 false 0.

Definition sig_export_ok : signal_oracle := mk_sig (export_ok 2560) 0 0 16.



End EglDri.

(** ** More of the render-node helper *)

Module EglMore.
Import EglDri.

(** A run of [add_context] calls on one record, each with its arguments
    and the answers EGL gives it. *)
Fixpoint add_context_run (ctx : shmif_ext_hidden_int)
    (calls : list (arcan_shmifext_setup * config_oracle))
  : option (list (shmifext_setup_status * option Z) * shmif_ext_hidden_int) :=
  match calls with
  | [] => Some ([], ctx)
  | (arg, env) :: rest =>
      match add_context ctx arg env with
      | None => None
      | Some (st, ind, ctx1) =>
          match add_context_run ctx1 rest with
          | None => None
          | Some (rs, ctx') => Some ((st, ind) :: rs, ctx')
          end
      end
  end.

Definition is_ok (r : shmifext_setup_status * option Z) : bool :=
  match fst r with SHMIFEXT_OK => true | _ => false end.

(** The slots as a record set up by [arcan_shmifext_egl] has them, and as
    [add_context] keeps them: no bit of the mask beyond the first, and
    nothing stored from the third entry of the array on. *)
Definition one_slot (ctx : shmif_ext_hidden_int) : Prop :=
  (ctx_alloc ctx = 0 \/ ctx_alloc ctx = 1)
  /\ length (alt_contexts ctx) = 64%nat
  /\ forall k, (2 <= k < 64)%nat -> alt_contexts ctx !! k = Some 0.

(** The slot test over all indices of a mask that is 0 or 1: the only
    indices that pass it are 0 and 32, both reading the first entry. *)
Definition low_mask_bit (ind : Z) : bool :=
  negb (slot_bit 0 ind)
  && (negb (slot_bit 1 ind)
      || (((ind =? 0) || (ind =? 32)) && (to_int32 (shl_int ind - 1) =? 0))).

(** *** Tearing down ([gbm_drop], [arcan_shmifext_drop]) *)

(** The world with what the teardown adds to it: the contexts passed to
    [eglDestroyContext], in order, the displays passed to [eglTerminate]
    and the render targets passed to [agp_drop_rendertarget]. *)
Record drop_world := mk_dw {
  dw_egl : egl_world;
  dw_destroyed : list Z;
  dw_terminated : list Z;
  dw_dropped : list Z
}.

Definition dw_with_egl (d : drop_world) (w : egl_world) : drop_world :=
  mk_dw w (dw_destroyed d) (dw_terminated d) (dw_dropped d).

Definition dw_destroy_context (d : drop_world) (ctx : Z) : drop_world :=
  mk_dw (dw_egl d) (dw_destroyed d ++ [ctx]) (dw_terminated d) (dw_dropped d).

Definition dw_terminate (d : drop_world) (dpy : Z) : drop_world :=
  mk_dw (dw_egl d) (dw_destroyed d) (dw_terminated d ++ [dpy]) (dw_dropped d).

Definition dw_drop_targets (d : drop_world) (l : list Z) : drop_world :=
  mk_dw (dw_egl d) (dw_destroyed d) (dw_terminated d) (dw_dropped d ++ l).

(** The part of [gbm_drop] that runs on a record with a device.  The
    stores it drops and zaps go with the record, which is freed. *)
Definition gbm_drop_device (fns : egl_functions) (i : shmif_ext_hidden_int)
    (d : drop_world) : option drop_world :=
  let d1 := if rtgt_cur i =? 0 then d else dw_drop_targets d [rtgt_a i; rtgt_b i] in
  let d2 :=
    if image i =? 0 then Some d1
    else if destroy_image fns
         then Some (dw_with_egl d1 (w_destroy_image (dw_egl d1) (image i)))
         else None in
  match d2 with
  | None => None
  | Some d2 =>
      if managed i then
        let d3 := dw_with_egl d2 (w_make_current (dw_egl d2) 0) in
        let d4 := if context i =? 0 then d3 else dw_destroy_context d3 (context i) in
        Some (dw_terminate d4 (display i))
      else Some d2
  end.

(** [gbm_drop]: the record is released and the connection is left without
    one.  It reads [con->privext->internal] without a test of [privext]. *)
Definition gbm_drop (fns : egl_functions) (c : arcan_shmif_cont) (d : drop_world)
  : option (arcan_shmif_cont * drop_world) :=
  match privext c with
  | None => None
  | Some pe =>
      match internal pe with
      | None => Some (c, d)
      | Some i =>
          match (if dev i =? 0 then Some d else gbm_drop_device fns i d) with
          | None => None
          | Some d1 =>
              let d2 := if dmabuf i =? -1 then d1
                        else dw_with_egl d1 (w_close (dw_egl d1) (dmabuf i)) in
              Some (mk_con (addr c)
                      (Some (mk_hidden None false (active_fd pe) (pending_fd pe)))
                      (con_w c) (con_h c) (vidp c) (hints c), d2)
          end
      end
  end.

(** [~(1 << i)] as the 64-bit operand of [&=]. *)
Definition not_shl (i : Z) : Z := to_uint64 (- shl_int i - 1).

(** The loop of [arcan_shmifext_drop] over the slots, [i] counting up to
    64 as long as the mask is not empty. *)
Fixpoint drop_slots (n : nat) (i : Z) (alloc : Z) (slots : list Z) (destroyed : list Z)
  : option (Z * list Z * list Z) :=
  match n with
  | O => Some (alloc, slots, destroyed)
  | S n' =>
      if alloc =? 0 then Some (alloc, slots, destroyed)
      else if slot_bit alloc i then
        match alt_read slots i with
        | None => None
        | Some h =>
            match alt_write slots i 0 with
            | None => None
            | Some slots' =>
                drop_slots n' (i + 1) (Z.land alloc (not_shl i)) slots' (destroyed ++ [h])
            end
        end
      else drop_slots n' (i + 1) alloc slots destroyed
  end.

(** [arcan_shmifext_drop].  It also clears the file-level
    [active_context], which is not part of this state. *)
Definition arcan_shmifext_drop (fns : egl_functions) (con : option arcan_shmif_cont)
    (d : drop_world) : option (bool * option arcan_shmif_cont * drop_world) :=
  match ext_internal con with
  | None => Some (false, con, d)
  | Some (c, pe, ctx) =>
      if display ctx =? 0 then Some (false, con, d)
      else
        let d1 := dw_with_egl d (w_make_current (dw_egl d) 0) in
        match drop_slots 64 0 (ctx_alloc ctx) (alt_contexts ctx) [] with
        | None => None
        | Some (alloc, slots, destroyed) =>
            let d2 := mk_dw (dw_egl d1) (dw_destroyed d1 ++ destroyed)
                        (dw_terminated d1) (dw_dropped d1) in
            let ctx1 := set_context (set_alt_contexts (set_ctx_alloc ctx alloc) slots)
                          (context_ind ctx) 0 in
            match gbm_drop fns (with_internal c pe ctx1) d2 with
            | None => None
            | Some (c', d3) => Some (true, Some c', d3)
            end
        end
  end.

Definition fresh_dw (w : egl_world) : drop_world := mk_dw w [] [] [].

(** *** The active connection ([arcan_shmifext_make_current],
    [arcan_shmifext_bind], [arcan_shmifext_drop_context]) *)

(** Calls into the render-target layer. *)
Inductive agp_call :=
| AgpActivate (rtgt : Z)
| AgpResize (rtgt w h : Z).

(** The world, the file-level [active_context] (connections are told apart
    by an identity, [None] is [NULL]) and the calls made so far. *)
Record ctx_state := mk_cs {
  cs_world : drop_world;
  active_context : option Z;
  agp_calls : list agp_call
}.

Definition is_active (st : ctx_state) (self : Z) : bool :=
  match active_context st with
  | Some a => a =? self
  | None => false
  end.

(** The branch of [arcan_shmifext_bind] for the connection that is
    active: the render targets follow the size of the connection and the
    current one is activated.  It reads through [buf_cur]. *)
Definition bind_targets (c : arcan_shmif_cont) (ctx : shmif_ext_hidden_int)
    (st : ctx_state) : option ctx_state :=
  if rtgt_cur ctx =? 0 then Some st
  else
    match buf_cur ctx with
    | None => None
    | Some b =>
        let v := cur_vstore ctx b in
        let resize :=
          if negb (vs_w v =? con_w c) || negb (vs_h v =? con_h c)
          then [AgpActivate 0; AgpResize (rtgt_a ctx) (con_w c) (con_h c)]
               ++ (if rtgt_b ctx =? 0 then []
                   else [AgpResize (rtgt_b ctx) (con_w c) (con_h c)])
          else [] in
        Some (mk_cs (cs_world st) (active_context st)
                (agp_calls st ++ resize ++ [AgpActivate (rtgt_cur ctx)]))
    end.

(** [arcan_shmifext_make_current], with the call of [arcan_shmifext_bind]
    at its end, which finds the connection active. *)
Definition arcan_shmifext_make_current (self : Z) (con : option arcan_shmif_cont)
    (st : ctx_state) : option (bool * ctx_state) :=
  match ext_internal con with
  | None => Some (false, st)
  | Some (c, pe, ctx) =>
      if display ctx =? 0 then Some (false, st)
      else
        let st1 :=
          if is_active st self then st
          else mk_cs (dw_with_egl (cs_world st)
                        (w_make_current (dw_egl (cs_world st)) (context ctx)))
                 (Some self) (agp_calls st) in
        match bind_targets c ctx st1 with
        | None => None
        | Some st2 => Some (true, st2)
        end
  end.

(** [arcan_shmifext_bind]. *)
Definition arcan_shmifext_bind (self : Z) (con : option arcan_shmif_cont)
    (st : ctx_state) : option ctx_state :=
  match ext_internal con with
  | None => Some st
  | Some (c, pe, ctx) =>
      if display ctx =? 0 then Some st
      else if is_active st self then bind_targets c ctx st
      else
        match arcan_shmifext_make_current self con st with
        | None => None
        | Some (_, st') => Some st'
        end
  end.

(** [arcan_shmifext_drop_context]; [others] resolves the connection that
    was active when it is not this one. *)
Definition arcan_shmifext_drop_context (self : Z) (con : option arcan_shmif_cont)
    (others : Z -> option arcan_shmif_cont) (st : ctx_state)
  : option (bool * option arcan_shmif_cont * ctx_state) :=
  match ext_internal con with
  | None => Some (false, con, st)
  | Some (c, pe, ctx0) =>
      if display ctx0 =? 0 then Some (false, con, st)
      else
        let old := active_context st in
        match (if is_active st self then Some (true, st)
               else arcan_shmifext_make_current self con st) with
        | None => None
        | Some (_, st1) =>
            let '(ctx1, st2) :=
              if context ctx0 =? 0 then (ctx0, st1)
              else (set_context ctx0 (context_ind ctx0) 0,
                    mk_cs (dw_destroy_context
                             (dw_with_egl (cs_world st1)
                                (w_make_current (dw_egl (cs_world st1)) 0))
                             (context ctx0))
                      (active_context st1) (agp_calls st1)) in
            let con1 := Some (with_internal c pe ctx1) in
            let restored :=
              match old with
              | None => Some (false, st2)
              | Some a =>
                  if a =? self then arcan_shmifext_make_current self con1 st2
                  else arcan_shmifext_make_current a (others a) st2
              end in
            match restored with
            | None => None
            | Some (_, st3) => Some (true, con1, st3)
            end
        end
  end.

Definition fresh_cs (w : egl_world) : ctx_state := mk_cs (fresh_dw w) None [].

(** *** Opening the device ([arcan_shmifext_egl]) *)

(** What the call is answered from outside: the four symbol lookups,
    whether [open] on the render node gives a descriptor, whether [malloc]
    gives memory, the device [gbm_create_device] returns, whether
    [ARCAN_VIDEO_NO_FDPASS] is set, and the hints of the connection after
    [authenticate_fd]. *)
Record egl_oracle := mk_eglo {
  e_lookup : list bool;
  e_open_ok : bool;
  e_malloc_ok : bool;
  e_gbm_dev : Z;
  e_no_fdpass : bool;
  e_auth_hints : Z -> Z
}.

(** The record after [memset] and the assignments that follow it. *)
Definition zeroed_internal (no_fdpass : bool) (gbm_dev : Z) : shmif_ext_hidden_int :=
  mk_int gbm_dev 0 0 0 empty_vstore empty_vstore None no_fdpass false 0 (-1) 0
    (repeat 0 64) 0 false 0 0 0 0.

Definition with_privext (c : arcan_shmif_cont) (pe : shmif_ext_hidden) : arcan_shmif_cont :=
  mk_con (addr c) (Some pe) (con_w c) (con_h c) (vidp c) (hints c).

Definition with_hints (c : arcan_shmif_cont) (h : Z) : arcan_shmif_cont :=
  mk_con (addr c) (privext c) (con_w c) (con_h c) (vidp c) h.

(** The result of [arcan_shmifext_egl]: the return value, what was
    written to [*display] if anything, the function pointers of the file,
    the connection and the world. *)
Record egl_result := mk_eglr {
  er_ret : bool;
  er_display : option Z;
  er_fns : egl_functions;
  er_con : option arcan_shmif_cont;
  er_world : drop_world
}.

(** The call from the point where a descriptor [dfd] has been chosen. *)
Definition egl_open_device (fns : egl_functions) (c : arcan_shmif_cont)
    (pe : shmif_ext_hidden) (dfd : Z) (o : egl_oracle) (d : drop_world)
  : option egl_result :=
  if dfd =? -1 then Some (mk_eglr false None fns (Some (with_privext c pe)) d)
  else
    let pe1 := mk_hidden (internal pe) true dfd (pending_fd pe) in
    let c1 := with_hints (with_privext c pe1) (e_auth_hints o (hints c)) in
    let finish (c2 : arcan_shmif_cont) (i : shmif_ext_hidden_int) :=
      let '(fns', ok) := check_functions (e_lookup o) in
      if ok then Some (mk_eglr true (Some (dev i)) fns' (Some c2) d)
      else
        match gbm_drop fns' c2 d with
        | None => None
        | Some (c3, d3) => Some (mk_eglr false None fns' (Some c3) d3)
        end in
    match internal pe with
    | Some i => finish c1 i
    | None =>
        if negb (e_malloc_ok o) then Some (mk_eglr false None fns (Some c1) d)
        else
          let i := zeroed_internal (e_no_fdpass o) (e_gbm_dev o) in
          let c2 := with_privext c1 (mk_hidden (Some i) true dfd (pending_fd pe)) in
          if e_gbm_dev o =? 0 then
            match gbm_drop fns c2 d with
            | None => None
            | Some (c3, d3) => Some (mk_eglr false None fns (Some c3) d3)
            end
          else finish c2 i
    end.

(** [arcan_shmifext_egl]; [lookup_given] and [display_given] tell whether
    the two pointer arguments are not [NULL]. *)
Definition arcan_shmifext_egl (fns : egl_functions) (con : option arcan_shmif_cont)
    (lookup_given display_given : bool) (o : egl_oracle) (d : drop_world)
  : option egl_result :=
  match con with
  | None => Some (mk_eglr false None fns None d)
  | Some c =>
      if negb lookup_given || negb (addr c) || negb display_given
      then Some (mk_eglr false None fns con d)
      else
        match privext c with
        | None => None
        | Some pe =>
            if negb (pending_fd pe =? -1) then
              let closed :=
                if negb (active_fd pe =? -1) then
                  let d1 := dw_with_egl d (w_close (dw_egl d) (active_fd pe)) in
                  gbm_drop fns
                    (with_privext c (mk_hidden (internal pe) (cleanup pe) (-1) (pending_fd pe)))
                    d1
                else Some (c, d) in
              match closed with
              | None => None
              | Some (c1, d1) =>
                  match privext c1 with
                  | None => None
                  | Some pe1 =>
                      egl_open_device fns c1
                        (mk_hidden (internal pe1) (cleanup pe1) (active_fd pe1) (-1))
                        (pending_fd pe) o d1
                  end
              end
            else if negb (active_fd pe =? -1) then
              egl_open_device fns c pe (active_fd pe) o d
            else
              match internal pe with
              | None =>
                  if e_open_ok o then
                    let '(fd, w1) := w_new_fd (dw_egl d) in
                    egl_open_device fns c pe fd o (dw_with_egl d w1)
                  else egl_open_device fns c pe (-1) o d
              | Some _ =>
                  let '(fns', ok) := check_functions (e_lookup o) in
                  Some (mk_eglr ok None fns' con d)
              end
        end
  end.

(** *** Setting up ([arcan_shmifext_setup]) *)

Definition set_display (i : shmif_ext_hidden_int) (v : Z) :=
  mk_int (dev i) (rtgt_a i) (rtgt_b i) (rtgt_cur i) (buf_a i) (buf_b i) (buf_cur i)
    (nopass i) (swap i) (image i) (dmabuf i) (ctx_alloc i) (alt_contexts i)
    (type_ i) (managed i) (context i) (context_ind i) v (surface i).
Definition set_managed (i : shmif_ext_hidden_int) (v : bool) :=
  mk_int (dev i) (rtgt_a i) (rtgt_b i) (rtgt_cur i) (buf_a i) (buf_b i) (buf_cur i)
    (nopass i) (swap i) (image i) (dmabuf i) (ctx_alloc i) (alt_contexts i)
    (type_ i) v (context i) (context_ind i) (display i) (surface i).
Definition set_surface (i : shmif_ext_hidden_int) (v : Z) :=
  mk_int (dev i) (rtgt_a i) (rtgt_b i) (rtgt_cur i) (buf_a i) (buf_b i) (buf_cur i)
    (nopass i) (swap i) (image i) (dmabuf i) (ctx_alloc i) (alt_contexts i)
    (type_ i) (managed i) (context i) (context_ind i) (display i) v.
Definition set_swap (i : shmif_ext_hidden_int) (v : bool) :=
  mk_int (dev i) (rtgt_a i) (rtgt_b i) (rtgt_cur i) (buf_a i) (buf_b i) (buf_cur i)
    (nopass i) v (image i) (dmabuf i) (ctx_alloc i) (alt_contexts i)
    (type_ i) (managed i) (context i) (context_ind i) (display i) (surface i).
Definition set_rtgt_a (i : shmif_ext_hidden_int) (v : Z) :=
  mk_int (dev i) v (rtgt_b i) (rtgt_cur i) (buf_a i) (buf_b i) (buf_cur i)
    (nopass i) (swap i) (image i) (dmabuf i) (ctx_alloc i) (alt_contexts i)
    (type_ i) (managed i) (context i) (context_ind i) (display i) (surface i).
Definition set_rtgt_b (i : shmif_ext_hidden_int) (v : Z) :=
  mk_int (dev i) (rtgt_a i) v (rtgt_cur i) (buf_a i) (buf_b i) (buf_cur i)
    (nopass i) (swap i) (image i) (dmabuf i) (ctx_alloc i) (alt_contexts i)
    (type_ i) (managed i) (context i) (context_ind i) (display i) (surface i).

Definition set_s_fmt (v : agp_vstore) (fmt : Z) : agp_vstore :=
  mk_vstore (vs_w v) (vs_h v) (vs_glid v) (vs_raw v) (vs_s_raw v) fmt.

(** What [arcan_shmifext_setup] is answered beyond what its callees are:
    [eglBindAPI], [eglGetDisplay], [eglInitialize], the store
    [agp_empty_vstore] leaves for a size, and the two render targets
    [agp_setup_rendertarget] returns. *)
Record setup_oracle := mk_setupo {
  so_bind_api : bool;
  so_egl : egl_oracle;
  so_get_display : Z -> Z;
  so_initialize : bool;
  so_config : config_oracle;
  so_empty_vstore : Z -> Z -> agp_vstore;
  so_rtgt_a : Z;
  so_rtgt_b : Z
}.

Record setup_result := mk_setupr {
  sr_status : shmifext_setup_status;
  sr_fns : egl_functions;
  sr_con : arcan_shmif_cont;
  sr_state : ctx_state
}.

(** The stores and render targets set up for [builtin_fbo] or
    [vidp_pack]. *)
Definition setup_buffers (c : arcan_shmif_cont) (arg : arcan_shmifext_setup)
    (o : setup_oracle) (ctx : shmif_ext_hidden_int) (st : ctx_state)
  : shmif_ext_hidden_int * ctx_state :=
  if (builtin_fbo arg =? 0) && (vidp_pack arg =? 0) then (ctx, st)
  else
    let ctx1 := set_buf_cur
                  (set_buf_b (set_buf_a ctx (so_empty_vstore o (con_w c) (con_h c)))
                     (so_empty_vstore o (con_w c) (con_h c)))
                  (Some BufA) in
    let '(ctx2, st2) :=
      if builtin_fbo arg =? 0 then (ctx1, st)
      else
        let a := set_rtgt_a (set_swap ctx1 (builtin_fbo arg =? 3)) (so_rtgt_a o) in
        let b := if builtin_fbo arg =? 2 then set_rtgt_b a (so_rtgt_b o) else a in
        (set_rtgt_cur b (rtgt_a b),
         mk_cs (cs_world st) (active_context st)
           (agp_calls st ++ [AgpActivate (rtgt_a b)])) in
    let ctx3 :=
      if vidp_pack arg =? 0 then ctx2
      else set_buf_b (set_buf_a ctx2 (set_s_fmt (buf_a ctx2) (vidp_infmt arg)))
             (set_s_fmt (buf_b ctx2) (vidp_infmt arg)) in
    (ctx3, st2).

(** The part of [arcan_shmifext_setup] that builds the context, from
    [ctx->managed = true] on. *)
Definition setup_managed (self : Z) (fns : egl_functions) (c1 : arcan_shmif_cont)
    (pe1 : shmif_ext_hidden) (ctx1 : shmif_ext_hidden_int)
    (arg : arcan_shmifext_setup) (o : setup_oracle) (st1 : ctx_state)
  : option setup_result :=
  let ctx2 := set_managed ctx1 true in
  match add_context ctx2 arg (so_config o) with
  | None => None
  | Some (SHMIFEXT_OK, Some ind, ctx3) =>
      match arcan_shmifext_swap_context (Some (with_internal c1 pe1 ctx3)) ind
              (dw_egl (cs_world st1)) with
      | None => None
      | Some (con4, w4) =>
          match ext_internal con4 with
          | Some (c4, pe4, ctx4) =>
              let ctx5 := set_surface ctx4 0 in
              let st5 := mk_cs (dw_with_egl (cs_world st1) w4) (Some self) (agp_calls st1) in
              let c6 := with_internal c4 pe4 (fst (setup_buffers c4 arg o ctx5 st5)) in
              match arcan_shmifext_make_current self (Some c6)
                      (snd (setup_buffers c4 arg o ctx5 st5)) with
              | None => None
              | Some (_, st7) => Some (mk_setupr SHMIFEXT_OK fns c6 st7)
              end
          | None => None
          end
      end
  | Some (SHMIFEXT_OK, None, _) => None
  | Some (res, _, ctx3) => Some (mk_setupr res fns (with_internal c1 pe1 ctx3) st1)
  end.

(** The part after [arcan_shmifext_egl] has given a device [dpy_ptr]. *)
Definition setup_display (self : Z) (fns : egl_functions) (c1 : arcan_shmif_cont)
    (pe1 : shmif_ext_hidden) (ctx : shmif_ext_hidden_int) (dpy_ptr : Z)
    (arg : arcan_shmifext_setup) (o : setup_oracle) (st1 : ctx_state)
  : option setup_result :=
  let ctx1 := set_display ctx (so_get_display o dpy_ptr) in
  if display ctx1 =? 0
  then Some (mk_setupr SHMIFEXT_NO_DISPLAY fns (with_internal c1 pe1 ctx1) st1)
  else if negb (so_initialize o)
  then Some (mk_setupr SHMIFEXT_NO_EGL fns (with_internal c1 pe1 ctx1) st1)
  else if negb (no_context arg =? 0)
  then Some (mk_setupr SHMIFEXT_OK fns (with_internal c1 pe1 ctx1) st1)
  else setup_managed self fns c1 pe1 ctx1 arg o st1.

(** Whether the connection has a record with a display. *)
Definition is_setup (c : arcan_shmif_cont) : bool :=
  match ext_internal (Some c) with
  | Some (_, _, ctx) => negb (display ctx =? 0)
  | None => false
  end.

(** [arcan_shmifext_setup] for the connection of identity [self].  It
    reads [con->privext->internal] without a test of [privext], and
    [display] is read whether or not [arcan_shmifext_egl] has written it.
    The function table of the render-target layer, filled on first use, is
    outside this state. *)
Definition arcan_shmifext_setup (self : Z) (fns : egl_functions) (c : arcan_shmif_cont)
    (arg : arcan_shmifext_setup) (o : setup_oracle) (st : ctx_state)
  : option setup_result :=
  match privext c with
  | None => None
  | Some _ =>
      if is_setup c then Some (mk_setupr SHMIFEXT_ALREADY_SETUP fns c st)
      else if negb ((api arg =? API_OPENGL) || (api arg =? API_GLES))
      then Some (mk_setupr SHMIFEXT_NO_API fns c st)
      else if negb (so_bind_api o) then Some (mk_setupr SHMIFEXT_NO_API fns c st)
      else
        match arcan_shmifext_egl fns (Some c) true true (so_egl o) (cs_world st) with
        | None => None
        | Some r =>
            let st1 := mk_cs (er_world r) (active_context st) (agp_calls st) in
            match er_con r with
            | None => None
            | Some c1 =>
                if negb (er_ret r)
                then Some (mk_setupr SHMIFEXT_NO_DISPLAY (er_fns r) c1 st1)
                else
                  match er_display r, ext_internal (Some c1) with
                  | Some dpy_ptr, Some (_, pe1, ctx) =>
                      setup_display self (er_fns r) c1 pe1 ctx dpy_ptr arg o st1
                  | _, _ => None
                  end
            end
        end
  end.

(** *** Concrete answers *)

Definition fresh_connection : arcan_shmif_cont :=
  mk_con true (Some (mk_hidden None false (-1) (-1))) 640 480 4096 0.

Definition egl_answers (open_ok : bool) : egl_oracle :=
  mk_eglo [true; true; true; true] open_ok true 1 false (fun h => h).

Definition setup_answers (initialize : bool) (created : Z) : setup_oracle :=
  mk_setupo true (egl_answers true) (fun _ => 77) initialize (egl_creates created)
    (fun w h => mk_vstore w h 0 0 0 0) 31 32.

Definition plain_setup : EglDri.arcan_shmifext_setup :=
  mk_setup 1 1 1 1 16 API_OPENGL 2 1 0 0 0 0 0 0 0 0 0.

End EglMore.
(** * Properties

    ** Memory *)

Lemma in_range_true lo len p : in_range lo len p = true <-> lo <= p < lo + len.
Proof. unfold in_range. rewrite andb_true_iff, Z.leb_le, Z.ltb_lt. tauto. Qed.

Lemma in_range_false lo len p :
  in_range lo len p = false <-> p < lo \/ lo + len <= p.
Proof.
  unfold in_range. rewrite andb_false_iff, Z.leb_gt, Z.ltb_ge. tauto.
Qed.

Lemma length_read_bytes m ofs n : length (read_bytes m ofs n) = n.
Proof. unfold read_bytes. now rewrite length_map, length_seq. Qed.

Lemma byte_recompose v :
  0 <= v < 2 ^ 32 ->
  Z.lor (Z.land (Z.shiftr v 0) 255)
    (Z.lor (Z.shiftl (Z.land (Z.shiftr v 8) 255) 8)
       (Z.lor (Z.shiftl (Z.land (Z.shiftr v 16) 255) 16)
          (Z.shiftl (Z.land (Z.shiftr v 24) 255) 24))) = v.
Proof.
  intros Hv. apply Z.bits_inj'. intros n Hn.
  rewrite !Z.lor_spec.
  change 255 with (Z.ones 8).
  destruct (Z.ltb_spec n 8) as [H8|H8].
  - rewrite Z.land_spec, Z.shiftr_spec, Z.ones_spec_low by lia.
    rewrite !Z.shiftl_spec_low by lia.
    rewrite Z.add_0_r. now rewrite andb_true_r, !orb_false_r.
  - rewrite Z.land_spec, Z.ones_spec_high, andb_false_r by lia. cbn [orb].
    destruct (Z.ltb_spec n 16) as [H16|H16].
    + rewrite Z.shiftl_spec, Z.land_spec, Z.shiftr_spec, Z.ones_spec_low by lia.
      rewrite !Z.shiftl_spec_low by lia.
      rewrite andb_true_r, !orb_false_r. f_equal. lia.
    + rewrite (Z.shiftl_spec _ 8), Z.land_spec, Z.ones_spec_high by lia.
      rewrite andb_false_r. cbn [orb].
      destruct (Z.ltb_spec n 24) as [H24|H24].
      * rewrite Z.shiftl_spec, Z.land_spec, Z.shiftr_spec, Z.ones_spec_low by lia.
        rewrite Z.shiftl_spec_low by lia.
        rewrite andb_true_r, orb_false_r. f_equal. lia.
      * rewrite (Z.shiftl_spec _ 16), Z.land_spec, Z.ones_spec_high by lia.
        rewrite andb_false_r. cbn [orb].
        rewrite Z.shiftl_spec, Z.land_spec, Z.shiftr_spec by lia.
        destruct (Z.ltb_spec n 32) as [H32|H32].
        -- rewrite Z.ones_spec_low by lia. rewrite andb_true_r. f_equal. lia.
        -- rewrite Z.ones_spec_high, andb_false_r by lia.
           symmetry. apply Z.bits_above_log2; [lia|].
           destruct (Z.eq_dec v 0) as [->|Hnz]; [simpl; lia|].
           apply Z.lt_le_trans with 32; [|lia].
           apply Z.log2_lt_pow2; lia.
Qed.

Lemma load32_store32_same m a v :
  0 <= v < 2 ^ 32 -> load32 (store32 m a v) a = v.
Proof.
  intros Hv. unfold load32, store32.
  rewrite !(proj2 (in_range_true a 4 _)) by lia.
  replace (8 * (a - a)) with 0 by lia.
  replace (8 * (a + 1 - a)) with 8 by lia.
  replace (8 * (a + 2 - a)) with 16 by lia.
  replace (8 * (a + 3 - a)) with 24 by lia.
  now apply byte_recompose.
Qed.

Lemma load32_store32_other m a b v :
  b + 4 <= a \/ a + 4 <= b -> load32 (store32 m b v) a = load32 m a.
Proof.
  intros Hd. unfold load32, store32.
  now rewrite !(proj2 (in_range_false b 4 _)) by lia.
Qed.


(** ** The libretro producer *)

Module LibretroFacts.
Import Libretro.

(** *** XRGB1555 to the on-wire format *)

Lemma all_from_spec f n : forall from v,
  all_from f n from = true -> from <= v < from + Z.of_nat n -> f v = true.
Proof.
  induction n as [|n IH]; intros from v Hall Hv; [lia|].
  cbn [all_from] in Hall. apply andb_true_iff in Hall as [Hf Hall].
  destruct (Z.eq_dec v from) as [->|Hne]; [assumption|].
  apply (IH (from + 1)); [assumption|lia].
Qed.

Lemma all_from_below f bound from v :
  all_from f (Z.to_nat bound) from = true -> from <= v < from + bound -> f v = true.
Proof. intros Hall Hv. apply (all_from_spec f _ from v Hall). lia. Qed.

Lemma pixel_table : all_from pixel_ok (Z.to_nat 65536) 0 = true.
Proof. vm_compute. reflexivity. Qed.

Lemma pack_pixel_canonical v :
  0 <= v < 2 ^ 16 ->
  pack_pixel v = canonical_pixel v /\ alpha_byte (pack_pixel v) = 0xff.
Proof.
  intros Hv.
  assert (Hok : pixel_ok v = true).
  { apply (all_from_below pixel_ok 65536 0 v pixel_table). exact Hv. }
  unfold pixel_ok in Hok. rewrite andb_true_iff, !Z.eqb_eq in Hok.
  exact Hok.
Qed.

Lemma pack_pixel_range v : 0 <= pack_pixel v < 2 ^ 32.
Proof. unfold pack_pixel, to_uint32. apply Z.mod_pos_bound. lia. Qed.

Lemma to_uint16_range z : 0 <= to_uint16 z < 2 ^ 16.
Proof. unfold to_uint16. apply Z.mod_pos_bound. lia. Qed.

(** *** Executing stores *)

Lemma exec_stores_app p l1 l2 :
  exec_stores p (l1 ++ l2) = exec_stores (exec_stores p l1) l2.
Proof. unfold exec_stores. apply fold_left_app. Qed.

Lemma exec_stores_cons p s l :
  exec_stores p (s :: l) = exec_stores (exec_store p s) l.
Proof. reflexivity. Qed.

Lemma vid_row_header data n : forall x buf dbuf p,
  header (exec_stores p (vid_row data n x buf dbuf)) = header p.
Proof.
  induction n as [|n IH]; intros x buf dbuf p; [reflexivity|].
  cbn [vid_row]. rewrite exec_stores_cons, IH. reflexivity.
Qed.

Lemma vid_frame_header data width pitch m : forall buf dbuf p,
  header (exec_stores p (vid_frame data width pitch m buf dbuf)) = header p.
Proof.
  induction m as [|m IH]; intros buf dbuf p; [reflexivity|].
  cbn [vid_frame]. rewrite exec_stores_app, IH. apply vid_row_header.
Qed.

Lemma vid_row_untouched data n : forall x buf dbuf p a,
  a + 4 <= dbuf \/ dbuf + 4 * Z.of_nat n <= a ->
  load32 (page_mem (exec_stores p (vid_row data n x buf dbuf))) a
  = load32 (page_mem p) a.
Proof.
  induction n as [|n IH]; intros x buf dbuf p a Ha; [reflexivity|].
  cbn [vid_row]. rewrite exec_stores_cons, IH by lia.
  cbn [exec_store set_mem page_mem].
  apply load32_store32_other. lia.
Qed.

Lemma vid_row_written data n : forall x buf dbuf p k,
  (k < n)%nat ->
  load32 (page_mem (exec_stores p (vid_row data n x buf dbuf))) (dbuf + 4 * Z.of_nat k)
  = pack_pixel (to_uint16 (data (buf + x + Z.of_nat k))).
Proof.
  induction n as [|n IH]; intros x buf dbuf p k Hk; [lia|].
  cbn [vid_row]. rewrite exec_stores_cons.
  destruct k as [|k].
  - rewrite vid_row_untouched by lia.
    cbn [exec_store set_mem page_mem].
    replace (dbuf + 4 * Z.of_nat 0) with dbuf by lia.
    replace (buf + x + Z.of_nat 0) with (buf + x) by lia.
    apply load32_store32_same, pack_pixel_range.
  - replace (dbuf + 4 * Z.of_nat (S k)) with (dbuf + 4 + 4 * Z.of_nat k) by lia.
    rewrite IH by lia.
    apply (f_equal (fun z => pack_pixel (to_uint16 (data z)))). lia.
Qed.

Lemma vid_frame_untouched data width pitch m : forall buf dbuf p a,
  a + 4 <= dbuf \/ dbuf + 4 * (Z.of_nat (Z.to_nat width) * Z.of_nat m) <= a ->
  load32 (page_mem (exec_stores p (vid_frame data width pitch m buf dbuf))) a
  = load32 (page_mem p) a.
Proof.
  induction m as [|m IH]; intros buf dbuf p a Ha; [reflexivity|].
  cbn [vid_frame]. rewrite exec_stores_app, IH by nia.
  apply vid_row_untouched. nia.
Qed.

Lemma vid_frame_written data width pitch m : forall buf dbuf p x y,
  (y < m)%nat -> (x < Z.to_nat width)%nat ->
  load32 (page_mem (exec_stores p (vid_frame data width pitch m buf dbuf)))
    (dbuf + 4 * (Z.of_nat y * Z.of_nat (Z.to_nat width) + Z.of_nat x))
  = pack_pixel (to_uint16 (data (buf + Z.of_nat y * Z.shiftr pitch 1 + Z.of_nat x))).
Proof.
  induction m as [|m IH]; intros buf dbuf p x y Hy Hx; [lia|].
  cbn [vid_frame]. rewrite exec_stores_app.
  destruct y as [|y].
  - rewrite vid_frame_untouched by nia.
    replace (dbuf + 4 * (Z.of_nat 0 * Z.of_nat (Z.to_nat width) + Z.of_nat x))
      with (dbuf + 4 * Z.of_nat x) by lia.
    rewrite vid_row_written by lia.
    apply (f_equal (fun z => pack_pixel (to_uint16 (data z)))). lia.
  - replace (dbuf + 4 * (Z.of_nat (S y) * Z.of_nat (Z.to_nat width) + Z.of_nat x))
      with (dbuf + 4 * Z.of_nat (Z.to_nat width)
            + 4 * (Z.of_nat y * Z.of_nat (Z.to_nat width) + Z.of_nat x)) by lia.
    rewrite IH by lia.
    apply (f_equal (fun z => pack_pixel (to_uint16 (data z)))). lia.
Qed.

Lemma resize_stores_header p width height :
  vbufofs (exec_stores p (resize_stores p width height)) = vbufofs p
  /\ page_mem (exec_stores p (resize_stores p width height)) = page_mem p
  /\ vready (exec_stores p (resize_stores p width height)) = vready p
  /\ resized (exec_stores p (resize_stores p width height))
     = resized p || geometry_differs p width height.
Proof.
  unfold resize_stores. destruct (geometry_differs p width height); cbn.
  - now rewrite orb_true_r.
  - now rewrite orb_false_r.
Qed.

Lemma vidcb_pixel p data width height pitch x y :
  0 <= x < width -> 0 <= y < height ->
  load32 (page_mem (libretro_vidcb p data width height pitch)) (pixel_addr p width x y)
  = pack_pixel (to_uint16 (data (y * Z.shiftr pitch 1 + x))).
Proof.
  intros Hx Hy. unfold libretro_vidcb, vidcb_stores, pixel_addr.
  rewrite !exec_stores_app. cbn [exec_stores fold_left exec_store set_vready page_mem].
  replace (vbufofs p + 4 * (y * width + x))
    with (vbufofs p + 4 * (Z.of_nat (Z.to_nat y) * Z.of_nat (Z.to_nat width)
                           + Z.of_nat (Z.to_nat x))) by lia.
  change (fold_left exec_store ?l ?q) with (exec_stores q l).
  rewrite vid_frame_written by lia.
  rewrite !Z2Nat.id by lia.
  apply (f_equal (fun z => pack_pixel (to_uint16 (data z)))). lia.
Qed.

Lemma vidcb_flags p data width height pitch :
  vready (libretro_vidcb p data width height pitch) = true
  /\ resized (libretro_vidcb p data width height pitch)
     = resized p || geometry_differs p width height.
Proof.
  unfold libretro_vidcb, vidcb_stores.
  rewrite !exec_stores_app. cbn [exec_stores fold_left exec_store set_vready vready resized].
  split; [reflexivity|].
  change (fold_left exec_store ?l ?q) with (exec_stores q l).
  pose proof (vid_frame_header data width pitch (Z.to_nat height) 0 (vbufofs p)
                (exec_stores p (resize_stores p width height))) as Hh.
  unfold header in Hh. injection Hh as _ _ Hr _ _ _ _. rewrite Hr.
  apply resize_stores_header.
Qed.

(** C9: every pixel of the frame that [libretro_vidcb] leaves in the shared
    video buffer is the source value's three 5-bit channels, each shifted
    left by 3, red in the low byte and blue in the third, under an alpha
    byte of 0xff. *)
Theorem vidcb_pixel_conversion p data width height pitch x y v :
  0 <= x < width -> 0 <= y < height ->
  0 <= v < 2 ^ 16 ->
  data (y * Z.shiftr pitch 1 + x) = v ->
  let px := load32 (page_mem (libretro_vidcb p data width height pitch))
              (pixel_addr p width x y) in
  px = canonical_pixel v /\ alpha_byte px = 0xff.
Proof.
  intros Hx Hy Hv Hd px. subst px.
  rewrite vidcb_pixel by assumption. rewrite Hd.
  unfold to_uint16. rewrite Z.mod_small by assumption.
  now apply pack_pixel_canonical.
Qed.

(** C2, as the code has it: the callback does not wait for the
    acknowledgement. Whatever the state of [resized], it stores every pixel
    of the frame and raises the frame-ready flag, and it never clears
    [resized] itself. *)
Theorem vidcb_frame_despite_resize p data width height pitch :
  let p' := libretro_vidcb p data width height pitch in
  vready p' = true
  /\ resized p' = resized p || geometry_differs p width height
  /\ (forall x y, 0 <= x < width -> 0 <= y < height ->
        load32 (page_mem p') (pixel_addr p width x y)
        = pack_pixel (to_uint16 (data (y * Z.shiftr pitch 1 + x)))).
Proof.
  intros p'. subst p'.
  destruct (vidcb_flags p data width height pitch) as [Hv Hr].
  repeat split; try assumption.
  intros x y Hx Hy. now apply vidcb_pixel.
Qed.

Lemma vidcb_pixel_conversion_witness :
  let px := load32 (page_mem (libretro_vidcb page_640x480 frame_2x1 2 1 8))
              (pixel_addr page_640x480 2 1 0) in
  px = canonical_pixel 0x7c00 /\ alpha_byte px = 0xff.
Proof.
  apply (vidcb_pixel_conversion page_640x480 frame_2x1 2 1 8 1 0 0x7c00);
    [lia | lia | lia | reflexivity].
Defined.

(** *** The step relation *)

Lemma steps_trans c1 c2 c3 : steps c1 c2 -> steps c2 c3 -> steps c1 c3.
Proof.
  induction 1 as [c|c1 c2 c2' Hs _ IH]; intros H; [assumption|].
  eapply steps_cons; [exact Hs | now apply IH].
Qed.

(** The producer running a prefix of its stores with the consumer idle. *)
Lemma producer_run l1 : forall p l2,
  steps (p, l1 ++ l2) (exec_stores p l1, l2).
Proof.
  induction l1 as [|s l1 IH]; intros p l2; [apply steps_refl|].
  cbn [app]. eapply steps_cons; [apply step_producer|].
  rewrite exec_stores_cons. apply IH.
Qed.

(** C2, as the specification states it, fails: a callback that finds a new
    geometry sets [resized] and goes on to store the frame, with [resized]
    still set. *)
Lemma producer_does_not_wait_for_ack : ~ producer_waits_for_ack.
Proof.
  intros Hclaim.
  pose (L := vidcb_stores page_640x480 frame_2x1 2 1 8).
  assert (HL : L = [StW 2; StH 1; StResized]
                    ++ [StPixel 4096 4294506744; StPixel 4100 4278190328;
                        StVready; SemcheckV]) by (vm_compute; reflexivity).
  specialize (Hclaim page_640x480 frame_2x1 2 1 8
                (exec_stores page_640x480 [StW 2; StH 1; StResized],
                 [StPixel 4096 4294506744; StPixel 4100 4278190328;
                  StVready; SemcheckV])
                (StPixel 4096 4294506744)
                [StPixel 4100 4278190328; StVready; SemcheckV]).
  fold L in Hclaim. rewrite HL in Hclaim.
  specialize (Hclaim (producer_run _ _ _) eq_refl eq_refl).
  discriminate Hclaim.
Qed.

(** *** Order of the stores of a resize request *)

Lemma vid_row_frame_only data n : forall x buf dbuf,
  frame_only (vid_row data n x buf dbuf).
Proof.
  induction n as [|n IH]; intros x buf dbuf; constructor; [reflexivity|apply IH].
Qed.

Lemma vid_frame_frame_only data width pitch m : forall buf dbuf,
  frame_only (vid_frame data width pitch m buf dbuf).
Proof.
  induction m as [|m IH]; intros buf dbuf; [constructor|].
  cbn [vid_frame]. apply Forall_app. split; [apply vid_row_frame_only|apply IH].
Qed.

Lemma request_phase_step width height c c' :
  request_phase width height c -> step c c' -> request_phase width height c'.
Proof.
  intros Hp Hs.
  destruct Hs as [p s rest|p rest|p rest].
  - inversion Hp; subst.
    + now apply phase_w.
    + now apply phase_wh.
    + apply phase_committed; [now split|assumption].
    + match goal with H : frame_only (_ :: _) |- _ => inversion H; subst end.
      apply phase_committed; [|assumption].
      destruct s; try discriminate; cbn; assumption.
  - inversion Hp; subst.
    + now apply phase_start.
    + now apply phase_w.
    + now apply phase_wh.
    + apply phase_committed; [discriminate|assumption].
  - inversion Hp; subst.
    + now apply phase_start.
    + now apply phase_w.
    + now apply phase_wh.
    + now apply phase_committed.
Qed.

Lemma request_phase_steps width height c c' :
  steps c c' -> request_phase width height c -> request_phase width height c'.
Proof.
  induction 1 as [c|c1 c2 c3 Hs _ IH]; intros Hp; [assumption|].
  apply IH. eapply request_phase_step; eassumption.
Qed.

Lemma request_phase_initial p data width height pitch :
  resized p = false ->
  request_phase width height (p, vidcb_stores p data width height pitch).
Proof.
  intros Hr. unfold vidcb_stores, resize_stores.
  assert (Hf : frame_only
                 (vid_frame data width pitch (Z.to_nat height) 0 (vbufofs p)
                    ++ [StVready; SemcheckV])).
  { apply Forall_app. split; [apply vid_frame_frame_only|].
    repeat constructor. }
  destruct (geometry_differs p width height).
  - cbn [app]. now apply phase_start.
  - cbn [app]. apply phase_committed; [|assumption].
    rewrite Hr. discriminate.
Qed.

(** C3, as the code has it: a request that starts while no resize is
    outstanding stores the width, then the height, then the flag, so up to
    the end of that callback whoever finds [resized] set, under any
    interleaving with the consumer, reads the requested width and height. *)
Theorem resize_commit_order p data width height pitch c :
  resized p = false ->
  steps (p, vidcb_stores p data width height pitch) c ->
  resized (fst c) = true ->
  w (fst c) = width /\ h (fst c) = height.
Proof.
  intros Hr Hs Hc.
  pose proof (request_phase_steps width height _ _ Hs
                (request_phase_initial p data width height pitch Hr)) as Hp.
  inversion Hp; subst; cbn [fst] in Hc; try congruence.
  cbn [fst]. auto.
Qed.

Lemma resize_commit_order_witness :
  w (exec_stores page_640x480 [StW 2; StH 1; StResized]) = 2
  /\ h (exec_stores page_640x480 [StW 2; StH 1; StResized]) = 1.
Proof.
  apply (resize_commit_order page_640x480 frame_2x1 2 1 8
           (exec_stores page_640x480 [StW 2; StH 1; StResized],
            [StPixel 4096 4294506744; StPixel 4100 4278190328;
             StVready; SemcheckV])).
  - reflexivity.
  - change (vidcb_stores page_640x480 frame_2x1 2 1 8)
      with ([StW 2; StH 1; StResized]
              ++ [StPixel 4096 4294506744; StPixel 4100 4278190328;
                  StVready; SemcheckV]).
    apply producer_run.
  - reflexivity.
Defined.

(** C3, as the specification states it, fails: the main loop is entered with
    [resized] already set, and the first callback with another geometry
    stores the new width while the flag is up and the old height is still in
    place. *)
Lemma resize_torn_after_startup : ~ resize_never_torn.
Proof.
  intros Hclaim.
  apply (Hclaim (run_startup page_640x480) frame_2x1 2 1 8
           (exec_stores (run_startup page_640x480) [StW 2],
            [StH 1; StResized; StPixel 4096 4294506744; StPixel 4100 4278190328;
             StVready; SemcheckV])).
  - change (vidcb_stores (run_startup page_640x480) frame_2x1 2 1 8)
      with ([StW 2]
              ++ [StH 1; StResized; StPixel 4096 4294506744;
                  StPixel 4100 4278190328; StVready; SemcheckV]).
    apply producer_run.
  - repeat split; cbn; intros H; discriminate H.
Qed.


(** *** The audio ring *)

(** C1 at the input of the specification (capacity 8192, 8000 bytes in use,
    a batch of 400 bytes): the counter ends at the capacity, but no old byte
    is dropped. The 8000 old bytes stay where they were, the 192 bytes behind
    them are filled from beyond the end of the ring, and the batch is copied
    to offset 15792 of a ring of 8192 bytes. *)
Theorem audcb_overflow_at_8000_plus_400 :
  let old := audio_ring audio_page_8000 in
  let p' := fst (libretro_audcb AUDIOBUF_8192 audio_page_8000 batch_100 100 true) in
  abufused p' = 8192
  /\ audio_ring p' = old ++ repeat 0 192
  /\ audio_ring p' <> ring_after_drop old (batch_bytes batch_100 400) 208
  /\ read_bytes (page_mem p') (abufofs p' + 15792) 400 = batch_bytes batch_100 400.
Proof.
  cbv zeta. split; [|split; [|split]].
  - vm_compute. reflexivity.
  - vm_compute. reflexivity.
  - intros H.
    assert (Hn : nth 0 (audio_ring (fst (libretro_audcb AUDIOBUF_8192
                                           audio_page_8000 batch_100 100 true))) 0
                 <> nth 0 (ring_after_drop (audio_ring audio_page_8000)
                             (batch_bytes batch_100 400) 208) 0)
      by (vm_compute; discriminate).
    apply Hn. now rewrite H.
  - vm_compute. reflexivity.
Qed.

(** The same defect for every overflowing batch that fits the ring: the
    bytes in use before the call are all still in place after it. *)
Lemma audcb_overflow_keeps_oldest SIZE p data nframes i :
  0 <= abufofs p < 2 ^ 31 ->
  0 <= abufused p <= SIZE -> SIZE < 2 ^ 31 ->
  0 <= nframes -> 4 * nframes <= SIZE ->
  SIZE < abufused p + 4 * nframes ->
  0 <= i < abufused p ->
  let p' := fst (libretro_audcb SIZE p data nframes true) in
  abufused p' = SIZE
  /\ page_mem p' (abufofs p' + i) = page_mem p (abufofs p + i).
Proof.
  intros Ho Hu Hs Hn Hfit Hov Hi. cbv zeta.
  unfold libretro_audcb.
  assert (E1 : to_uint64 (nframes * 2 * 2) = 4 * nframes).
  { unfold to_uint64. rewrite Z.mod_small; lia. }
  assert (E2 : to_int64 (abufofs p + abufused p) = abufofs p + abufused p).
  { unfold to_int64, to_signed. rewrite Z.mod_small by lia.
    destruct (Z.ltb_spec (abufofs p + abufused p) (2 ^ (64 - 1))); lia. }
  rewrite E1, E2.
  assert (E3 : to_int64 (abufused p + 4 * nframes - SIZE)
               = abufused p + 4 * nframes - SIZE).
  { unfold to_int64, to_signed. rewrite Z.mod_small by lia.
    destruct (Z.ltb_spec (abufused p + 4 * nframes - SIZE) (2 ^ (64 - 1))); lia. }
  rewrite E3.
  destruct (Z.ltb_spec 0 (abufused p + 4 * nframes - SIZE)) as [_|]; [|lia].
  cbn [fst abufused set_abufused set_mem page_mem abufofs].
  assert (E4 : to_uint32 (abufused p - (abufused p + 4 * nframes - SIZE))
               = SIZE - 4 * nframes).
  { unfold to_uint32. rewrite Z.mod_small; lia. }
  rewrite E4. split.
  - unfold to_uint32. rewrite Z.mod_small; lia.
  - unfold memcpy, memmove.
    rewrite (proj2 (in_range_false _ _ _)) by lia.
    rewrite (proj2 (in_range_false _ _ _)) by lia.
    reflexivity.
Qed.

End LibretroFacts.

(** ** More facts about the libretro producer *)

Module LibretroMoreFacts.
Import Libretro LibretroFacts LibretroMore.

(** *** What a video callback leaves alone *)

Lemma store32_outside m b v a :
  a < b \/ b + 4 <= a -> store32 m b v a = m a.
Proof.
  intros Ha. unfold store32. now rewrite (proj2 (in_range_false b 4 a)) by lia.
Qed.

Lemma vid_row_outside data n : forall x buf dbuf p a,
  a < dbuf \/ dbuf + 4 * Z.of_nat n <= a ->
  page_mem (exec_stores p (vid_row data n x buf dbuf)) a = page_mem p a.
Proof.
  induction n as [|n IH]; intros x buf dbuf p a Ha; [reflexivity|].
  cbn [vid_row]. rewrite exec_stores_cons, IH by lia.
  cbn [exec_store set_mem page_mem]. apply store32_outside. lia.
Qed.

Lemma vid_frame_outside data width pitch m : forall buf dbuf p a,
  a < dbuf \/ dbuf + 4 * (Z.of_nat (Z.to_nat width) * Z.of_nat m) <= a ->
  page_mem (exec_stores p (vid_frame data width pitch m buf dbuf)) a = page_mem p a.
Proof.
  induction m as [|m IH]; intros buf dbuf p a Ha; [reflexivity|].
  cbn [vid_frame]. rewrite exec_stores_app, IH by nia.
  apply vid_row_outside. nia.
Qed.

(** X1: after a video callback the page carries the geometry of the frame just
    delivered; a frame of the geometry already on the page raises no resize;
    the offsets and the audio counter are as before; and no byte outside
    the [4 * width * height] bytes from [vbufofs] has changed. *)
Theorem vidcb_effects p data width height pitch :
  let p' := libretro_vidcb p data width height pitch in
  w p' = width /\ h p' = height
  /\ vbufofs p' = vbufofs p /\ abufofs p' = abufofs p /\ abufused p' = abufused p
  /\ (geometry_differs p width height = false -> resized p' = resized p)
  /\ forall a,
       a < vbufofs p \/ vbufofs p + 4 * (Z.max 0 width * Z.max 0 height) <= a ->
       page_mem p' a = page_mem p a.
Proof.
  cbv zeta. unfold libretro_vidcb, vidcb_stores.
  rewrite !exec_stores_app.
  set (p1 := exec_stores p (resize_stores p width height)).
  set (p2 := exec_stores p1 (vid_frame data width pitch (Z.to_nat height) 0 (vbufofs p))).
  assert (H1 : w p1 = width /\ h p1 = height /\ vbufofs p1 = vbufofs p
               /\ abufofs p1 = abufofs p /\ abufused p1 = abufused p
               /\ page_mem p1 = page_mem p
               /\ (geometry_differs p width height = false -> resized p1 = resized p)).
  { subst p1. unfold resize_stores, geometry_differs.
    destruct (Z.eqb_spec width (w p)) as [->|Hw], (Z.eqb_spec height (h p)) as [->|Hh];
      cbn; repeat split; auto; discriminate. }
  pose proof (vid_frame_header data width pitch (Z.to_nat height) 0 (vbufofs p) p1) as Hh.
  fold p2 in Hh. unfold header in Hh. injection Hh as Hw Hhh Hr _ Hv Hao Hau.
  destruct H1 as (E1 & E2 & E3 & E4 & E5 & E6 & E7).
  cbn [exec_stores fold_left exec_store set_vready w h vbufofs abufofs abufused resized page_mem].
  repeat split; try congruence.
  - intros Hg. rewrite Hr. now apply E7.
  - intros a Ha. subst p2. rewrite vid_frame_outside, E6; [reflexivity|].
    replace (Z.of_nat (Z.to_nat width)) with (Z.max 0 width) by lia.
    replace (Z.of_nat (Z.to_nat height)) with (Z.max 0 height) by lia.
    exact Ha.
Qed.

(** *** The conversion as a code *)

Lemma unpack_table :
  all_from (fun v => (unpack_pixel (pack_pixel v) =? Z.land v 0x7fff)
                     && (pack_pixel v =? pack_pixel (Z.land v 0x7fff)))
    (Z.to_nat 65536) 0 = true.
Proof. vm_compute. reflexivity. Qed.

(** X2: the conversion ignores bit 15 of the source value and loses nothing of
    the other fifteen: two source values give the same pixel exactly when
    they agree on their low 15 bits. *)
Theorem pack_pixel_injective_15 u v :
  0 <= u < 2 ^ 16 -> 0 <= v < 2 ^ 16 ->
  (pack_pixel u = pack_pixel v <-> Z.land u 0x7fff = Z.land v 0x7fff).
Proof.
  intros Hu Hv.
  pose proof (all_from_below _ 65536 0 u unpack_table Hu) as Tu.
  pose proof (all_from_below _ 65536 0 v unpack_table Hv) as Tv.
  cbv beta in Tu, Tv.
  apply andb_true_iff in Tu as [Tu1 Tu2]. apply andb_true_iff in Tv as [Tv1 Tv2].
  rewrite Z.eqb_eq in *.
  split; intros H.
  - rewrite <- Tu1, <- Tv1. now rewrite H.
  - rewrite Tu2, Tv2. now rewrite H.
Qed.

Lemma pack_pixel_injective_15_witness :
  pack_pixel 0x8001 = pack_pixel 0x0001 <-> Z.land 0x8001 0x7fff = Z.land 0x0001 0x7fff.
Proof.
  apply (pack_pixel_injective_15 0x8001 0x0001); lia.
Defined.

(** *** The audio callback when the batch fits *)

Lemma audcb_fit_spec SIZE p data nframes :
  0 <= abufofs p < 2 ^ 31 -> 0 <= abufused p -> 0 <= nframes ->
  abufused p + 4 * nframes <= SIZE -> SIZE < 2 ^ 31 ->
  let r := libretro_audcb SIZE p data nframes true in
  snd r = nframes
  /\ abufused (fst r) = abufused p + 4 * nframes
  /\ header (fst r) = header (set_abufused p (abufused p + 4 * nframes))
  /\ (forall i, 0 <= i < 4 * nframes ->
        page_mem (fst r) (abufofs p + 2 * abufused p + i) = to_uint8 (data i))
  /\ (forall a, a < abufofs p + 2 * abufused p
                \/ abufofs p + 2 * abufused p + 4 * nframes <= a ->
        page_mem (fst r) a = page_mem p a)
  /\ (abufused p = 0 ->
        audio_ring (fst r) = batch_bytes data (Z.to_nat (4 * nframes))).
Proof.
  intros Ho Hu Hn Hfit Hs. cbv zeta. unfold libretro_audcb.
  assert (E1 : to_uint64 (nframes * 2 * 2) = 4 * nframes).
  { unfold to_uint64. rewrite Z.mod_small; lia. }
  assert (E2 : to_int64 (abufofs p + abufused p) = abufofs p + abufused p).
  { unfold to_int64, to_signed. rewrite Z.mod_small by lia.
    destruct (Z.ltb_spec (abufofs p + abufused p) (2 ^ (64 - 1))); lia. }
  rewrite E1, E2.
  assert (E3 : to_int64 (abufused p + 4 * nframes - SIZE) <= 0).
  { unfold to_int64, to_signed.
    destruct (Z.ltb_spec ((abufused p + 4 * nframes - SIZE) mod 2 ^ 64) (2 ^ (64 - 1))) as [Hlt|Hge].
    - destruct (Z.eq_dec (abufused p + 4 * nframes) SIZE) as [->|Hne].
      + rewrite Z.sub_diag. reflexivity.
      + exfalso.
        replace (abufused p + 4 * nframes - SIZE)
          with ((abufused p + 4 * nframes - SIZE + 2 ^ 64) + (-1) * 2 ^ 64) in Hlt by lia.
        rewrite Z.mod_add, Z.mod_small in Hlt by lia. lia.
    - pose proof (Z.mod_pos_bound (abufused p + 4 * nframes - SIZE) (2 ^ 64) ltac:(lia)). lia. }
  destruct (Z.ltb_spec 0 (to_int64 (abufused p + 4 * nframes - SIZE))); [lia|].
  cbn [fst snd abufused set_abufused set_mem page_mem abufofs].
  assert (E4 : to_uint32 (abufused p + 4 * nframes) = abufused p + 4 * nframes).
  { unfold to_uint32. rewrite Z.mod_small; lia. }
  rewrite E4.
  split; [reflexivity|]. split; [reflexivity|]. split; [reflexivity|].
  split; [|split].
  - intros i Hi. unfold memcpy.
    rewrite (proj2 (in_range_true _ _ _)) by lia. f_equal. f_equal. lia.
  - intros a Ha. unfold memcpy. now rewrite (proj2 (in_range_false _ _ _)) by lia.
  - intros Hz. unfold audio_ring.
    cbn [page_mem abufofs abufused set_abufused set_mem]. rewrite Hz.
    replace (0 + 4 * nframes) with (4 * nframes) by lia.
    unfold read_bytes, batch_bytes. apply map_ext_in. intros i Hi.
    apply in_seq in Hi. unfold memcpy.
    rewrite (proj2 (in_range_true _ _ _)) by lia. f_equal. f_equal. lia.
Qed.

(** X3: a batch that fits the ring is copied to [abufofs + 2 * abufused], the
    fill level being added twice, and the counter grows by four bytes per
    frame; nothing else on the page changes and the frame count is returned.
    So the ring reads as the old ring followed by the batch when it was
    empty before the call. *)
Theorem audcb_fit_places_batch SIZE p data nframes :
  0 <= abufofs p < 2 ^ 31 -> 0 <= abufused p -> 0 <= nframes ->
  abufused p + 4 * nframes <= SIZE -> SIZE < 2 ^ 31 ->
  let r := libretro_audcb SIZE p data nframes true in
  snd r = nframes
  /\ abufused (fst r) = abufused p + 4 * nframes
  /\ header (fst r) = header (set_abufused p (abufused p + 4 * nframes))
  /\ (forall i, 0 <= i < 4 * nframes ->
        page_mem (fst r) (abufofs p + 2 * abufused p + i) = to_uint8 (data i))
  /\ (forall a, a < abufofs p + 2 * abufused p
                \/ abufofs p + 2 * abufused p + 4 * nframes <= a ->
        page_mem (fst r) a = page_mem p a)
  /\ (abufused p = 0 ->
        audio_ring (fst r) = batch_bytes data (Z.to_nat (4 * nframes))).
Proof. exact (audcb_fit_spec SIZE p data nframes). Qed.

Lemma audcb_fit_places_batch_witness :
  abufused (fst (libretro_audcb AUDIOBUF_8192 audio_page_8000 batch_100 10 true))
  = abufused audio_page_8000 + 4 * 10.
Proof.
  apply (audcb_fit_places_batch AUDIOBUF_8192 audio_page_8000 batch_100 10);
    cbn; unfold AUDIOBUF_8192; lia.
Defined.

(** *** The overflow branch in general *)

(** X4: when the batch overflows a ring that holds at least as many bytes as
    the batch, the batch is copied to where the ring ends or beyond: no byte
    of the ring below its old fill level changes, the bytes between the fill
    level and the end of the ring are taken from further up the page, and
    the batch itself lies at [abufofs + abufused + SIZE - 4 * nframes]. *)
Theorem audcb_overflow_writes_past_ring SIZE p data (nframes : Z) :
  0 <= abufofs p < 2 ^ 31 ->
  0 <= abufused p <= SIZE -> SIZE < 2 ^ 31 ->
  0 <= nframes -> 4 * nframes <= abufused p ->
  SIZE < abufused p + 4 * nframes ->
  let p' := fst (libretro_audcb SIZE p data nframes true) in
  let overflow := abufused p + 4 * nframes - SIZE in
  abufused p' = SIZE
  /\ (forall i, 0 <= i < abufused p ->
        page_mem p' (abufofs p + i) = page_mem p (abufofs p + i))
  /\ (forall i, abufused p <= i < SIZE ->
        page_mem p' (abufofs p + i)
        = if i <? abufused p + overflow
          then page_mem p (abufofs p + i + overflow)
          else page_mem p (abufofs p + i))
  /\ (forall i, 0 <= i < 4 * nframes ->
        page_mem p' (abufofs p + abufused p + (SIZE - 4 * nframes) + i)
        = to_uint8 (data i))
  /\ abufofs p + SIZE <= abufofs p + abufused p + (SIZE - 4 * nframes).
Proof.
  intros Ho Hu Hs Hn Hfit Hov. cbv zeta.
  unfold libretro_audcb.
  assert (E1 : to_uint64 (nframes * 2 * 2) = 4 * nframes).
  { unfold to_uint64. rewrite Z.mod_small; lia. }
  assert (E2 : to_int64 (abufofs p + abufused p) = abufofs p + abufused p).
  { unfold to_int64, to_signed. rewrite Z.mod_small by lia.
    destruct (Z.ltb_spec (abufofs p + abufused p) (2 ^ (64 - 1))); lia. }
  rewrite E1, E2.
  assert (E3 : to_int64 (abufused p + 4 * nframes - SIZE)
               = abufused p + 4 * nframes - SIZE).
  { unfold to_int64, to_signed. rewrite Z.mod_small by lia.
    destruct (Z.ltb_spec (abufused p + 4 * nframes - SIZE) (2 ^ (64 - 1))); lia. }
  rewrite E3.
  destruct (Z.ltb_spec 0 (abufused p + 4 * nframes - SIZE)) as [_|]; [|lia].
  cbn [fst abufused set_abufused set_mem page_mem abufofs].
  assert (E4 : to_uint32 (abufused p - (abufused p + 4 * nframes - SIZE))
               = SIZE - 4 * nframes).
  { unfold to_uint32. rewrite Z.mod_small; lia. }
  rewrite E4.
  split; [unfold to_uint32; rewrite Z.mod_small; lia|].
  split; [|split; [|split; [|lia]]].
  - intros i Hi. unfold memcpy, memmove.
    rewrite (proj2 (in_range_false _ _ _)) by lia.
    now rewrite (proj2 (in_range_false _ _ _)) by lia.
  - intros i Hi. unfold memcpy, memmove.
    rewrite (proj2 (in_range_false _ _ _)) by lia.
    destruct (Z.ltb_spec i (abufused p + (abufused p + 4 * nframes - SIZE))).
    + rewrite (proj2 (in_range_true _ _ _)) by lia. f_equal. lia.
    + now rewrite (proj2 (in_range_false _ _ _)) by lia.
  - intros i Hi. unfold memcpy.
    rewrite (proj2 (in_range_true _ _ _)) by lia. f_equal. f_equal. lia.
Qed.

Lemma audcb_overflow_writes_past_ring_witness :
  abufused (fst (libretro_audcb AUDIOBUF_8192 audio_page_8000 batch_100 100 true))
  = AUDIOBUF_8192.
Proof.
  apply (audcb_overflow_writes_past_ring AUDIOBUF_8192 audio_page_8000 batch_100 100);
    cbn; unfold AUDIOBUF_8192; lia.
Defined.


(** *** Single samples *)

Lemma audbuf_store_some l i v l' :
  audbuf_store l i v = Some l' ->
  0 <= i < AUDBUF_SAMPLES /\ i < Z.of_nat (length l)
  /\ l' = <[Z.to_nat i := v]> l.
Proof.
  unfold audbuf_store.
  destruct (Z.leb_spec 0 i), (Z.ltb_spec i AUDBUF_SAMPLES),
    (Z.ltb_spec i (Z.of_nat (length l))); cbn; try discriminate.
  intros [= <-]. auto.
Qed.

Lemma audscb_some a l r a' :
  length (audbuf a) = 4196%nat -> 0 <= audbuf_used a ->
  libretro_audscb a l r = Some a' ->
  audbuf_used a + 1 < 4196
  /\ audbuf_used a' = audbuf_used a + 2
  /\ audbuf a' = <[Z.to_nat (audbuf_used a + 1) := to_signed 16 r]>
                   (<[Z.to_nat (audbuf_used a) := to_signed 16 l]> (audbuf a)).
Proof.
  intros Hlen Hu. unfold libretro_audscb.
  destruct (audbuf_store (audbuf a) _ _) as [l1|] eqn:H1; [|discriminate].
  destruct (audbuf_store l1 _ _) as [l2|] eqn:H2; [|discriminate].
  intros [= <-]. cbn [audbuf audbuf_used].
  apply audbuf_store_some in H1 as (B1 & _ & ->).
  apply audbuf_store_some in H2 as (B2 & _ & ->).
  unfold AUDBUF_SAMPLES in *.
  assert (E : to_uint64 (audbuf_used a + 1) = audbuf_used a + 1)
    by (unfold to_uint64; rewrite Z.mod_small; lia).
  rewrite E in *.
  split; [lia|]. split; [|reflexivity].
  unfold to_uint64. rewrite Z.mod_small; lia.
Qed.

Lemma audscb_in_bounds a l r :
  length (audbuf a) = 4196%nat -> 0 <= audbuf_used a -> audbuf_used a + 1 < 4196 ->
  libretro_audscb a l r <> None.
Proof.
  intros Hlen Hu Hb. unfold libretro_audscb, audbuf_store, AUDBUF_SAMPLES.
  assert (E : to_uint64 (audbuf_used a + 1) = audbuf_used a + 1)
    by (unfold to_uint64; rewrite Z.mod_small; lia).
  rewrite E, Hlen.
  destruct (Z.leb_spec 0 (audbuf_used a)); [|lia].
  destruct (Z.ltb_spec (audbuf_used a) 4196); [|lia].
  destruct (Z.ltb_spec (audbuf_used a) (Z.of_nat 4196)); [|lia].
  cbn [andb]. rewrite length_insert, Hlen.
  destruct (Z.leb_spec 0 (audbuf_used a + 1)); [|lia].
  destruct (Z.ltb_spec (audbuf_used a + 1) 4196); [|lia].
  destruct (Z.ltb_spec (audbuf_used a + 1) (Z.of_nat 4196)); [|lia].
  discriminate.
Qed.

Lemma firstn_snoc_insert {A} (l : list A) n x :
  (n < length l)%nat -> firstn (S n) (<[n := x]> l) = firstn n l ++ [x].
Proof.
  revert n. induction l as [|y l IH]; intros [|n] H; cbn in *; try lia; try reflexivity.
  f_equal. apply IH. lia.
Qed.

Lemma audscb_all_spec samples : forall a a' k,
  length (audbuf a) = 4196%nat -> audbuf_used a = 2 * Z.of_nat k -> (k <= 2098)%nat ->
  audscb_all a samples = Some a' ->
  length (audbuf a') = 4196%nat
  /\ audbuf_used a' = 2 * Z.of_nat (k + length samples)
  /\ (k + length samples <= 2098)%nat
  /\ firstn (2 * (k + length samples)) (audbuf a')
     = firstn (2 * k) (audbuf a) ++ interleave samples.
Proof.
  induction samples as [|[l r] rest IH]; intros a a' k Hlen Hu Hk Hrun.
  - injection Hrun as <-. rewrite Nat.add_0_r. cbn [interleave flat_map length].
    rewrite app_nil_r. auto.
  - cbn [audscb_all] in Hrun.
    destruct (libretro_audscb a l r) as [a1|] eqn:H1; [|discriminate].
    apply audscb_some in H1 as (Hb & Hu1 & Hl1); [|assumption|lia].
    assert (Hlen1 : length (audbuf a1) = 4196%nat)
      by (rewrite Hl1, !length_insert; assumption).
    destruct (IH a1 a' (S k) Hlen1) as (L & U & B & F); [lia|lia|assumption|].
    cbn [length]. replace (k + S (length rest))%nat with (S k + length rest)%nat by lia.
    split; [assumption|]. split; [assumption|]. split; [assumption|].
    rewrite F, Hl1.
    replace (Z.to_nat (audbuf_used a + 1)) with (S (2 * k)) by lia.
    replace (Z.to_nat (audbuf_used a)) with (2 * k)%nat by lia.
    replace (2 * S k)%nat with (S (S (2 * k))) by lia.
    rewrite firstn_snoc_insert by (rewrite length_insert; lia).
    rewrite firstn_snoc_insert by lia.
    cbn [interleave flat_map fst snd]. rewrite <- !app_assoc. reflexivity.
Qed.

Lemma audscb_all_total samples : forall a k,
  length (audbuf a) = 4196%nat -> audbuf_used a = 2 * Z.of_nat k ->
  (k + length samples <= 2098)%nat ->
  audscb_all a samples <> None.
Proof.
  induction samples as [|[l r] rest IH]; intros a k Hlen Hu Hk; cbn [audscb_all].
  - discriminate.
  - cbn [length] in Hk.
    destruct (libretro_audscb a l r) as [a1|] eqn:H1.
    + pose proof H1 as H1'.
      apply audscb_some in H1' as (Hb & Hu1 & Hl1); [|assumption|lia].
      apply (IH a1 (S k)); [rewrite Hl1, !length_insert; assumption|lia|lia].
    + exfalso. revert H1. apply audscb_in_bounds; [assumption|lia|lia].
Qed.

(** X5: a run of [libretro_audscb] calls on an empty sample buffer is
    defined exactly when it holds at most 2098 sample pairs; it then
    leaves the pairs interleaved, in order, at the start of [audbuf] and
    counts two samples for each. *)
Theorem audscb_run_fills_in_order a samples :
  length (audbuf a) = 4196%nat -> audbuf_used a = 0 ->
  ((length samples <= 2098)%nat <-> audscb_all a samples <> None)
  /\ forall a', audscb_all a samples = Some a' ->
       audbuf_used a' = 2 * Z.of_nat (length samples)
       /\ firstn (2 * length samples) (audbuf a') = interleave samples
       /\ length (audbuf a') = 4196%nat.
Proof.
  intros Hlen Hu. split.
  - split.
    + intros H. apply (audscb_all_total samples a 0%nat); [assumption|lia|lia].
    + intros H. destruct (audscb_all a samples) as [a'|] eqn:E; [|congruence].
      apply (audscb_all_spec samples a a' 0%nat) in E as (_ & _ & B & _); [lia|assumption|lia|lia].
  - intros a' E.
    apply (audscb_all_spec samples a a' 0%nat) in E as (L & U & _ & F); [|assumption|lia|lia].
    cbn [Nat.add] in *. rewrite firstn_O in F. cbn [app] in F. auto.
Qed.

Lemma audscb_run_fills_in_order_witness :
  (length [(1, 2); (3, 4)] <= 2098)%nat
  <-> audscb_all empty_samples [(1, 2); (3, 4)] <> None.
Proof.
  exact (proj1 (audscb_run_fills_in_order empty_samples [(1, 2); (3, 4)] eq_refl eq_refl)).
Defined.

Lemma to_uint8_land x : to_uint8 (Z.land x 0xff) = Z.land x 0xff.
Proof.
  unfold to_uint8. change 0xff with (Z.ones 8). rewrite Z.land_ones by lia.
  change (2 ^ 8) with 256. rewrite Z.mod_mod by lia. reflexivity.
Qed.

Lemma audbuf_bytes_shift x l i :
  0 <= i -> audbuf_bytes (x :: l) (2 + i) = audbuf_bytes l i.
Proof.
  intros Hi. unfold audbuf_bytes.
  replace ((2 + i) / 2) with (1 + i / 2) by (rewrite <- (Z.div_add_l 1 2 i) by lia; f_equal; lia).
  replace ((2 + i) mod 2) with (i mod 2)
    by (rewrite <- (Z.mod_add i 1 2) by lia; f_equal; lia).
  assert (0 <= i / 2) by (apply Z.div_pos; lia).
  replace (Z.to_nat (1 + i / 2)) with (S (Z.to_nat (i / 2))) by lia.
  reflexivity.
Qed.

Lemma batch_le16 m : forall l,
  (m <= length l)%nat ->
  batch_bytes (audbuf_bytes l) (2 * m) = le16_bytes (firstn m l).
Proof.
  induction m as [|m IH]; intros l Hm.
  - reflexivity.
  - destruct l as [|x l]; [cbn in Hm; lia|].
    cbn [firstn le16_bytes flat_map app].
    change (flat_map _ (firstn m l)) with (le16_bytes (firstn m l)).
    rewrite <- IH by (cbn in Hm; lia).
    unfold batch_bytes.
    replace (2 * S m)%nat with (S (S (2 * m))) by lia.
    cbn [seq map]. rewrite <- !seq_shift, !map_map.
    f_equal; [|f_equal].
    + unfold audbuf_bytes. cbn. apply to_uint8_land.
    + unfold audbuf_bytes. cbn. apply to_uint8_land.
    + apply map_ext. intros i.
      replace (Z.of_nat (S (S i))) with (2 + Z.of_nat i) by lia.
      rewrite audbuf_bytes_shift by lia. reflexivity.
Qed.

(** X6: the flush at the end of the main loop hands the gathered samples to
    [libretro_audcb] as [audbuf_used / 2] frames and resets the count; on
    an empty ring with room for them, the ring then holds exactly those
    samples, two little-endian bytes each, and the sample array is left as
    it was. *)
Theorem flush_hands_over_samples SIZE p a (m : nat) :
  0 <= abufofs p < 2 ^ 31 -> abufused p = 0 -> SIZE < 2 ^ 31 ->
  audbuf_used a = 2 * Z.of_nat m -> (0 < m)%nat -> (2 * m <= length (audbuf a))%nat ->
  4 * Z.of_nat m <= SIZE ->
  let r := run_flush_audio SIZE p a true in
  audbuf_used (snd r) = 0
  /\ audbuf (snd r) = audbuf a
  /\ abufused (fst r) = 4 * Z.of_nat m
  /\ audio_ring (fst r) = le16_bytes (firstn (2 * m) (audbuf a)).
Proof.
  intros Ho Hu Hs Hused Hm Hlen Hfit. cbv zeta. unfold run_flush_audio.
  destruct (Z.eqb_spec (audbuf_used a) 0) as [E|_]; [lia|].
  cbn [fst snd audbuf audbuf_used].
  replace (audbuf_used a / 2) with (Z.of_nat m)
    by (rewrite Hused, Z.mul_comm, Z.div_mul; lia).
  destruct (audcb_fit_spec SIZE p (audbuf_bytes (audbuf a)) (Z.of_nat m))
    as (_ & U & _ & _ & _ & R); try lia.
  split; [reflexivity|]. split; [reflexivity|]. split; [lia|].
  rewrite (R Hu).
  replace (Z.to_nat (4 * Z.of_nat m)) with (2 * (2 * m))%nat by lia.
  apply batch_le16. assumption.
Qed.

Lemma flush_hands_over_samples_witness :
  abufused (fst (run_flush_audio AUDIOBUF_8192
                   (set_abufused audio_page_8000 0)
                   (mk_samples (repeat 7 4196) 4) true)) = 4 * Z.of_nat 2.
Proof.
  apply (flush_hands_over_samples AUDIOBUF_8192 (set_abufused audio_page_8000 0)
           (mk_samples (repeat 7 4196) 4) 2);
    cbn; unfold AUDIOBUF_8192; lia.
Defined.

End LibretroMoreFacts.

Module LibretroInputFacts.
Import Libretro LibretroInput.

Lemma in_table_spec r c :
  in_table r c = true <-> 0 <= r < 4 /\ 0 <= c < 12.
Proof.
  unfold in_table, MAX_PORTS, MAX_BUTTONS.
  rewrite !andb_true_iff, !Z.leb_le, !Z.ltb_lt. lia.
Qed.

Lemma table_row j r :
  table_shape j -> 0 <= r < 4 ->
  exists row, j !! Z.to_nat r = Some row /\ length row = 12%nat.
Proof.
  intros [Hl Hr] Hb.
  destruct (j !! Z.to_nat r) as [row|] eqn:E.
  - exists row. split; [reflexivity|].
    rewrite Forall_lookup in Hr. exact (Hr _ _ E).
  - apply lookup_ge_None in E. lia.
Qed.

Lemma joypad_set_defined j r c v :
  table_shape j -> in_table r c = true ->
  joypad_set j r c v <> None.
Proof.
  intros Hs Hb. unfold joypad_set. rewrite Hb.
  apply in_table_spec in Hb as [Hr Hc].
  destruct (table_row j r Hs Hr) as (row & -> & Hlen).
  destruct (Nat.ltb_spec (Z.to_nat c) (length row)); [discriminate|lia].
Qed.

Lemma joypad_set_some j r c v j' :
  joypad_set j r c v = Some j' ->
  (0 <= r < 4 /\ 0 <= c < 12)
  /\ joypad_get j' r c = Some v
  /\ (forall r' c', r' <> r \/ c' <> c -> joypad_get j' r' c' = joypad_get j r' c')
  /\ (forall k, k <> Z.to_nat r -> j' !! k = j !! k)
  /\ (table_shape j -> table_shape j').
Proof.
  unfold joypad_set. destruct (in_table r c) eqn:Hb; [|discriminate].
  destruct (j !! Z.to_nat r) as [row|] eqn:Hrow; [|discriminate].
  destruct (Nat.ltb_spec (Z.to_nat c) (length row)) as [Hc|]; [|discriminate].
  intros [= <-].
  pose proof (proj1 (in_table_spec r c) Hb) as [Hr Hcb].
  pose proof (lookup_lt_Some _ _ _ Hrow) as Hlt.
  split; [auto|]. split; [|split; [|split]].
  - unfold joypad_get. rewrite Hb, list_lookup_insert_eq by assumption.
    apply list_lookup_insert_eq. assumption.
  - intros r' c' Hne. unfold joypad_get.
    destruct (in_table r' c') eqn:Hb'; [|reflexivity].
    apply in_table_spec in Hb' as [Hr' Hc'].
    destruct (Z.eq_dec r' r) as [->|Hrr].
    + rewrite list_lookup_insert_eq, Hrow by assumption.
      apply list_lookup_insert_ne. lia.
    + rewrite list_lookup_insert_ne by lia. reflexivity.
  - intros k Hk. apply list_lookup_insert_ne. auto.
  - intros [Hl Hf]. split; [rewrite length_insert; assumption|].
    apply Forall_insert; [assumption|].
    rewrite length_insert. rewrite Forall_lookup in Hf. exact (Hf _ _ Hrow).
Qed.

(** **** Parsing the labels *)

Lemma digit_cases d : 0 <= d <= 9 ->
  d = 0 \/ d = 1 \/ d = 2 \/ d = 3 \/ d = 4 \/ d = 5 \/ d = 6 \/ d = 7 \/ d = 8 \/ d = 9.
Proof. lia. Qed.

Ltac each_digit H :=
  apply digit_cases in H;
  repeat (destruct H as [H | H]); subst.

Lemma scan_button_label n b :
  0 <= n <= 9 -> 0 <= b <= 9 ->
  sscanf_d "PLAYER" (button_label n b) = Converted n
  /\ strchr (button_label n b) "_" = Some ("_BUTTON" +:+ String (digit_char b) "")
  /\ sscanf_d "BUTTON" ("BUTTON" +:+ String (digit_char b) "") = Converted b.
Proof.
  intros Hn Hb. each_digit Hn; each_digit Hb; vm_compute; auto.
Qed.

Lemma strip_prefix_app pre : forall s rest,
  strip_prefix pre s = Some rest -> s = pre +:+ rest.
Proof.
  induction pre as [|a pre IH]; intros s rest H; cbn in *.
  - injection H as <-. reflexivity.
  - destruct s as [|b s]; [discriminate|].
    destruct (Ascii.eqb_spec a b) as [->|]; [|discriminate].
    change (String b pre +:+ rest) with (String b (pre +:+ rest)).
    f_equal. apply IH. assumption.
Qed.

Lemma strip_prefix_same pre s : strip_prefix pre (pre +:+ s) = Some s.
Proof.
  induction pre as [|a pre IH].
  - reflexivity.
  - change (String a pre +:+ s) with (String a (pre +:+ s)).
    cbn [strip_prefix]. rewrite Ascii.eqb_refl. exact IH.
Qed.

Lemma scan_digits_stop rest acc :
  starts_with_digit rest = false -> scan_digits rest acc = acc.
Proof.
  destruct rest as [|c r]; [reflexivity|]. cbn.
  destruct (digit_of c); [discriminate|reflexivity].
Qed.

Lemma scan_int_one_digit n rest :
  0 <= n <= 9 -> starts_with_digit rest = false ->
  scan_int (String (digit_char n) rest) = Some n.
Proof.
  intros Hn Hrest.
  assert (E : scan_int (String (digit_char n) rest) = Some (scan_digits rest n)).
  { each_digit Hn; reflexivity. }
  rewrite E, scan_digits_stop by assumption. reflexivity.
Qed.

Lemma strchr_app junk c s :
  strchr junk c = None -> strchr (junk +:+ s) c = strchr s c.
Proof.
  induction junk as [|a junk IH]; [reflexivity|].
  change (String a junk +:+ s) with (String a (junk +:+ s)).
  cbn [strchr]. destruct (Ascii.eqb a c); [discriminate|exact IH].
Qed.

Lemma starts_with_digit_app junk sub :
  starts_with_digit junk = false ->
  starts_with_digit (junk +:+ String "_" sub) = false.
Proof.
  destruct junk as [|a junk]; [reflexivity|intros H; exact H].
Qed.

Lemma scan_player_label n junk sub :
  0 <= n <= 9 -> strchr junk "_" = None -> starts_with_digit junk = false ->
  sscanf_d "PLAYER" (player_label n junk sub) = Converted n
  /\ strchr (player_label n junk sub) "_" = Some (String "_" sub).
Proof.
  intros Hn Hj Hd. split.
  - unfold sscanf_d, player_label. rewrite strip_prefix_same.
    rewrite scan_int_one_digit by (auto using starts_with_digit_app).
    destruct (Z.leb_spec (- 2 ^ 31) n), (Z.ltb_spec n (2 ^ 31)); try lia. reflexivity.
  - unfold player_label.
    assert (E : forall rest, strchr ("PLAYER" +:+ String (digit_char n) rest) "_"
                             = strchr rest "_").
    { intros rest. each_digit Hn; reflexivity. }
    rewrite E, strchr_app by assumption. cbn [strchr]. reflexivity.
Qed.

Section InputFacts.

Variable ids : retro_ids.

Lemma named_button_numbered subtype rest button :
  strip_prefix "BUTTON" subtype = Some rest ->
  named_button ids subtype button = button.
Proof.
  intros H. apply strip_prefix_app in H. subst subtype. reflexivity.
Qed.

Lemma sscanf_d_prefix lit s x :
  sscanf_d lit s = Converted x ->
  exists rest, strip_prefix lit s = Some rest /\ - 2 ^ 31 <= x < 2 ^ 31.
Proof.
  unfold sscanf_d. destruct (strip_prefix lit s) as [rest|]; [|discriminate].
  destruct (scan_int rest) as [y|]; [|discriminate].
  destruct (Z.leb_spec (- 2 ^ 31) y), (Z.ltb_spec y (2 ^ 31)); cbn; try discriminate.
  intros [= <-]. eauto.
Qed.

Lemma remaptbl_lookup b :
  ids_in_table ids -> 1 <= b <= 6 ->
  exists id, remaptbl ids !! Z.to_nat (b - 1) = Some id /\ 0 <= id < 12.
Proof.
  intros Hids Hb.
  destruct (remaptbl ids !! Z.to_nat (b - 1)) as [id|] eqn:E.
  - exists id. split; [reflexivity|].
    unfold ids_in_table in Hids. rewrite Forall_lookup in Hids.
    exact (Hids _ _ E).
  - apply lookup_ge_None in E. cbn in E. lia.
Qed.

Lemma button_of_remapped b :
  1 <= b <= 6 ->
  button_of ids ("BUTTON" +:+ String (digit_char b) "")
  = remaptbl ids !! Z.to_nat (b - 1).
Proof.
  intros Hb. unfold button_of.
  rewrite (proj2 (proj2 (scan_button_label 1 b ltac:(lia) ltac:(lia)))).
  unfold MAX_BUTTONS.
  destruct (Z.ltb_spec 0 b); [|lia]. destruct (Z.leb_spec b (12 - 6)); [|lia].
  cbn [andb].
  assert (E : to_int32 (b - 1) = b - 1).
  { assert (C : b = 1 \/ b = 2 \/ b = 3 \/ b = 4 \/ b = 5 \/ b = 6) by lia.
    repeat (destruct C as [C | C]); subst; reflexivity. }
  rewrite E.
  assert (E' : to_uint64 (b - 1) = b - 1)
    by (unfold to_uint64; rewrite Z.mod_small; lia).
  rewrite E'. destruct (Z.ltb_spec (6 - 1) (b - 1)); [lia|]. reflexivity.
Qed.

(** X7: an event labelled [PLAYER<n>_BUTTON<b>], for a player 1 to 3 and a
    button 1 to 6, sets the flag of row [n - 1] at the identifier the remap
    table gives for [b]; [libretro_inputstate] then reports 1 for an active
    and 0 for an inactive event when asked for index [n - 1] of the joypad
    device, whatever the port it is asked for, and no other flag of the
    table changes. *)
Theorem button_event_reaches_inputstate j ev n b port :
  table_shape j -> ids_in_table ids ->
  1 <= n <= 3 -> 1 <= b <= 6 ->
  label ev = button_label n b ->
  exists j' id,
    ioev_ctxtbl ids j ev = Some j'
    /\ remaptbl ids !! Z.to_nat (b - 1) = Some id
    /\ libretro_inputstate ids j' port (RETRO_DEVICE_JOYPAD ids) (n - 1) id
       = Some (if event_value ev =? 0 then 0 else 1)
    /\ forall r c, r <> n - 1 \/ c <> id -> joypad_get j' r c = joypad_get j r c.
Proof.
  intros Hs Hids Hn Hb Hl.
  destruct (remaptbl_lookup b Hids Hb) as (id & Hid & Hrange).
  destruct (scan_button_label n b ltac:(lia) ltac:(lia)) as (P1 & P2 & _).
  destruct (joypad_set j (n - 1) id (negb (event_value ev =? 0))) as [j'|] eqn:Hset.
  2:{ exfalso. revert Hset. apply joypad_set_defined; [assumption|].
      apply in_table_spec. lia. }
  exists j', id.
  assert (Hrun : ioev_ctxtbl ids j ev = Some j').
  { unfold ioev_ctxtbl. rewrite Hl, P1. unfold MAX_PORTS.
    destruct (Z.ltb_spec 0 n); [|lia]. destruct (Z.ltb_spec n 4); [|lia].
    cbn [andb]. rewrite P2.
    change (next_char ("_BUTTON" +:+ String (digit_char b) ""))
      with ("BUTTON" +:+ String (digit_char b) "").
    rewrite button_of_remapped, Hid by assumption.
    destruct (Z.leb_spec 0 id); [|lia]. exact Hset. }
  apply joypad_set_some in Hset as (_ & Hget & Hother & _).
  split; [assumption|]. split; [assumption|]. split.
  - unfold libretro_inputstate, MAX_PORTS, MAX_BUTTONS.
    destruct (Z.ltb_spec (n - 1) 4); [|lia]. destruct (Z.ltb_spec id 12); [|lia].
    cbn [andb]. rewrite Z.eqb_refl, Hget.
    destruct (event_value ev =? 0); reflexivity.
  - exact Hother.
Qed.

(** What one event can do to the table. *)
Lemma ioev_ctxtbl_cases j ev j' :
  ioev_ctxtbl ids j ev = Some j' ->
  j' = j
  \/ exists ind button,
       0 < ind < 4
       /\ joypad_set j (ind - 1) button (negb (event_value ev =? 0)) = Some j'.
Proof.
  unfold ioev_ctxtbl.
  destruct (sscanf_d "PLAYER" (label ev)) as [|ind|]; [intros [= <-]; auto| |discriminate].
  unfold MAX_PORTS.
  destruct (Z.ltb_spec 0 ind); [|intros [= <-]; auto].
  destruct (Z.ltb_spec ind 4); [|intros [= <-]; auto].
  cbn [andb].
  destruct (strchr (label ev) "_") as [subtype|]; [|intros [= <-]; auto].
  destruct (button_of ids (next_char subtype)) as [button|]; [|discriminate].
  destruct (0 <=? button); [|intros [= <-]; auto].
  intros Hset. right. exists ind, button. split; [lia|assumption].
Qed.

Lemma named_button_range subtype b :
  names_in_table ids ->
  named_button ids subtype b = b \/ 0 <= named_button ids subtype b < 12.
Proof.
  unfold names_in_table, MAX_BUTTONS. rewrite !Forall_cons.
  intros (Hu & Hd & Hl & Hr & Hs & Ht & _). unfold named_button.
  repeat match goal with |- context [String.eqb ?a ?b] => destruct (String.eqb a b) end;
    auto.
Qed.

(** A write within a row of one of the first three players. *)
Lemma joypad_set_in_row j ind button v :
  table_shape j -> 0 < ind < 4 -> 0 <= button < 12 ->
  exists j',
    joypad_set j (ind - 1) button v = Some j'
    /\ j' !! 3%nat = j !! 3%nat
    /\ (forall c, joypad_get j' 3 c = joypad_get j 3 c)
    /\ table_shape j'.
Proof.
  intros Hs Hind Hb.
  destruct (joypad_set j (ind - 1) button v) as [j'|] eqn:Hset.
  - exists j'. split; [reflexivity|].
    apply joypad_set_some in Hset as (_ & _ & Hother & Hrows & Hshape).
    split; [apply Hrows; lia|]. split; [intros c; apply Hother; lia|auto].
  - exfalso. revert Hset. apply joypad_set_defined; [assumption|].
    apply in_table_spec. lia.
Qed.

(** X8: on a table of [MAX_PORTS] rows of [MAX_BUTTONS] flags, with the
    identifiers of [libretro.h] all below [MAX_BUTTONS], one call of
    [ioev_ctxtbl] ends in one of two ways. Either it is defined, and then
    the fourth row of the table, the one of port 3, is as it was and the
    table has kept its shape. Or the label names a player 1 to 3 and a
    button number of 12 or more, or holds a number too large for [int]:
    the column is then outside the row of 12 flags and the write has no
    defined result (in the array as it lies in memory, the buttons 12 to
    23 of player 3 are the flags of the fourth row). Every such label
    ends the second way. *)
Theorem ioev_fourth_row_or_out_of_row j ev :
  table_shape j -> ids_in_table ids -> names_in_table ids ->
  ((exists j',
      ioev_ctxtbl ids j ev = Some j'
      /\ j' !! 3%nat = j !! 3%nat
      /\ (forall c, joypad_get j' 3 c = joypad_get j 3 c)
      /\ table_shape j')
   \/ (ioev_ctxtbl ids j ev = None
       /\ (sscanf_d "PLAYER" (label ev) = ConversionUndefined
           \/ exists ind subtype,
                sscanf_d "PLAYER" (label ev) = Converted ind /\ 0 < ind < 4
                /\ strchr (label ev) "_" = Some subtype
                /\ (sscanf_d "BUTTON" (next_char subtype) = ConversionUndefined
                    \/ exists b,
                         sscanf_d "BUTTON" (next_char subtype) = Converted b
                         /\ 12 <= b))))
  /\ (sscanf_d "PLAYER" (label ev) = ConversionUndefined
      \/ (exists ind subtype,
            sscanf_d "PLAYER" (label ev) = Converted ind /\ 0 < ind < 4
            /\ strchr (label ev) "_" = Some subtype
            /\ (sscanf_d "BUTTON" (next_char subtype) = ConversionUndefined
                \/ exists b,
                     sscanf_d "BUTTON" (next_char subtype) = Converted b
                     /\ 12 <= b)) ->
      ioev_ctxtbl ids j ev = None).
Proof.
  intros Hs Hids Hnames. split.
  2:{ intros [Hp|(ind & subtype & Hp & Hind & Hc & Hb)];
        unfold ioev_ctxtbl; rewrite Hp; [reflexivity|].
      unfold MAX_PORTS.
      destruct (Z.ltb_spec 0 ind); [|lia]. destruct (Z.ltb_spec ind 4); [|lia].
      cbn [andb]. rewrite Hc. unfold button_of.
      destruct Hb as [Hb|(b & Hb & Hbig)]; rewrite Hb; [reflexivity|].
      destruct (sscanf_d_prefix _ _ _ Hb) as (rest & Hrest & _).
      rewrite (named_button_numbered _ _ _ Hrest). unfold MAX_BUTTONS.
      destruct (Z.ltb_spec 0 b); [|lia]. destruct (Z.leb_spec b (12 - 6)); [lia|].
      cbn [andb]. destruct (Z.leb_spec 0 b); [|lia].
      unfold joypad_set.
      assert (Hout : in_table (ind - 1) b = false).
      { destruct (in_table (ind - 1) b) eqn:E; [|reflexivity].
        apply in_table_spec in E. lia. }
      rewrite Hout. reflexivity. }
  assert (Hsame : exists j',
            Some j = Some j' /\ j' !! 3%nat = j !! 3%nat
            /\ (forall c, joypad_get j' 3 c = joypad_get j 3 c) /\ table_shape j')
    by (exists j; auto).
  unfold ioev_ctxtbl.
  destruct (sscanf_d "PLAYER" (label ev)) as [|ind|] eqn:Hp;
    [left; exact Hsame| |right; auto].
  unfold MAX_PORTS.
  destruct (Z.ltb_spec 0 ind); [|left; exact Hsame].
  destruct (Z.ltb_spec ind 4); [|left; exact Hsame].
  cbn [andb].
  destruct (strchr (label ev) "_") as [subtype|] eqn:Hc; [|left; exact Hsame].
  assert (Hind : 0 < ind < 4) by lia.
  assert (Hwrite : forall button,
            0 <= button < 12 ->
            exists j',
              (if 0 <=? button
               then joypad_set j (ind - 1) button (negb (event_value ev =? 0))
               else Some j) = Some j'
              /\ j' !! 3%nat = j !! 3%nat
              /\ (forall c, joypad_get j' 3 c = joypad_get j 3 c) /\ table_shape j').
  { intros button Hb. destruct (Z.leb_spec 0 button); [|lia].
    now apply joypad_set_in_row. }
  unfold button_of.
  destruct (sscanf_d "BUTTON" (next_char subtype)) as [|b|] eqn:Hb.
  - destruct (named_button_range (next_char subtype) (-1) Hnames) as [->|Hr].
    + left. exact Hsame.
    + left. now apply Hwrite.
  - destruct (sscanf_d_prefix _ _ _ Hb) as (rest & Hrest & Hbr).
    unfold MAX_BUTTONS.
    destruct (Z.ltb_spec 0 b) as [Hpos|Hneg];
      [destruct (Z.leb_spec b (12 - 6)) as [Hlow|Hhigh]|]; cbn [andb].
    + assert (E : to_int32 (b - 1) = b - 1).
      { unfold to_int32, to_signed. change (2 ^ 32) with 4294967296.
        change (2 ^ (32 - 1)) with 2147483648.
        rewrite Z.mod_small by lia.
        destruct (Z.ltb_spec (b - 1) 2147483648); lia. }
      rewrite E.
      assert (E64 : to_uint64 (b - 1) = b - 1)
        by (unfold to_uint64; apply Z.mod_small; lia).
      rewrite E64. destruct (Z.ltb_spec (6 - 1) (b - 1)); [lia|].
      destruct (remaptbl_lookup b Hids ltac:(lia)) as (id & -> & Hid).
      left. now apply Hwrite.
    + rewrite (named_button_numbered _ _ _ Hrest).
      destruct (Z.ltb_spec b 12).
      * left. apply Hwrite. lia.
      * right. split.
        -- destruct (Z.leb_spec 0 b); [|lia].
           unfold joypad_set.
           assert (Hout : in_table (ind - 1) b = false).
           { destruct (in_table (ind - 1) b) eqn:E; [|reflexivity].
             apply in_table_spec in E. lia. }
           rewrite Hout. reflexivity.
        -- right. exists ind, subtype. eauto 10.
    + rewrite (named_button_numbered _ _ _ Hrest).
      destruct (Z.leb_spec 0 b).
      * left. assert (b = 0) by lia. subst b.
        specialize (Hwrite 0 ltac:(lia)). exact Hwrite.
      * left. exact Hsame.
  - right. split; [reflexivity|]. right. exists ind, subtype. auto 10.
Qed.

(** X9: a numbered button outside 1 to 6 is not remapped: the number read
    from the label is itself the column that is written.  Nothing is
    written for a negative number, and a number of 12 or more addresses a
    flag outside the row. *)
Theorem button_number_out_of_range j ev ind subtype b :
  sscanf_d "PLAYER" (label ev) = Converted ind -> 0 < ind < 4 ->
  strchr (label ev) "_" = Some subtype ->
  sscanf_d "BUTTON" (next_char subtype) = Converted b ->
  b <= 0 \/ 6 < b ->
  ioev_ctxtbl ids j ev
  = (if b <? 0 then Some j
     else joypad_set j (ind - 1) b (negb (event_value ev =? 0)))
  /\ (12 <= b -> ioev_ctxtbl ids j ev = None).
Proof.
  intros Hp Hind Hs Hb Hrange.
  assert (E : ioev_ctxtbl ids j ev
              = if b <? 0 then Some j
                else joypad_set j (ind - 1) b (negb (event_value ev =? 0))).
  { unfold ioev_ctxtbl. rewrite Hp. unfold MAX_PORTS.
    destruct (Z.ltb_spec 0 ind); [|lia]. destruct (Z.ltb_spec ind 4); [|lia].
    cbn [andb]. rewrite Hs. unfold button_of. rewrite Hb.
    destruct (sscanf_d_prefix _ _ _ Hb) as (rest & Hrest & _).
    rewrite (named_button_numbered _ _ _ Hrest).
    unfold MAX_BUTTONS.
    destruct (Z.ltb_spec 0 b), (Z.leb_spec b (12 - 6)); cbn [andb]; try lia;
      destruct (Z.leb_spec 0 b), (Z.ltb_spec b 0); try lia; reflexivity. }
  split; [exact E|].
  intros Hbig. rewrite E. destruct (Z.ltb_spec b 0); [lia|].
  unfold joypad_set.
  destruct (in_table (ind - 1) b) eqn:Ht; [|reflexivity].
  apply in_table_spec in Ht. lia.
Qed.

(** X10: labels are matched loosely.  Whatever stands between the player
    number and the first underscore, as long as it has no underscore and
    does not go on with a digit, is skipped: the event acts as the one with
    the plain label [PLAYER<n>_<subtype>]. *)
Theorem label_junk_is_skipped j ev ev' n junk sub :
  0 <= n <= 9 -> strchr junk "_" = None -> starts_with_digit junk = false ->
  label ev = player_label n junk sub ->
  label ev' = player_label n "" sub ->
  event_value ev = event_value ev' ->
  ioev_ctxtbl ids j ev = ioev_ctxtbl ids j ev'.
Proof.
  intros Hn Hj Hd Hl Hl' Hv.
  destruct (scan_player_label n junk sub Hn Hj Hd) as [P1 P2].
  destruct (scan_player_label n "" sub Hn eq_refl eq_refl) as [Q1 Q2].
  unfold ioev_ctxtbl. rewrite Hl, Hl', P1, P2, Q1, Q2, Hv. reflexivity.
Qed.

End InputFacts.

Lemma no_buttons_shape : table_shape no_buttons.
Proof.
  split; [reflexivity|].
  repeat (apply List.Forall_cons; [reflexivity|]). apply List.Forall_nil.
Qed.

Lemma libretro_h_in_table : ids_in_table libretro_h.
Proof.
  unfold ids_in_table, MAX_BUTTONS, remaptbl, libretro_h.
  cbn [RETRO_DEVICE_ID_JOYPAD_A RETRO_DEVICE_ID_JOYPAD_B RETRO_DEVICE_ID_JOYPAD_X
       RETRO_DEVICE_ID_JOYPAD_Y RETRO_DEVICE_ID_JOYPAD_L RETRO_DEVICE_ID_JOYPAD_R].
  repeat (apply List.Forall_cons; [lia|]). apply List.Forall_nil.
Qed.

Lemma button_event_reaches_inputstate_witness :
  exists j' id,
    ioev_ctxtbl libretro_h no_buttons
      (mk_io "PLAYER2_BUTTON3" EVENT_IDATATYPE_DIGITAL 0 1) = Some j'
    /\ remaptbl libretro_h !! Z.to_nat (3 - 1) = Some id
    /\ libretro_inputstate libretro_h j' 0 (RETRO_DEVICE_JOYPAD libretro_h) (2 - 1) id
       = Some (if event_value (mk_io "PLAYER2_BUTTON3" EVENT_IDATATYPE_DIGITAL 0 1) =? 0
               then 0 else 1)
    /\ forall r c, r <> 2 - 1 \/ c <> id -> joypad_get j' r c = joypad_get no_buttons r c.
Proof.
  apply (button_event_reaches_inputstate libretro_h no_buttons
           (mk_io "PLAYER2_BUTTON3" EVENT_IDATATYPE_DIGITAL 0 1) 2 3 0).
  - exact no_buttons_shape.
  - exact libretro_h_in_table.
  - lia.
  - lia.
  - reflexivity.
Defined.

Lemma libretro_h_names_in_table : names_in_table libretro_h.
Proof.
  unfold names_in_table, MAX_BUTTONS, libretro_h.
  cbn [RETRO_DEVICE_ID_JOYPAD_UP RETRO_DEVICE_ID_JOYPAD_DOWN RETRO_DEVICE_ID_JOYPAD_LEFT
       RETRO_DEVICE_ID_JOYPAD_RIGHT RETRO_DEVICE_ID_JOYPAD_SELECT
       RETRO_DEVICE_ID_JOYPAD_START].
  repeat (apply List.Forall_cons; [lia|]). apply List.Forall_nil.
Qed.

Lemma ioev_fourth_row_or_out_of_row_witness :
  exists j',
    ioev_ctxtbl libretro_h no_buttons
      (mk_io "PLAYER3_START" EVENT_IDATATYPE_TRANSLATED 1 0) = Some j'
    /\ j' !! 3%nat = no_buttons !! 3%nat
    /\ table_shape j'.
Proof.
  destruct (proj1 (ioev_fourth_row_or_out_of_row libretro_h no_buttons
                     (mk_io "PLAYER3_START" EVENT_IDATATYPE_TRANSLATED 1 0)
                     no_buttons_shape libretro_h_in_table libretro_h_names_in_table))
    as [(j' & Hrun & Hrow & _ & Hshape)|(Hnone & _)].
  - exists j'. auto.
  - vm_compute in Hnone. discriminate Hnone.
Defined.

Lemma button_number_out_of_range_witness :
  ioev_ctxtbl libretro_h no_buttons (mk_io "PLAYER2_BUTTON9" EVENT_IDATATYPE_DIGITAL 0 1)
  = (if 9 <? 0 then Some no_buttons
     else joypad_set no_buttons (2 - 1) 9
            (negb (event_value (mk_io "PLAYER2_BUTTON9" EVENT_IDATATYPE_DIGITAL 0 1) =? 0))).
Proof.
  apply (button_number_out_of_range libretro_h no_buttons
           (mk_io "PLAYER2_BUTTON9" EVENT_IDATATYPE_DIGITAL 0 1) 2 "_BUTTON9" 9).
  - reflexivity.
  - lia.
  - reflexivity.
  - reflexivity.
  - lia.
Defined.

Lemma label_junk_is_skipped_witness :
  ioev_ctxtbl libretro_h no_buttons (mk_io "PLAYER1 pad_UP" EVENT_IDATATYPE_DIGITAL 0 1)
  = ioev_ctxtbl libretro_h no_buttons (mk_io "PLAYER1_UP" EVENT_IDATATYPE_DIGITAL 0 1).
Proof.
  apply (label_junk_is_skipped libretro_h no_buttons
           (mk_io "PLAYER1 pad_UP" EVENT_IDATATYPE_DIGITAL 0 1)
           (mk_io "PLAYER1_UP" EVENT_IDATATYPE_DIGITAL 0 1) 1 " pad" "UP").
  - lia.
  - reflexivity.
  - reflexivity.
  - reflexivity.
  - reflexivity.
  - reflexivity.
Defined.

End LibretroInputFacts.

(** ** The event queues *)

Module ShmifFacts.
Import Shmif.

(** *** Ring arithmetic *)

Lemma mod_wrap (a s : nat) :
  (0 < s)%nat -> (a < 2 * s)%nat ->
  (a mod s)%nat = if (a <? s)%nat then a else (a - s)%nat.
Proof.
  intros Hs Ha. destruct (Nat.ltb_spec a s) as [Hlt|Hge].
  - now apply Nat.mod_small.
  - replace a with ((a - s) + 1 * s)%nat at 1 by lia.
    rewrite Nat.Div0.mod_add. apply Nat.mod_small. lia.
Qed.

Lemma queue_used_cases q :
  wf_queue q ->
  queue_used q = if (front q <=? back q)%nat
                 then (back q - front q)%nat
                 else (back q + slots q - front q)%nat.
Proof.
  intros (Hs & Hf & Hb). unfold queue_used.
  rewrite mod_wrap by lia.
  destruct (Nat.leb_spec (front q) (back q)), (Nat.ltb_spec (back q + slots q - front q) (slots q));
    lia.
Qed.

Lemma queue_used_bound q : wf_queue q -> (queue_used q < slots q)%nat.
Proof.
  intros Hwf. rewrite queue_used_cases by assumption.
  destruct Hwf as (Hs & Hf & Hb).
  destruct (Nat.leb_spec (front q) (back q)); lia.
Qed.

Lemma queue_empty_used q :
  wf_queue q -> (queue_empty q = true <-> queue_used q = 0%nat).
Proof.
  intros Hwf. rewrite queue_used_cases by assumption.
  destruct Hwf as (Hs & Hf & Hb). unfold queue_empty.
  rewrite Nat.eqb_eq.
  destruct (Nat.leb_spec (front q) (back q)); lia.
Qed.

Lemma queue_full_used q :
  wf_queue q -> (queue_full q = true <-> queue_used q = (slots q - 1)%nat).
Proof.
  intros Hwf. rewrite queue_used_cases by assumption.
  destruct Hwf as (Hs & Hf & Hb). unfold queue_full.
  rewrite Nat.eqb_eq, mod_wrap by lia.
  destruct (Nat.leb_spec (front q) (back q)), (Nat.ltb_spec (back q + 1) (slots q)); lia.
Qed.

Lemma wf_pop q : wf_queue q -> wf_queue (pop q).
Proof.
  intros (Hs & Hf & Hb). unfold wf_queue, pop, slots in *. cbn.
  repeat split; try assumption. apply Nat.mod_upper_bound. lia.
Qed.

Lemma wf_push q e : wf_queue q -> wf_queue (push q e).
Proof.
  intros (Hs & Hf & Hb). unfold wf_queue, push, slots in *. cbn.
  rewrite length_insert.
  repeat split; try assumption. apply Nat.mod_upper_bound. lia.
Qed.

Lemma queue_used_pop q :
  wf_queue q -> queue_empty q = false ->
  queue_used q = S (queue_used (pop q)).
Proof.
  intros Hwf He.
  rewrite (queue_used_cases q), (queue_used_cases (pop q)) by auto using wf_pop.
  destruct Hwf as (Hs & Hf & Hb). unfold queue_empty in He.
  apply Nat.eqb_neq in He.
  unfold pop, slots in *. cbn [front back eventbuf].
  rewrite mod_wrap by lia.
  destruct (Nat.ltb_spec (front q + 1) (length (eventbuf q)));
    destruct (Nat.leb_spec (front q) (back q));
    match goal with |- context [(?a <=? ?b)%nat] => destruct (Nat.leb_spec a b) end;
    lia.
Qed.

Lemma queue_used_push q e :
  wf_queue q -> queue_full q = false ->
  queue_used (push q e) = S (queue_used q).
Proof.
  intros Hwf Hfull.
  assert (Hu : queue_used q <> (slots q - 1)%nat).
  { intros Hu. apply queue_full_used in Hu; [congruence|assumption]. }
  rewrite (queue_used_cases q) in * by assumption.
  rewrite (queue_used_cases (push q e)) by auto using wf_push.
  destruct Hwf as (Hs & Hf & Hb).
  unfold push, slots in *. cbn [front back eventbuf].
  rewrite length_insert, mod_wrap by lia.
  destruct (Nat.ltb_spec (back q + 1) (length (eventbuf q)));
    destruct (Nat.leb_spec (front q) (back q));
    match goal with |- context [(?a <=? ?b)%nat] => destruct (Nat.leb_spec a b) end;
    lia.
Qed.

(** *** The pending events *)

Lemma omap_cons {A B} (f : A -> option B) x l :
  omap f (x :: l) = match f x with Some y => y :: omap f l | None => omap f l end.
Proof. reflexivity. Qed.

Lemma omap_seq_shift {A} (f : nat -> option A) n :
  omap f (seq 1 n) = omap (fun i => f (S i)) (seq 0 n).
Proof.
  rewrite <- seq_shift. induction (seq 0 n) as [|i l IH]; [reflexivity|].
  cbn. rewrite IH. reflexivity.
Qed.

Lemma omap_ext_in {A B} (f g : A -> option B) l :
  (forall x, In x l -> f x = g x) -> omap f l = omap g l.
Proof.
  induction l as [|x l IH]; intros H; [reflexivity|].
  cbn. rewrite (H x) by now left. rewrite IH; [reflexivity|].
  intros y Hy. apply H. now right.
Qed.

Lemma pending_pop q :
  wf_queue q -> queue_empty q = false ->
  exists e, eventbuf q !! front q = Some e /\ pending q = e :: pending (pop q).
Proof.
  intros Hwf He.
  pose proof (queue_used_pop q Hwf He) as Hu.
  destruct Hwf as (Hs & Hf & Hb).
  destruct (lookup_lt_is_Some_2 (eventbuf q) (front q) Hf) as [e Hl].
  exists e. split; [assumption|].
  unfold pending. rewrite Hu. rewrite <- cons_seq, omap_cons.
  replace ((front q + 0) mod slots q)%nat with (front q)
    by (rewrite Nat.add_0_r, Nat.mod_small; lia).
  rewrite Hl. f_equal.
  rewrite omap_seq_shift. apply omap_ext_in. intros i _.
  unfold pop, slots. cbn [front eventbuf].
  f_equal. rewrite Nat.Div0.add_mod_idemp_l. f_equal. lia.
Qed.

Lemma slots_push q e : slots (push q e) = slots q.
Proof. unfold slots, push. cbn. apply length_insert. Qed.

Lemma pending_push q e :
  wf_queue q -> queue_full q = false ->
  pending (push q e) = pending q ++ [e].
Proof.
  intros Hwf Hfull.
  pose proof (queue_used_push q e Hwf Hfull) as Hu.
  pose proof (queue_used_cases q Hwf) as Hc.
  pose proof (queue_used_bound (push q e) (wf_push q e Hwf)) as Hbd.
  rewrite Hu, slots_push in Hbd.
  destruct Hwf as (Hs & Hf & Hb).
  assert (Hback : ((front q + queue_used q) mod slots q)%nat = back q).
  { rewrite Hc, mod_wrap by (destruct (Nat.leb_spec (front q) (back q)); lia).
    destruct (Nat.leb_spec (front q) (back q));
      match goal with |- context [(?a <? ?b)%nat] => destruct (Nat.ltb_spec a b) end;
      lia. }
  unfold pending. rewrite Hu, seq_S, omap_app, slots_push.
  change (front (push q e)) with (front q).
  change (eventbuf (push q e)) with (<[back q := e]> (eventbuf q)).
  rewrite (omap_cons _ _ []). cbn [Nat.add]. rewrite Hback.
  rewrite list_lookup_insert_eq by (unfold slots in Hb; lia).
  f_equal.
  apply omap_ext_in. intros i Hi. apply in_seq in Hi.
  apply list_lookup_insert_ne.
  rewrite Hc in *.
  rewrite mod_wrap by (destruct (Nat.leb_spec (front q) (back q)); lia).
  destruct (Nat.leb_spec (front q) (back q));
    match goal with |- context [(?a <? ?b)%nat] => destruct (Nat.ltb_spec a b) end;
    lia.
Qed.

Lemma pending_empty q : wf_queue q -> queue_empty q = true -> pending q = [].
Proof.
  intros Hwf He. apply queue_empty_used in He; [|assumption].
  unfold pending. now rewrite He.
Qed.

Lemma length_pending q : wf_queue q -> length (pending q) = queue_used q.
Proof.
  intros Hwf. unfold pending.
  assert (H : forall l, (forall i, In i l -> is_Some (eventbuf q !! ((front q + i) mod slots q)%nat)) ->
              length (omap (fun i => eventbuf q !! ((front q + i) mod slots q)%nat) l) = length l).
  { induction l as [|i l IH]; intros Hl; [reflexivity|].
    cbn. destruct (Hl i (or_introl eq_refl)) as [x ->]. cbn. f_equal.
    apply IH. intros j Hj. apply Hl. now right. }
  rewrite H, length_seq; [reflexivity|].
  intros i _. apply lookup_lt_is_Some_2. apply Nat.mod_upper_bound.
  destruct Hwf as (Hs & _). unfold slots in *. lia.
Qed.


(** *** Poll and wait *)

Lemma wf_apply_peer c a : wf_cont c -> wf_cont (apply_peer c a).
Proof.
  intros [Hi Ho]. destruct a as [e| |]; cbn.
  - destruct (queue_full (inq c)); split; cbn; auto using wf_push.
  - destruct (queue_empty (outq c)); split; cbn; auto using wf_pop.
  - now split.
Qed.

Lemma wf_pop_in c : wf_cont c -> wf_cont (set_inq c (pop (inq c))).
Proof. intros [Hi Ho]. split; cbn; auto using wf_pop. Qed.

Lemma poll_cases c :
  wf_cont c ->
  (dead c = true /\ arcan_shmif_poll c = (-1, None, c))
  \/ (dead c = false /\ queue_empty (inq c) = true
      /\ arcan_shmif_poll c = (0, None, c))
  \/ (dead c = false /\ queue_empty (inq c) = false
      /\ exists e, eventbuf (inq c) !! front (inq c) = Some e
           /\ pending (inq c) = e :: pending (pop (inq c))
           /\ arcan_shmif_poll c = (1, Some e, set_inq c (pop (inq c)))).
Proof.
  intros [Hi Ho]. unfold arcan_shmif_poll.
  destruct (dead c); [now left|right].
  destruct (queue_empty (inq c)) eqn:He; [now left|right].
  destruct (pending_pop _ Hi He) as (e & Hl & Hp).
  repeat split. exists e. rewrite Hl. auto.
Qed.

Lemma enqueued_cons a l : enqueued (a :: l) = enqueued [a] ++ enqueued l.
Proof. destruct a; reflexivity. Qed.

Lemma length_enqueued l : (length (enqueued l) <= length l)%nat.
Proof.
  induction l as [|a l IH]; [reflexivity|].
  rewrite enqueued_cons, length_app. destruct a; cbn in *; lia.
Qed.

Lemma wait_dead acts c :
  dead c = true -> arcan_shmif_wait acts c = Some (0, None, c, acts).
Proof.
  intros Hd. destruct acts; cbn; unfold arcan_shmif_poll; rewrite Hd; reflexivity.
Qed.

Lemma wait_unfold acts c :
  arcan_shmif_wait acts c =
  match arcan_shmif_poll c with
  | (r, oe, c') =>
      if r =? 0 then
        match acts with
        | [] => None
        | a :: rest => arcan_shmif_wait rest (apply_peer c a)
        end
      else Some (if 0 <? r then 1 else 0, oe, c', acts)
  end.
Proof. destruct acts; reflexivity. Qed.

(** What a returning [wait] has done: it has let the peer perform a prefix
    of its actions and either dequeued the oldest event of what was or
    became pending, or found the connection dead. *)
Lemma wait_returns_spec acts : forall c r oe c' rest,
  wf_cont c ->
  arcan_shmif_wait acts c = Some (r, oe, c', rest) ->
  wf_cont c' /\
  exists consumed, acts = consumed ++ rest /\
    ((r = 1 /\ dead c = false /\ dead c' = false
      /\ (In PeerDie acts -> In PeerDie rest)
      /\ exists e, oe = Some e
           /\ pending (inq c) ++ enqueued consumed = e :: pending (inq c'))
     \/ (r = 0 /\ oe = None /\ dead c' = true
         /\ pending (inq c) ++ enqueued consumed = pending (inq c'))).
Proof.
  induction acts as [|a acts IH]; intros c r oe c' rest Hwf Hw;
    rewrite wait_unfold in Hw;
    destruct (poll_cases c Hwf) as [(Hd & Hp)|[(Hd & He & Hp)|(Hd & He & e & Hl & Hpe & Hp)]];
    rewrite Hp in Hw; cbn in Hw; try discriminate.
  - injection Hw as <- <- <- <-. split; [assumption|]. exists []. split; [reflexivity|].
    right. cbn. rewrite app_nil_r. repeat split; auto.
  - injection Hw as <- <- <- <-. split; [apply wf_pop_in; assumption|idtac].
    exists []. split; [reflexivity|]. left. change (enqueued []) with (@nil arcan_event). rewrite app_nil_r.
    split; [reflexivity|]. split; [assumption|]. split; [assumption|].
    split; [tauto|]. eauto.
  - injection Hw as <- <- <- <-. split; [assumption|]. exists []. split; [reflexivity|].
    right. cbn. rewrite app_nil_r. repeat split; auto.
  - pose proof (wf_apply_peer c a Hwf) as Hwf1.
    destruct (IH _ _ _ _ _ Hwf1 Hw) as (Hwf' & consumed & -> & Hcases).
    split; [assumption|]. exists (a :: consumed). split; [reflexivity|].
    assert (Hpend : pending (inq (apply_peer c a)) = pending (inq c) ++ enqueued [a]).
    { destruct Hwf as [Hi Ho].
      rewrite (pending_empty _ Hi He). cbn [app].
      destruct a as [e| |]; cbn.
      - assert (Hnf : queue_full (inq c) = false).
        { destruct (queue_full (inq c)) eqn:Hf; [|reflexivity].
          apply queue_full_used in Hf; [|assumption].
          apply queue_empty_used in He; [|assumption].
          destruct Hi as (Hs & _). lia. }
        rewrite Hnf. cbn. rewrite pending_push, pending_empty by assumption.
        reflexivity.
      - destruct (queue_empty (outq c)); cbn; now apply pending_empty.
      - now apply pending_empty. }
    rewrite (enqueued_cons a consumed), app_assoc, <- Hpend.
    destruct Hcases as [(-> & Hd1 & Hd' & Hdie & e & -> & Hs)|(-> & -> & Hd' & Hs)].
    + left. repeat split; try assumption.
      * intros [->|Hin]; [cbn in Hd1; discriminate|]. now apply Hdie.
      * eauto.
    + right. repeat split; assumption.
  - injection Hw as <- <- <- <-. split; [apply wf_pop_in; assumption|idtac].
    exists []. split; [reflexivity|]. left. change (enqueued []) with (@nil arcan_event). rewrite app_nil_r.
    split; [reflexivity|]. split; [assumption|]. split; [assumption|].
    split; [tauto|]. eauto.
Qed.

(** A blocked [wait] returns as soon as the peer adds an event or dies. *)
Lemma wait_returns acts : forall c,
  wf_cont c ->
  (exists a, In a acts /\ (a = PeerDie \/ exists e, a = PeerEnqueue e)) ->
  arcan_shmif_wait acts c <> None.
Proof.
  induction acts as [|a acts IH]; intros c Hwf (b & Hin & Hb); [destruct Hin|].
  rewrite wait_unfold.
  destruct (poll_cases c Hwf) as [(Hd & Hp)|[(Hd & He & Hp)|(Hd & He & e & Hl & Hpe & Hp)]];
    rewrite Hp; cbn; try discriminate.
  pose proof (wf_apply_peer c a Hwf) as Hwf1.
  destruct Hin as [->|Hin]; [|apply IH; eauto].
  rewrite wait_unfold.
  destruct Hb as [->|[e ->]].
  - cbn. discriminate.
  - destruct (poll_cases _ Hwf1) as [(Hd1 & Hp1)|[(Hd1 & He1 & Hp1)|(Hd1 & He1 & e1 & Hl1 & Hpe1 & Hp1)]];
      rewrite Hp1; cbn; try discriminate.
    exfalso. destruct Hwf as [Hi Ho].
    assert (Hnf : queue_full (inq c) = false).
    { destruct (queue_full (inq c)) eqn:Hf; [|reflexivity].
      apply queue_full_used in Hf; [|assumption].
      apply queue_empty_used in He; [|assumption].
      destruct Hi as (Hs & _). lia. }
    assert (Hinq : inq (apply_peer c (PeerEnqueue e)) = push (inq c) e)
      by (cbn [apply_peer]; rewrite Hnf; reflexivity).
    rewrite Hinq in He1.
    apply queue_empty_used in He1; [|now apply wf_push].
    rewrite queue_used_push in He1 by assumption. discriminate.
Qed.

Lemma empty_not_full q : wf_queue q -> queue_empty q = true -> queue_full q = false.
Proof.
  intros Hq He. destruct (queue_full q) eqn:Hf; [|reflexivity].
  apply queue_full_used in Hf; [|assumption].
  apply queue_empty_used in He; [|assumption].
  destruct Hq as (Hs & _). lia.
Qed.

(** With an event pending on a live connection [wait] returns at once. *)
Lemma wait_ready c :
  wf_cont c -> dead c = false -> queue_empty (inq c) = false ->
  exists e,
    pending (inq c) = e :: pending (pop (inq c))
    /\ forall acts,
         arcan_shmif_wait acts c = Some (1, Some e, set_inq c (pop (inq c)), acts).
Proof.
  intros Hwf Hd He.
  destruct (poll_cases c Hwf) as [(Hd' & _)|[(_ & He' & _)|(_ & _ & e & _ & Hpe & Hp)]];
    [congruence|congruence|].
  exists e. split; [assumption|].
  intros acts. rewrite wait_unfold, Hp. reflexivity.
Qed.

(** Blocked on an empty queue, [wait] gives the peer one action. *)
Lemma wait_blocked c a acts :
  wf_cont c -> dead c = false -> queue_empty (inq c) = true ->
  arcan_shmif_wait (a :: acts) c = arcan_shmif_wait acts (apply_peer c a).
Proof.
  intros Hwf Hd He.
  destruct (poll_cases c Hwf) as [(Hd' & _)|[(_ & _ & Hp)|(_ & He' & _)]];
    [congruence| |congruence].
  rewrite wait_unfold, Hp. reflexivity.
Qed.

(** The oldest event of what is pending and what the peer will add is the
    one [wait] returns, as long as the peer does not die first; what is left
    of the stream is what the next call will see. *)
Lemma wait_head pre : forall c m tail,
  wf_cont c -> dead c = false -> ~ In PeerDie pre ->
  pending (inq c) ++ enqueued pre = m :: tail ->
  exists pre1 c1,
    (forall post,
       arcan_shmif_wait (pre ++ post) c = Some (1, Some m, c1, pre1 ++ post))
    /\ wf_cont c1 /\ dead c1 = false /\ ~ In PeerDie pre1
    /\ pending (inq c1) ++ enqueued pre1 = tail
    /\ (length (pending (inq c1)) + length pre1
        < length (pending (inq c)) + length pre)%nat.
Proof.
  induction pre as [|a pre IH]; intros c m tail Hwf Hd Hnd Hs;
    destruct (queue_empty (inq c)) eqn:He.
  - rewrite (pending_empty _ (proj1 Hwf) He) in Hs. discriminate.
  - destruct (wait_ready c Hwf Hd He) as (e & Hpe & Hw).
    rewrite Hpe in Hs. injection Hs as -> Hs.
    exists [], (set_inq c (pop (inq c))).
    split; [intros post; apply Hw|].
    split; [now apply wf_pop_in|]. split; [assumption|]. split; [assumption|].
    split; [assumption|]. rewrite Hpe. cbn. lia.
  - rewrite (pending_empty _ (proj1 Hwf) He) in Hs. cbn [app] in Hs.
    pose proof (wf_apply_peer c a Hwf) as Hwf2.
    destruct a as [e| |].
    + cbn in Hs. injection Hs as -> Hs.
      assert (Hblocked : forall post,
                arcan_shmif_wait (PeerEnqueue m :: pre ++ post) c
                = arcan_shmif_wait (pre ++ post) (apply_peer c (PeerEnqueue m)))
        by (intros post; now apply wait_blocked).
      remember (apply_peer c (PeerEnqueue m)) as c2 eqn:Hc2.
      assert (Hinq : inq c2 = push (inq c) m).
      { rewrite Hc2. cbn [apply_peer].
        rewrite (empty_not_full _ (proj1 Hwf) He). reflexivity. }
      assert (Hpend : pending (inq c2) = [m]).
      { rewrite Hinq, pending_push, (pending_empty _ (proj1 Hwf) He);
          [reflexivity|apply Hwf|apply empty_not_full; [apply Hwf|assumption]]. }
      assert (Hd2 : dead c2 = false).
      { rewrite Hc2. cbn [apply_peer]. destruct (queue_full (inq c)); assumption. }
      assert (He2 : queue_empty (inq c2) = false).
      { destruct (queue_empty (inq c2)) eqn:E; [|reflexivity].
        rewrite (pending_empty _ (proj1 Hwf2) E) in Hpend. discriminate. }
      destruct (wait_ready _ Hwf2 Hd2 He2) as (e & Hpe & Hw).
      rewrite Hpend in Hpe. injection Hpe as <- Hrest.
      exists pre, (set_inq c2 (pop (inq c2))).
      split.
      { intros post. cbn [app]. rewrite Hblocked. apply Hw. }
      split; [now apply wf_pop_in|]. split; [assumption|].
      split; [intros Hin; apply Hnd; now right|].
      cbn [inq set_inq]. rewrite <- Hrest. split; [assumption|].
      rewrite (pending_empty _ (proj1 Hwf) He). cbn. lia.
    + assert (Hd2 : dead (apply_peer c PeerDequeue) = false).
      { cbn [apply_peer]. destruct (queue_empty (outq c)); assumption. }
      assert (Hinq : inq (apply_peer c PeerDequeue) = inq c).
      { cbn [apply_peer]. destruct (queue_empty (outq c)); reflexivity. }
      assert (Hnd' : ~ In PeerDie pre) by (intros Hin; apply Hnd; now right).
      destruct (IH (apply_peer c PeerDequeue) m tail Hwf2 Hd2 Hnd')
        as (pre1 & c1 & Hw & Hwf1 & Hd1 & Hnd1 & Hs1 & Hlen).
      { rewrite Hinq, (pending_empty _ (proj1 Hwf) He). exact Hs. }
      exists pre1, c1.
      split.
      { intros post. cbn [app]. rewrite (wait_blocked c _ _ Hwf Hd He). apply Hw. }
      rewrite Hinq in Hlen. cbn [length].
      split; [assumption|]. split; [assumption|]. split; [assumption|].
      split; [assumption|lia].
    + exfalso. apply Hnd. now left.
  - destruct (wait_ready c Hwf Hd He) as (e & Hpe & Hw).
    rewrite Hpe in Hs. injection Hs as -> Hs.
    exists (a :: pre), (set_inq c (pop (inq c))).
    split; [intros post; apply Hw|].
    split; [now apply wf_pop_in|]. split; [assumption|]. split; [assumption|].
    split; [assumption|]. rewrite Hpe. cbn. lia.
Qed.

(** With nothing pending and nothing more to come, the peer's death is
    what [wait] returns on. *)
Lemma wait_die pre : forall c post,
  wf_cont c -> dead c = false -> ~ In PeerDie pre ->
  pending (inq c) ++ enqueued pre = [] ->
  exists c1,
    arcan_shmif_wait (pre ++ PeerDie :: post) c = Some (0, None, c1, post)
    /\ wf_cont c1 /\ dead c1 = true /\ pending (inq c1) = [].
Proof.
  induction pre as [|a pre IH]; intros c post Hwf Hd Hnd Hs;
    apply app_eq_nil in Hs as [Hp Hq];
    (assert (He : queue_empty (inq c) = true);
     [destruct (queue_empty (inq c)) eqn:E; [reflexivity|];
      destruct (pending_pop _ (proj1 Hwf) E) as (e & _ & Hpe); congruence|]).
  - exists (apply_peer c PeerDie). cbn [app].
    rewrite (wait_blocked c _ _ Hwf Hd He).
    split; [apply wait_dead; reflexivity|].
    split; [now apply wf_apply_peer|]. split; [reflexivity|exact Hp].
  - pose proof (wf_apply_peer c a Hwf) as Hwf2.
    destruct a as [e| |]; [discriminate Hq| |exfalso; apply Hnd; now left].
    assert (Hd2 : dead (apply_peer c PeerDequeue) = false).
    { cbn [apply_peer]. destruct (queue_empty (outq c)); assumption. }
    assert (Hinq : inq (apply_peer c PeerDequeue) = inq c).
    { cbn [apply_peer]. destruct (queue_empty (outq c)); reflexivity. }
    assert (Hnd' : ~ In PeerDie pre) by (intros Hin; apply Hnd; now right).
    destruct (IH (apply_peer c PeerDequeue) post Hwf2 Hd2 Hnd') as (c1 & Hw & Hrest).
    { rewrite Hinq, Hp. exact Hq. }
    exists c1. cbn [app]. rewrite (wait_blocked c _ _ Hwf Hd He). auto.
Qed.

(** C4: [poll] takes nothing but the connection and answers at once:
    positive with the oldest pending event exactly when the connection is
    alive and [front] differs from [back], zero exactly when it is alive and
    [front = back], negative exactly when it is dead. A returning [wait] has
    let the peer perform some of its actions, and gives non-zero with the
    oldest event of what was pending and what these actions added, which it
    has dequeued from a connection still alive, or zero on a connection
    found dead. Where [poll] would not answer zero, [wait] returns what
    [poll] does without letting the peer act; blocked, it returns as soon as
    the peer adds an event or dies. On a dead connection both return the
    terminal indicator and leave the connection as it is, so it stays
    terminal. *)
Theorem poll_wait_contract c :
  wf_cont c ->
  let r := fst (fst (arcan_shmif_poll c)) in
  let oe := snd (fst (arcan_shmif_poll c)) in
  let c1 := snd (arcan_shmif_poll c) in
  (0 < r <-> dead c = false /\ front (inq c) <> back (inq c))
  /\ (r = 0 <-> dead c = false /\ front (inq c) = back (inq c))
  /\ (r < 0 <-> dead c = true)
  /\ (0 < r -> exists e, oe = Some e /\ pending (inq c) = e :: pending (inq c1))
  /\ (forall acts rw ow cw rest,
        arcan_shmif_wait acts c = Some (rw, ow, cw, rest) ->
        exists consumed,
          acts = consumed ++ rest
          /\ ((rw <> 0 /\ dead cw = false
               /\ exists e, ow = Some e
                    /\ pending (inq c) ++ enqueued consumed = e :: pending (inq cw))
              \/ (rw = 0 /\ ow = None /\ dead cw = true
                  /\ pending (inq c) ++ enqueued consumed = pending (inq cw))))
  /\ (r <> 0 ->
        forall acts,
          arcan_shmif_wait acts c = Some (if 0 <? r then 1 else 0, oe, c1, acts))
  /\ (forall acts,
        (exists a, In a acts /\ (a = PeerDie \/ exists e, a = PeerEnqueue e)) ->
        arcan_shmif_wait acts c <> None)
  /\ (dead c = true ->
        arcan_shmif_poll c = (-1, None, c)
        /\ forall acts, arcan_shmif_wait acts c = Some (0, None, c, acts)).
Proof.
  intros Hwf. cbv zeta.
  assert (Heq : queue_empty (inq c) = true <-> front (inq c) = back (inq c))
    by (unfold queue_empty; apply Nat.eqb_eq).
  assert (Hwait : forall acts rw ow cw rest,
            arcan_shmif_wait acts c = Some (rw, ow, cw, rest) ->
            exists consumed,
              acts = consumed ++ rest
              /\ ((rw <> 0 /\ dead cw = false
                   /\ exists e, ow = Some e
                        /\ pending (inq c) ++ enqueued consumed = e :: pending (inq cw))
                  \/ (rw = 0 /\ ow = None /\ dead cw = true
                      /\ pending (inq c) ++ enqueued consumed = pending (inq cw)))).
  { intros acts rw ow cw rest Hw.
    destruct (wait_returns_spec _ _ _ _ _ _ Hwf Hw)
      as (_ & consumed & Hsplit
          & [(-> & _ & Hdw & _ & e & -> & Hs)|(-> & -> & Hdw & Hs)]);
      exists consumed; (split; [assumption|]).
    - left. split; [lia|]. split; [assumption|]. eauto.
    - right. auto. }
  assert (Hret : forall acts,
            (exists a, In a acts /\ (a = PeerDie \/ exists e, a = PeerEnqueue e)) ->
            arcan_shmif_wait acts c <> None)
    by (intros acts; now apply wait_returns).
  destruct (poll_cases c Hwf) as [(Hd & Hp)|[(Hd & He & Hp)|(Hd & He & e & Hl & Hpe & Hp)]];
    rewrite Hp; cbn [fst snd].
  - split; [split; [lia|intros [? _]; congruence]|].
    split; [split; [lia|intros [? _]; congruence]|].
    split; [split; [auto|lia]|].
    split; [lia|].
    split; [exact Hwait|].
    split; [intros _ acts; now apply wait_dead|].
    split; [exact Hret|].
    intros _. split; [reflexivity|]. intros acts. now apply wait_dead.
  - apply Heq in He.
    split; [split; [lia|intros [_ ?]; congruence]|].
    split; [split; auto|].
    split; [split; [lia|congruence]|].
    split; [lia|].
    split; [exact Hwait|].
    split; [lia|].
    split; [exact Hret|congruence].
  - assert (Hne : front (inq c) <> back (inq c)).
    { intros Hfb. apply Heq in Hfb. congruence. }
    split; [split; [auto|lia]|].
    split; [split; [lia|intros [_ ?]; congruence]|].
    split; [split; [lia|congruence]|].
    split; [intros _; exists e; split; [reflexivity|exact Hpe]|].
    split; [exact Hwait|].
    split.
    { intros _ acts. rewrite wait_unfold, Hp. reflexivity. }
    split; [exact Hret|congruence].
Qed.

(** *** Enqueue *)

(** C8: [try_enqueue] is [enqueue] with [lossless] off, and neither lets
    the peer act. On an alive connection with room both append the event
    and return the number of slots then free; on a full queue both return a
    negative value and leave the connection as it was. *)
Theorem tryenqueue_is_lossy_enqueue c e acts :
  wf_cont c ->
  let r := fst (arcan_shmif_tryenqueue c e) in
  let c' := snd (arcan_shmif_tryenqueue c e) in
  arcan_shmif_enqueue acts c e false = Some (r, c', acts)
  /\ (dead c = false -> queue_full (outq c) = false ->
        r = Z.of_nat (queue_free (outq c'))
        /\ 0 <= r
        /\ Z.of_nat (queue_free (outq c)) = r + 1
        /\ pending (outq c') = pending (outq c) ++ [e])
  /\ (queue_full (outq c) = true -> r < 0 /\ c' = c).
Proof.
  intros [Hi Ho]. cbv zeta. unfold arcan_shmif_tryenqueue.
  split; [|split].
  - destruct acts; cbn; destruct (dead c), (queue_full (outq c)); reflexivity.
  - intros Hd Hnf. rewrite Hd, Hnf. cbn [fst snd outq set_outq].
    split; [reflexivity|]. split; [lia|]. split.
    + unfold queue_free. rewrite slots_push, queue_used_push by assumption.
      assert (Hu : queue_used (outq c) <> (slots (outq c) - 1)%nat).
      { intros Hu. apply queue_full_used in Hu; [congruence|assumption]. }
      pose proof (queue_used_bound _ Ho). lia.
    + now apply pending_push.
  - intros Hf. rewrite Hf. destruct (dead c); cbn; split; (lia || reflexivity).
Qed.

(** *** The acquisition loop *)

Section Acquire.

Variable is_reply : arcan_event -> bool.
Variable limit : nat.

Lemma acquire_rounds_spec fuel : forall acts c pool res c' rest,
  wf_cont c ->
  acquire_rounds fuel is_reply limit acts c pool = Some (res, c', rest) ->
  exists consumed mid,
    acts = consumed ++ rest /\ Forall (not_reply is_reply) mid /\
    match res with
    | AcqReply e bl =>
        bl = pool ++ mid /\ is_reply e = true
        /\ pending (inq c) ++ enqueued consumed = mid ++ e :: pending (inq c')
    | AcqFatal bl =>
        bl = pool ++ mid /\ dead c' = true
        /\ pending (inq c) ++ enqueued consumed = mid ++ pending (inq c')
    | AcqOutOfMemory =>
        (limit <= length (pool ++ mid))%nat
        /\ exists e, not_reply is_reply e
             /\ pending (inq c) ++ enqueued consumed = mid ++ e :: pending (inq c')
    end.
Proof.
  induction fuel as [|fuel IH]; intros acts c pool res c' rest Hwf Hr; [discriminate|].
  cbn [acquire_rounds] in Hr.
  destruct (arcan_shmif_wait acts c) as [[[[r oe] c1] rest1]|] eqn:Hw; [|discriminate].
  destruct (wait_returns_spec _ _ _ _ _ _ Hwf Hw)
    as (Hwf1 & consumed & -> & [(-> & _ & _ & _ & e & -> & Hs)|(-> & -> & Hd & Hs)]).
  - change (1 =? 0) with false in Hr. cbv beta iota in Hr.
    destruct (is_reply e) eqn:Hrep.
    + injection Hr as <- <- <-. exists consumed, [].
      split; [reflexivity|]. split; [constructor|].
      rewrite app_nil_r. auto.
    + destruct (Nat.ltb_spec (length pool) limit) as [Hroom|Hfull].
      * destruct (IH _ _ _ _ _ _ Hwf1 Hr) as (consumed2 & mid & -> & Hmid & Hres).
        exists (consumed ++ consumed2), (e :: mid).
        split; [now rewrite app_assoc|]. split; [now constructor|].
        assert (Hstream : forall tl,
                  pending (inq c1) ++ enqueued consumed2 = tl ->
                  pending (inq c) ++ enqueued (consumed ++ consumed2) = e :: tl).
        { intros tl <-. unfold enqueued in *. rewrite omap_app, app_assoc, Hs.
          reflexivity. }
        destruct res as [e' bl|bl|].
        -- destruct Hres as (-> & He' & Hst). rewrite <- app_assoc.
           split; [reflexivity|]. split; [assumption|]. now apply Hstream.
        -- destruct Hres as (-> & Hd & Hst). rewrite <- app_assoc.
           split; [reflexivity|]. split; [assumption|]. now apply Hstream.
        -- destruct Hres as (Hlen & e' & He' & Hst).
           rewrite <- app_assoc in Hlen. split; [exact Hlen|].
           exists e'. split; [assumption|]. now apply Hstream.
      * injection Hr as <- <- <-. exists consumed, [].
        split; [reflexivity|]. split; [constructor|].
        rewrite app_nil_r. split; [assumption|]. exists e. auto.
  - injection Hr as <- <- <-. exists consumed, [].
    split; [reflexivity|]. split; [constructor|].
    rewrite app_nil_r. auto.
Qed.

Lemma acquire_rounds_fuel fuel : forall acts c pool,
  wf_cont c ->
  dead c = true \/ In PeerDie acts ->
  (queue_used (inq c) + length acts < fuel)%nat ->
  acquire_rounds fuel is_reply limit acts c pool <> None.
Proof.
  induction fuel as [|fuel IH]; intros acts c pool Hwf Hend Hfuel; [lia|].
  cbn [acquire_rounds].
  destruct (arcan_shmif_wait acts c) as [[[[r oe] c1] rest1]|] eqn:Hw.
  2:{ destruct Hend as [Hd|Hdie].
      - rewrite wait_dead in Hw by assumption. discriminate.
      - exfalso. apply (wait_returns acts c Hwf); [|assumption].
        exists PeerDie. auto. }
  destruct (wait_returns_spec _ _ _ _ _ _ Hwf Hw)
    as (Hwf1 & consumed & -> & [(-> & Hd0 & _ & Hdie & e & -> & Hs)|(-> & -> & Hd & Hs)]).
  - change (1 =? 0) with false. cbv beta iota.
    destruct (is_reply e); [discriminate|].
    destruct (Nat.ltb_spec (length pool) limit); [|discriminate].
    apply IH; [assumption| |].
    + right. apply Hdie. destruct Hend as [Hd|Hin]; [congruence|assumption].
    + apply (f_equal (@length _)) in Hs.
      rewrite length_app in Hs. cbn [length] in Hs.
      destruct Hwf as [Hi _]. destruct Hwf1 as [Hi1 _].
      rewrite !length_pending in Hs by assumption.
      pose proof (length_enqueued consumed). rewrite length_app in Hfuel. lia.
  - cbn. discriminate.
Qed.

(** The rounds that buffer: as long as the events at the head of the stream
    are not the reply and the buffer can grow, each round moves one of them
    to the end of the buffer. *)
Lemma rounds_skip mid : forall fuel pre c pool tail,
  wf_cont c -> dead c = false -> ~ In PeerDie pre ->
  pending (inq c) ++ enqueued pre = mid ++ tail ->
  Forall (not_reply is_reply) mid ->
  (length pool + length mid <= limit)%nat ->
  (length (pending (inq c)) + length pre < fuel)%nat ->
  exists fuel1 pre1 c1,
    (forall post,
       acquire_rounds fuel is_reply limit (pre ++ post) c pool
       = acquire_rounds fuel1 is_reply limit (pre1 ++ post) c1 (pool ++ mid))
    /\ wf_cont c1 /\ dead c1 = false /\ ~ In PeerDie pre1
    /\ pending (inq c1) ++ enqueued pre1 = tail
    /\ (length (pending (inq c1)) + length pre1 < fuel1)%nat.
Proof.
  induction mid as [|m mid IH]; intros fuel pre c pool tail Hwf Hd Hnd Hs Hmid Hlim Hfuel.
  - exists fuel, pre, c. rewrite app_nil_r. auto 10.
  - cbn [app] in Hs.
    destruct (wait_head pre c m (mid ++ tail) Hwf Hd Hnd Hs)
      as (pre1 & c1 & Hw & Hwf1 & Hd1 & Hnd1 & Hs1 & Hlen).
    destruct fuel as [|fuel]; [lia|].
    apply List.Forall_cons_iff in Hmid as [Hm Hmid].
    cbn [length] in Hlim.
    assert (Hlim1 : (length (pool ++ [m]) + length mid <= limit)%nat)
      by (rewrite length_app; cbn [length]; lia).
    assert (Hfuel1 : (length (pending (inq c1)) + length pre1 < fuel)%nat) by lia.
    destruct (IH fuel pre1 c1 (pool ++ [m]) tail Hwf1 Hd1 Hnd1 Hs1 Hmid Hlim1 Hfuel1)
      as (fuel2 & pre2 & c2 & Heq & Hrest).
    exists fuel2, pre2, c2. split; [|exact Hrest].
    intros post. cbn [acquire_rounds]. rewrite Hw.
    change (1 =? 0) with false. cbv iota.
    unfold not_reply in Hm. rewrite Hm.
    destruct (Nat.ltb_spec (length pool) limit); [|lia].
    rewrite Heq, <- app_assoc. reflexivity.
Qed.

(** C5: the loop returns one of three things, and which one is settled by
    what is pending and what the peer does. If a reply is among the events
    pending or sent before the peer dies, and the events before the first
    one fit the buffer, the loop returns that reply with a backlog that is,
    in arrival order, every event that came before it, descriptors
    included. If the peer dies before any reply, or the connection is dead
    from the start, it returns the fatal indicator with the backlog
    gathered so far. If the buffer is full and the next event is not the
    reply, it returns the out-of-memory indicator, and only then is what
    was gathered not given back. Whatever it returns is one of these
    three, and it returns whenever the peer ends by dying. *)
Theorem acquireloop_outcomes acts c :
  wf_cont c ->
  (In PeerDie acts -> arcan_shmif_acquireloop is_reply limit acts c <> None)
  /\ (forall res c' rest,
       arcan_shmif_acquireloop is_reply limit acts c = Some (res, c', rest) ->
       exists consumed,
         acts = consumed ++ rest /\
         match res with
         | AcqReply e backlog =>
             is_reply e = true /\ Forall (not_reply is_reply) backlog
             /\ pending (inq c) ++ enqueued consumed
                = backlog ++ e :: pending (inq c')
         | AcqFatal backlog =>
             dead c' = true /\ Forall (not_reply is_reply) backlog
             /\ pending (inq c) ++ enqueued consumed = backlog ++ pending (inq c')
         | AcqOutOfMemory =>
             exists lost e,
               (limit <= length lost)%nat /\ Forall (not_reply is_reply) lost /\ not_reply is_reply e
               /\ pending (inq c) ++ enqueued consumed
                  = lost ++ e :: pending (inq c')
         end)
  /\ (forall pre post mid e tail,
        dead c = false -> acts = pre ++ post -> ~ In PeerDie pre ->
        pending (inq c) ++ enqueued pre = mid ++ e :: tail ->
        Forall (not_reply is_reply) mid -> is_reply e = true ->
        (length mid <= limit)%nat ->
        exists c' rest,
          arcan_shmif_acquireloop is_reply limit acts c = Some (AcqReply e mid, c', rest)
          /\ dead c' = false)
  /\ (forall pre post,
        dead c = false -> acts = pre ++ PeerDie :: post -> ~ In PeerDie pre ->
        Forall (not_reply is_reply) (pending (inq c) ++ enqueued pre) ->
        (length (pending (inq c) ++ enqueued pre) <= limit)%nat ->
        exists c',
          arcan_shmif_acquireloop is_reply limit acts c
          = Some (AcqFatal (pending (inq c) ++ enqueued pre), c', post)
          /\ dead c' = true)
  /\ (dead c = true ->
        arcan_shmif_acquireloop is_reply limit acts c = Some (AcqFatal [], c, acts))
  /\ (forall pre post mid e tail,
        dead c = false -> acts = pre ++ post -> ~ In PeerDie pre ->
        pending (inq c) ++ enqueued pre = mid ++ e :: tail ->
        Forall (not_reply is_reply) mid -> not_reply is_reply e ->
        length mid = limit ->
        exists c' rest,
          arcan_shmif_acquireloop is_reply limit acts c = Some (AcqOutOfMemory, c', rest)).
Proof.
  intros Hwf. unfold arcan_shmif_acquireloop.
  assert (Hfuel : forall pre post, acts = pre ++ post ->
            (length (pending (inq c)) + length pre
             < queue_used (inq c) + length acts + 1)%nat).
  { intros pre post ->. rewrite length_pending by apply Hwf. rewrite length_app. lia. }
  split; [|split; [|split; [|split; [|split]]]].
  - intros Hdie. apply acquire_rounds_fuel; [assumption|now right|lia].
  - intros res c' rest Hr.
    destruct (acquire_rounds_spec _ _ _ _ _ _ _ Hwf Hr) as (consumed & mid & -> & Hmid & Hres).
    exists consumed. split; [reflexivity|].
    destruct res as [e bl|bl|]; cbn [app] in Hres.
    + destruct Hres as (-> & He & Hs). auto.
    + destruct Hres as (-> & Hd & Hs). auto.
    + destruct Hres as (Hlen & e & He & Hs). exists mid, e. auto.
  - intros pre post mid e tail Hd Hacts Hnd Hs Hmid He Hlen. subst acts.
    destruct (rounds_skip mid _ pre c [] (e :: tail) Hwf Hd Hnd Hs Hmid Hlen
                (Hfuel pre post eq_refl))
      as (fuel1 & pre1 & c1 & Heq & Hwf1 & Hd1 & Hnd1 & Hs1 & Hf1).
    destruct (wait_head pre1 c1 e tail Hwf1 Hd1 Hnd1 Hs1)
      as (pre2 & c2 & Hw & _ & Hd2 & _).
    rewrite Heq. cbn [app].
    destruct fuel1 as [|fuel1]; [lia|].
    cbn [acquire_rounds]. rewrite Hw.
    change (1 =? 0) with false. cbv iota. rewrite He. eauto.
  - intros pre post Hd Hacts Hnd Hmid Hlen. subst acts.
    destruct (rounds_skip (pending (inq c) ++ enqueued pre) _ pre c [] [] Hwf Hd Hnd
                (eq_sym (app_nil_r _)) Hmid Hlen (Hfuel pre _ eq_refl))
      as (fuel1 & pre1 & c1 & Heq & Hwf1 & Hd1 & Hnd1 & Hs1 & Hf1).
    destruct (wait_die pre1 c1 post Hwf1 Hd1 Hnd1 Hs1) as (c2 & Hw & _ & Hd2 & _).
    rewrite Heq. cbn [app].
    destruct fuel1 as [|fuel1]; [lia|].
    cbn [acquire_rounds]. rewrite Hw. eauto.
  - intros Hd. rewrite Nat.add_1_r. cbn [acquire_rounds].
    rewrite wait_dead by assumption. reflexivity.
  - intros pre post mid e tail Hd Hacts Hnd Hs Hmid He Hlen. subst acts.
    destruct (rounds_skip mid _ pre c [] (e :: tail) Hwf Hd Hnd Hs Hmid
                (Nat.eq_le_incl _ _ Hlen) (Hfuel pre post eq_refl))
      as (fuel1 & pre1 & c1 & Heq & Hwf1 & Hd1 & Hnd1 & Hs1 & Hf1).
    destruct (wait_head pre1 c1 e tail Hwf1 Hd1 Hnd1 Hs1)
      as (pre2 & c2 & Hw & _).
    rewrite Heq. cbn [app].
    destruct fuel1 as [|fuel1]; [lia|].
    cbn [acquire_rounds]. rewrite Hw.
    change (1 =? 0) with false. cbv iota.
    unfold not_reply in He. rewrite He.
    destruct (Nat.ltb_spec (length mid) limit); [lia|]. eauto.
Qed.

End Acquire.

(** *** Instances *)

Lemma wf_fresh_cont : wf_cont fresh_cont.
Proof. unfold wf_cont, wf_queue, fresh_cont, empty_ring, slots. cbn. lia. Qed.

Lemma poll_wait_contract_witness :
  wf_cont (apply_peer fresh_cont (PeerEnqueue (ev_io 7)))
  /\ (0 < fst (fst (arcan_shmif_poll (apply_peer fresh_cont (PeerEnqueue (ev_io 7)))))
      <-> dead (apply_peer fresh_cont (PeerEnqueue (ev_io 7))) = false
          /\ front (inq (apply_peer fresh_cont (PeerEnqueue (ev_io 7))))
             <> back (inq (apply_peer fresh_cont (PeerEnqueue (ev_io 7))))).
Proof.
  assert (Hwf : wf_cont (apply_peer fresh_cont (PeerEnqueue (ev_io 7))))
    by (apply wf_apply_peer, wf_fresh_cont).
  split; [exact Hwf|].
  exact (proj1 (poll_wait_contract _ Hwf)).
Defined.

Lemma tryenqueue_is_lossy_enqueue_witness :
  wf_cont fresh_cont
  /\ arcan_shmif_enqueue [PeerDie] fresh_cont (ev_io 7) false
     = Some (fst (arcan_shmif_tryenqueue fresh_cont (ev_io 7)),
             snd (arcan_shmif_tryenqueue fresh_cont (ev_io 7)), [PeerDie]).
Proof.
  split; [exact wf_fresh_cont|].
  exact (proj1 (tryenqueue_is_lossy_enqueue fresh_cont (ev_io 7) [PeerDie] wf_fresh_cont)).
Defined.

(** The handshake of the specification with the peer alive throughout:
    three unrelated events, one of them with a descriptor, then the
    accept. *)
Lemma acquireloop_outcomes_witness :
  wf_cont fresh_cont
  /\ exists c' rest,
       arcan_shmif_acquireloop segment_reply 16
         [PeerEnqueue (ev_io 1); PeerEnqueue (ev_fd 2 5); PeerEnqueue (ev_io 3);
          PeerEnqueue ev_newsegment] fresh_cont
       = Some (AcqReply ev_newsegment [ev_io 1; ev_fd 2 5; ev_io 3], c', rest)
       /\ dead c' = false.
Proof.
  split; [exact wf_fresh_cont|].
  apply (proj1 (proj2 (proj2 (acquireloop_outcomes segment_reply 16 _ fresh_cont
                                wf_fresh_cont)))
           [PeerEnqueue (ev_io 1); PeerEnqueue (ev_fd 2 5); PeerEnqueue (ev_io 3);
            PeerEnqueue ev_newsegment] [] [ev_io 1; ev_fd 2 5; ev_io 3]
           ev_newsegment []).
  - reflexivity.
  - reflexivity.
  - cbn. intros [H|[H|[H|[H|[]]]]]; discriminate H.
  - reflexivity.
  - repeat (apply List.Forall_cons; [reflexivity|]). apply List.Forall_nil.
  - reflexivity.
  - cbn. lia.
Defined.

(** The buffering scenario of the specification: three unrelated events, one
    of them with a descriptor, then the accept. *)
Lemma acquireloop_three_then_accept :
  option_map (fun r => (fst (fst r), snd r))
    (arcan_shmif_acquireloop segment_reply 16
       [PeerEnqueue (ev_io 1); PeerEnqueue (ev_fd 2 5); PeerEnqueue (ev_io 3);
        PeerEnqueue ev_newsegment; PeerDie] fresh_cont)
  = Some (AcqReply ev_newsegment [ev_io 1; ev_fd 2 5; ev_io 3], [PeerDie]).
Proof. vm_compute. reflexivity. Qed.
End ShmifFacts.

(** ** The render-node helper *)

Module EglFacts.
Import EglDri.

(** *** Context slots *)

Lemma shl_int_small i : 0 <= i < 31 -> shl_int i = 2 ^ i.
Proof.
  intros Hi. unfold shl_int, to_int32, to_signed.
  rewrite (Z.mod_small i 32) by lia.
  rewrite Z.shiftl_mul_pow2, Z.mul_1_l by lia.
  assert (H1 : 0 < 2 ^ i) by (apply Z.pow_pos_nonneg; lia).
  assert (H2 : 2 ^ i < 2 ^ 31) by (apply Z.pow_lt_mono_r; lia).
  change (2 ^ (32 - 1)) with (2 ^ 31).
  rewrite Z.mod_small by lia.
  destruct (Z.ltb_spec (2 ^ i) (2 ^ 31)); lia.
Qed.

Lemma slot_bit_small alloc i :
  0 <= i < 31 -> slot_bit alloc i = Z.testbit alloc i.
Proof.
  intros Hi. unfold slot_bit. rewrite shl_int_small by assumption.
  unfold to_uint64.
  assert (H1 : 0 < 2 ^ i) by (apply Z.pow_pos_nonneg; lia).
  assert (H2 : 2 ^ i < 2 ^ 64) by (apply Z.pow_lt_mono_r; lia).
  rewrite Z.mod_small by lia.
  destruct (Z.testbit alloc i) eqn:Hb.
  - apply negb_true_iff, Z.eqb_neq. intros H0.
    apply (f_equal (fun z => Z.testbit z i)) in H0.
    rewrite Z.land_spec, Z.pow2_bits_true, Hb, Z.bits_0 in H0 by lia. discriminate.
  - apply negb_false_iff, Z.eqb_eq. apply Z.bits_inj'. intros n Hn.
    rewrite Z.land_spec, Z.bits_0.
    destruct (Z.eq_dec n i) as [->|Hne].
    + rewrite Hb. apply andb_false_r.
    + rewrite Z.pow2_bits_false by lia. reflexivity.
Qed.

Lemma first_free_spec alloc n : forall i r,
  first_free alloc n i = Some r ->
  i <= r < i + Z.of_nat n /\ slot_bit alloc r = false
  /\ forall j, i <= j < r -> slot_bit alloc j = true.
Proof.
  induction n as [|n IH]; intros i r H; [discriminate|].
  cbn [first_free] in H. destruct (slot_bit alloc i) eqn:Hb.
  - destruct (IH _ _ H) as (Hr & Hf & Hlow).
    split; [lia|]. split; [assumption|].
    intros j Hj. destruct (Z.eq_dec j i) as [->|Hne]; [assumption|].
    apply Hlow. lia.
  - injection H as <-. split; [lia|]. split; [assumption|]. intros j Hj. lia.
Qed.

Lemma probe_table : Libretro.all_from probe_in_bounds (Z.to_nat 64) 0 = true.
Proof. vm_compute. reflexivity. Qed.

Lemma probe_bound i :
  0 <= i < 64 -> to_uint64 (Z.shiftl i i) < 64 -> i <= 3.
Proof.
  intros Hi Hp.
  pose proof (LibretroFacts.all_from_below probe_in_bounds 64 0 i probe_table Hi) as H.
  unfold probe_in_bounds in H. apply orb_true_iff in H as [H|H].
  - apply negb_true_iff, Z.ltb_ge in H. lia.
  - now apply Z.leb_le.
Qed.

Lemma low_slot_cases i : 0 <= i <= 3 -> i = 0 \/ i = 1 \/ i = 2 \/ i = 3.
Proof. lia. Qed.

Lemma alt_read_in_bounds l idx v : alt_read l idx = Some v -> 0 <= idx < 64.
Proof.
  unfold alt_read. destruct (Z.leb_spec 0 idx), (Z.ltb_spec idx 64); cbn; try discriminate.
  lia.
Qed.

Lemma alt_read_write_same l idx v l' :
  alt_write l idx v = Some l' -> alt_read l' idx = Some v.
Proof.
  unfold alt_write, alt_read.
  destruct (Z.leb_spec 0 idx), (Z.ltb_spec idx 64), (Z.ltb_spec idx (Z.of_nat (length l)));
    cbn; try discriminate.
  intros [= <-]. apply list_lookup_insert_eq. lia.
Qed.

Lemma slot_bit_set alloc i :
  0 <= i < 31 -> slot_bit (Z.lor alloc (to_uint64 (shl_int i))) i = true.
Proof.
  intros Hi. rewrite slot_bit_small by assumption.
  rewrite shl_int_small by assumption. unfold to_uint64.
  assert (H1 : 0 < 2 ^ i) by (apply Z.pow_pos_nonneg; lia).
  assert (H2 : 2 ^ i < 2 ^ 64) by (apply Z.pow_lt_mono_r; lia).
  rewrite Z.mod_small by lia.
  rewrite Z.lor_spec, Z.pow2_bits_true by lia. apply orb_true_r.
Qed.

(** What a successful [add_context] has done. *)
Lemma add_context_ok ctx arg env n ctx' :
  add_context ctx arg env = Some (SHMIFEXT_OK, Some n, ctx') ->
  exists i,
    n = i + 1 /\ 0 <= i <= 3
    /\ Z.testbit (ctx_alloc ctx) i = false
    /\ ctx_alloc ctx' = Z.lor (ctx_alloc ctx) (2 ^ i)
    /\ alt_read (alt_contexts ctx') (2 ^ i - 1)
       = Some (create_context env (shared_sctx ctx arg) (context_attribs arg))
    /\ managed ctx' = managed ctx /\ display ctx' = display ctx
    /\ context ctx' = context ctx.
Proof.
  unfold add_context.
  destruct (negb ((api arg =? API_OPENGL) || (api arg =? API_GLES))); [discriminate|].
  destruct (first_free (ctx_alloc ctx) 64 0) as [i|] eqn:Hfree; [|discriminate].
  destruct (negb (getconfigs_ok env)); [discriminate|].
  destruct (getconfigs_nc env =? 0); [discriminate|].
  destruct (negb (chooseconfig_ok env) || (chooseconfig_nc env <? 1)); [discriminate|].
  assert (Hsctx : forall r,
            (if shared_context arg =? 0 then Some None
             else get_egl_context ctx (to_uint32 (shared_context arg))) = Some r ->
            match r with Some v => v | None => 0 end = shared_sctx ctx arg).
  { intros r Hr. unfold shared_sctx.
    destruct (shared_context arg =? 0); [now injection Hr as <-|].
    rewrite Hr. reflexivity. }
  destruct (if shared_context arg =? 0 then Some None
            else get_egl_context ctx (to_uint32 (shared_context arg))) as [found|];
    [|discriminate].
  rewrite (Hsctx found eq_refl).
  destruct (alt_write _ _ _) as [slots|] eqn:Hw; [|discriminate].
  destruct (alt_read slots _) as [probe|] eqn:Hprobe; [|discriminate].
  destruct (probe =? 0); [discriminate|].
  intros [= <- <-].
  destruct (first_free_spec _ _ _ _ Hfree) as (Hi & Hbit & _).
  apply alt_read_in_bounds in Hprobe.
  assert (Hi3 : 0 <= i <= 3) by (split; [lia|apply probe_bound; lia]).
  exists i. split; [reflexivity|]. split; [assumption|].
  rewrite slot_bit_small in Hbit by lia.
  split; [assumption|].
  assert (Hshl : shl_int i = 2 ^ i) by (apply shl_int_small; lia).
  assert (Hidx : to_int32 (shl_int i - 1) = 2 ^ i - 1).
  { destruct (low_slot_cases i Hi3) as [-> | [-> | [-> | ->]]]; reflexivity. }
  assert (Hmask : to_uint64 (shl_int i) = 2 ^ i).
  { destruct (low_slot_cases i Hi3) as [-> | [-> | [-> | ->]]]; reflexivity. }
  cbn [ctx_alloc alt_contexts managed display context set_ctx_alloc set_alt_contexts].
  rewrite Hmask. split; [reflexivity|].
  rewrite Hidx in Hw. split; [exact (alt_read_write_same _ _ _ _ Hw)|].
  auto.
Qed.

Lemma ext_internal_with c pe i :
  ext_internal (Some (with_internal c pe i))
  = Some (with_internal c pe i,
          mk_hidden (Some i) (cleanup pe) (active_fd pe) (pending_fd pe), i).
Proof. reflexivity. Qed.

Lemma internal_of_with c pe i : internal_of (Some (with_internal c pe i)) = Some i.
Proof. reflexivity. Qed.

Lemma with_internal_twice c pe i j :
  with_internal (with_internal c pe i)
    (mk_hidden (Some i) (cleanup pe) (active_fd pe) (pending_fd pe)) j
  = with_internal c pe j.
Proof. reflexivity. Qed.

Lemma add_con_ok con arg env n con' :
  arcan_shmifext_add_context con arg env = Some (n, con') -> n <> 0 ->
  exists c pe ctx ctx',
    ext_internal con = Some (c, pe, ctx) /\ display ctx <> 0
    /\ add_context ctx arg env = Some (SHMIFEXT_OK, Some n, ctx')
    /\ con' = Some (with_internal c pe ctx').
Proof.
  unfold arcan_shmifext_add_context. intros H Hn.
  destruct (ext_internal con) as [[[c pe] ctx]|] eqn:He; [|injection H as <- _; lia].
  destruct (Z.eqb_spec (display ctx) 0) as [|Hd]; [injection H as <- _; lia|].
  destruct (add_context ctx arg env) as [[[st ind] ctx']|] eqn:Ha; [|discriminate].
  destruct st, ind as [res|]; injection H as <- <-; try lia.
  exists c, pe, ctx, ctx'. auto.
Qed.

(** A count of 32 or more shifts by what is left of it modulo 32, so an
    index and the index 32 above it test the same bit and read the same
    entry. *)
Lemma shl_int_wraps ind : shl_int (ind + 32) = shl_int ind.
Proof.
  unfold shl_int. replace (ind + 32) with (ind + 1 * 32) by lia.
  rewrite Z_mod_plus_full. reflexivity.
Qed.

Lemma get_egl_context_wraps ctx ind :
  0 <= ind < 32 -> get_egl_context ctx (ind + 32) = get_egl_context ctx ind.
Proof.
  intros Hi. unfold get_egl_context, slot_bit. rewrite shl_int_wraps.
  destruct (Z.leb_spec 64 (ind + 32)); [lia|].
  destruct (Z.leb_spec 64 ind); [lia|]. reflexivity.
Qed.

(** After a successful [add_context] on a managed record the slot it names
    is found, holding what EGL returned. *)
Lemma get_after_add ctx arg env n ctx' :
  managed ctx = true ->
  add_context ctx arg env = Some (SHMIFEXT_OK, Some n, ctx') ->
  1 <= n <= 4 /\ display ctx' = display ctx
  /\ ctx_alloc ctx' = Z.lor (ctx_alloc ctx) (2 ^ (n - 1))
  /\ get_egl_context ctx' (n - 1)
     = Some (Some (create_context env (shared_sctx ctx arg) (context_attribs arg))).
Proof.
  intros Hm Ha.
  destruct (add_context_ok _ _ _ _ _ Ha) as (i & -> & Hi & Hfree & Halloc & Hread & Hm' & Hd' & _).
  replace (i + 1 - 1) with i by lia.
  split; [lia|]. split; [assumption|]. split; [assumption|].
  unfold get_egl_context.
  destruct (Z.leb_spec 64 i); [lia|].
  rewrite Hm', Hm. cbn [negb orb].
  assert (Hbit : slot_bit (ctx_alloc ctx') i = true).
  { rewrite slot_bit_small, Halloc, Z.lor_spec, Z.pow2_bits_true by lia.
    apply orb_true_r. }
  rewrite Hbit. cbn [negb].
  assert (Hidx : to_int32 (shl_int i - 1) = 2 ^ i - 1).
  { destruct (low_slot_cases i Hi) as [-> | [-> | [-> | ->]]]; reflexivity. }
  rewrite Hidx, Hread. reflexivity.
Qed.

Lemma swap_after_add c pe ctx arg env n ctx' w :
  managed ctx = true -> display ctx <> 0 ->
  add_context ctx arg env = Some (SHMIFEXT_OK, Some n, ctx') ->
  arcan_shmifext_swap_context (Some (with_internal c pe ctx')) n w
  = Some (Some (with_internal c pe
                  (set_context ctx' (n - 1)
                     (create_context env (shared_sctx ctx arg) (context_attribs arg)))),
          w_make_current w (create_context env (shared_sctx ctx arg) (context_attribs arg))).
Proof.
  intros Hm Hd Ha.
  destruct (get_after_add _ _ _ _ _ Hm Ha) as (Hn & Hd' & _ & Hget).
  unfold arcan_shmifext_swap_context. rewrite ext_internal_with.
  rewrite Hd'.
  destruct (Z.eqb_spec (display ctx) 0); [contradiction|].
  destruct (Z.ltb_spec 64 n); [lia|].
  destruct (Z.eqb_spec n 0); [lia|].
  cbn [orb]. rewrite Hget. reflexivity.
Qed.

(** The same reference with 32 added to it: the slot is found again. *)
Lemma swap_alias_after_add c pe ctx arg env n ctx' w :
  managed ctx = true -> display ctx <> 0 ->
  add_context ctx arg env = Some (SHMIFEXT_OK, Some n, ctx') ->
  arcan_shmifext_swap_context (Some (with_internal c pe ctx')) (n + 32) w
  = Some (Some (with_internal c pe
                  (set_context ctx' (n + 32 - 1)
                     (create_context env (shared_sctx ctx arg) (context_attribs arg)))),
          w_make_current w (create_context env (shared_sctx ctx arg) (context_attribs arg))).
Proof.
  intros Hm Hd Ha.
  destruct (get_after_add _ _ _ _ _ Hm Ha) as (Hn & Hd' & _ & Hget).
  unfold arcan_shmifext_swap_context. rewrite ext_internal_with.
  rewrite Hd'.
  destruct (Z.eqb_spec (display ctx) 0); [contradiction|].
  destruct (Z.ltb_spec 64 (n + 32)); [lia|].
  destruct (Z.eqb_spec (n + 32) 0); [lia|].
  cbn [orb].
  assert (Hwrap : get_egl_context ctx' (n + 32 - 1) = get_egl_context ctx' (n - 1)).
  { replace (n + 32 - 1) with (n - 1 + 32) by lia. apply get_egl_context_wraps. lia. }
  rewrite Hwrap, Hget. reflexivity.
Qed.

Lemma swap_unallocated con i n w :
  internal_of con = Some i -> 0 <= n <= 31 ->
  Z.testbit (ctx_alloc i) (n - 1) = false ->
  arcan_shmifext_swap_context con n w = Some (con, w).
Proof.
  unfold internal_of, arcan_shmifext_swap_context. intros Hi Hn Hbit.
  destruct (ext_internal con) as [[[c pe] ctx]|]; [|reflexivity].
  injection Hi as ->.
  destruct ((display i =? 0) || (64 <? n) || (n =? 0)) eqn:Hg; [reflexivity|].
  apply orb_false_iff in Hg as [Hg Hn0]. apply Z.eqb_neq in Hn0.
  unfold get_egl_context.
  destruct (Z.leb_spec 64 (n - 1)); [reflexivity|].
  destruct (managed i); [|reflexivity]. cbn [negb orb].
  rewrite slot_bit_small by lia. rewrite Hbit. reflexivity.
Qed.

(** C10: a reference that [arcan_shmifext_add_context] returns on a managed
    context names the slot it has just filled, so swapping to it makes
    current the context this call obtained from EGL; swapping to 0, or to a
    reference up to 31 whose bit of the mask is clear, changes neither the
    connection nor what is current. A reference above 32 is not covered by
    this: [get_egl_context] shifts by the reference less one, the shift
    count is taken modulo 32, and so the reference 32 above the one just
    returned, which no call has handed out and whose own bit of the mask is
    clear, makes the same context current and records itself as the
    current index. *)
Theorem swap_context_reference_wraps :
  (forall con arg env n con' w i0,
     arcan_shmifext_add_context con arg env = Some (n, con') -> n <> 0 ->
     internal_of con = Some i0 -> managed i0 = true ->
     let created := create_context env (shared_sctx i0 arg) (context_attribs arg) in
     exists con'' i'',
       arcan_shmifext_swap_context con' n w = Some (con'', w_make_current w created)
       /\ internal_of con'' = Some i''
       /\ context i'' = created /\ context_ind i'' = n - 1)
  /\ (forall con w, arcan_shmifext_swap_context con 0 w = Some (con, w))
  /\ (forall con i n w,
        internal_of con = Some i -> 0 <= n <= 31 ->
        Z.testbit (ctx_alloc i) (n - 1) = false ->
        arcan_shmifext_swap_context con n w = Some (con, w))
  /\ (forall con arg env n con' w i0,
        arcan_shmifext_add_context con arg env = Some (n, con') -> n <> 0 ->
        internal_of con = Some i0 -> managed i0 = true ->
        Z.testbit (ctx_alloc i0) (n + 32 - 1) = false ->
        let created := create_context env (shared_sctx i0 arg) (context_attribs arg) in
        exists i' con'' i'',
          internal_of con' = Some i'
          /\ Z.testbit (ctx_alloc i') (n + 32 - 1) = false
          /\ arcan_shmifext_swap_context con' (n + 32) w
             = Some (con'', w_make_current w created)
          /\ internal_of con'' = Some i''
          /\ context i'' = created /\ context_ind i'' = n + 32 - 1).
Proof.
  split; [|split; [|split]].
  - intros con arg env n con' w i0 Ha Hn Hi Hm created.
    destruct (add_con_ok _ _ _ _ _ Ha Hn) as (c & pe & ctx & ctx' & He & Hd & Hadd & ->).
    unfold internal_of in Hi. rewrite He in Hi. injection Hi as <-.
    rewrite (swap_after_add c pe ctx arg env n ctx' w Hm Hd Hadd).
    eexists _, _. split; [reflexivity|]. split; [apply internal_of_with|].
    split; reflexivity.
  - intros con w. unfold arcan_shmifext_swap_context.
    destruct (ext_internal con) as [[[c pe] ctx]|]; [|reflexivity].
    rewrite orb_true_r. reflexivity.
  - apply swap_unallocated.
  - intros con arg env n con' w i0 Ha Hn Hi Hm Hbit created.
    destruct (add_con_ok _ _ _ _ _ Ha Hn) as (c & pe & ctx & ctx' & He & Hd & Hadd & ->).
    unfold internal_of in Hi. rewrite He in Hi. injection Hi as <-.
    destruct (get_after_add _ _ _ _ _ Hm Hadd) as (Hr & _ & Halloc & _).
    exists ctx'. rewrite (swap_alias_after_add c pe ctx arg env n ctx' w Hm Hd Hadd).
    eexists _, _. split; [apply internal_of_with|]. split.
    + rewrite Halloc, Z.lor_spec, Hbit, Z.pow2_bits_false by lia. reflexivity.
    + split; [reflexivity|]. split; [apply internal_of_with|]. split; reflexivity.
Qed.

(** *** Handle export *)


Lemma in_close w fd x :
  In x (open_fds (w_close w fd)) <-> In x (open_fds w) /\ x <> fd.
Proof.
  unfold w_close. cbn [open_fds]. rewrite filter_In.
  rewrite negb_true_iff, Z.eqb_neq. reflexivity.
Qed.















(** *** Signalling a frame *)

Lemma gltex_export_true fns c pe ctx1 w1 o r :
  gltex_export fns c pe ctx1 w1 o = Some r -> gr_ret r = true ->
  exists fd stride fourcc,
    gr_dhandle r = Some fd /\ gr_dstride r = Some stride /\ gr_dfmt r = Some fourcc
    /\ In fd (open_fds (gr_world r)).
Proof.
  unfold gltex_export, w_new_image, w_new_fd.
  destruct (create_image fns); [|discriminate]. cbn [negb].
  destruct (o_create o); cbv zeta;
    [|cbn; intros [= <-] Hret; discriminate Hret].
  destruct (_ =? 0); [intros [= <-] Hret; discriminate Hret|].
  destruct (query_image_format fns); [|discriminate]. cbn [negb].
  destruct (o_query o); [|intros [= <-] Hret; discriminate Hret]. cbn [negb].
  destruct (o_nplanes o =? 1); [|intros [= <-] Hret; discriminate Hret]. cbn [negb].
  destruct (export_dmabuf fns); [|discriminate]. cbn [negb].
  destruct (o_export o); cbn [negb].
  2:{ destruct (destroy_image fns); [|discriminate].
      intros [= <-] Hret; discriminate Hret. }
  destruct (to_int32 (o_stride o) <? 0).
  { destruct (destroy_image fns); [|discriminate].
    intros [= <-] Hret; discriminate Hret. }
  intros [= <-] _. cbn. eauto 10.
Qed.

Lemma prepare_keeps_nopass c ctx dpy tex o p :
  signal_prepare c ctx dpy tex o = Some p ->
  match p with
  | PrepRejected => True
  | PrepFallback _ ctx1 => nopass ctx = true /\ ctx1 = ctx
  | PrepExport _ ctx1 => nopass ctx1 = nopass ctx
  end.
Proof.
  unfold signal_prepare.
  repeat match goal with
         | |- context [if ?b then _ else _] => destruct b eqn:?
         | |- context [match buf_cur ctx with _ => _ end] => destruct (buf_cur ctx) as [[]|]
         end; try discriminate; intros [= <-]; cbn; auto.
Qed.

(** The first part of the signal is defined whenever a texture is named,
    or the built-in one is asked for with a staging buffer selected or with
    no render target and the no-pass flag set. *)
Lemma prepare_defined c ctx dpy tex o :
  (if dpy =? 0 then display ctx else dpy) <> 0 ->
  (tex = SHMIFEXT_BUILTIN ->
   managed ctx = true
   /\ (buf_cur ctx <> None \/ (rtgt_cur ctx = 0 /\ nopass ctx = true))) ->
  exists p, signal_prepare c ctx dpy tex o = Some p /\ p <> PrepRejected.
Proof.
  intros Hd Hb. unfold signal_prepare.
  destruct (Z.eqb_spec (if dpy =? 0 then display ctx else dpy) 0); [contradiction|].
  destruct (Z.eqb_spec tex SHMIFEXT_BUILTIN) as [E|_];
    [|eexists; split; [reflexivity|discriminate]].
  destruct (Hb E) as (-> & Hbuf). cbn [negb].
  destruct (Z.eqb_spec (rtgt_cur ctx) 0) as [Er|Er].
  - destruct (nopass ctx) eqn:Hn; [eexists; split; [reflexivity|discriminate]|].
    destruct (buf_cur ctx) as [b|]; [eexists; split; [reflexivity|discriminate]|].
    destruct Hbuf as [Hbuf|[_ Hbuf]]; [contradiction|discriminate].
  - destruct (buf_cur ctx) as [b|]; [eexists; split; [reflexivity|discriminate]|].
    destruct Hbuf as [Hbuf|[Hbuf _]]; contradiction.
Qed.

(** With all four functions resolved the export always returns. *)
Lemma gltex_handle_resolved con dpy tex o w :
  exists r, arcan_shmifext_gltex_handle all_resolved con dpy tex o w = Some r.
Proof.
  unfold arcan_shmifext_gltex_handle.
  destruct (ext_internal con) as [[[c pe] ctx]|]; [|eauto].
  destruct (negb (addr c)); [eauto|].
  unfold gltex_invalidate, all_resolved. cbn [destroy_image].
  assert (Hexp : forall ctx1 w1, exists r,
            gltex_export (mk_fns true true true true) c pe ctx1 w1 o = Some r).
  { intros ctx1 w1. unfold gltex_export.
    cbn [create_image destroy_image query_image_format export_dmabuf negb].
    destruct (if o_create o then w_new_image w1 else (0, w1)) as [img w2].
    destruct (img =? 0); [eauto|].
    destruct (negb (o_query o)); [eauto|].
    destruct (negb (o_nplanes o =? 1)); [eauto|].
    destruct (negb (o_export o)); [eauto|].
    destruct (w_new_fd w2) as [fd w3].
    destruct (to_int32 (o_stride o) <? 0); eauto. }
  destruct (image ctx =? 0); apply Hexp.
Qed.

(** C6: a call that signals a frame at all (one that the guards at its head
    do not turn away with -1) hands it over by synchronous readback exactly
    when the no-pass flag is set, or [create_image] did not resolve, or the
    export reports failure; otherwise it passes the descriptor that the
    export produced. Such a call returns whenever the flag is set,
    [create_image] did not resolve or all four functions resolved. It does
    not whenever [create_image] resolved and [query_image_format] or
    [export_dmabuf] did not: the test before the export looks at
    [create_image] alone, the export is entered and calls through the
    pointer that is null, and no readback takes place. The flag is what
    [arcan_shmifext_bufferfail] was told, or set whenever the environment
    asks for no descriptor passing. *)
Theorem signal_unresolved_export_no_readback :
  (forall fns con dpy mask_arg tex o w ret d con' w',
     arcan_shmifext_signal fns con dpy mask_arg tex o w = Some (ret, d, con', w') ->
     d <> Rejected ->
     exists i,
       internal_of con = Some i
       /\ ret = clamp_int (s_elapsed o)
       /\ (is_readback d = true <->
           nopass i = true \/ create_image fns = false
           \/ exists r, signal_export fns con dpy tex o w = Some r /\ gr_ret r = false)
       /\ (is_readback d = false ->
           exists r fd stride fourcc,
             signal_export fns con dpy tex o w = Some r /\ gr_ret r = true
             /\ gr_dhandle r = Some fd /\ d = ByHandle fd stride fourcc
             /\ In fd (open_fds w')))
  /\ (forall fns con c pe ctx dpy mask_arg tex o w,
        ext_internal con = Some (c, pe, ctx) -> addr c = true ->
        (if dpy =? 0 then display ctx else dpy) <> 0 ->
        (tex = SHMIFEXT_BUILTIN ->
         managed ctx = true
         /\ (buf_cur ctx <> None \/ (rtgt_cur ctx = 0 /\ nopass ctx = true))) ->
        nopass ctx = true \/ create_image fns = false \/ fns = all_resolved ->
        exists ret d con' w',
          arcan_shmifext_signal fns con dpy mask_arg tex o w = Some (ret, d, con', w')
          /\ d <> Rejected)
  /\ (forall fns con c pe ctx dpy mask_arg tex o w,
        ext_internal con = Some (c, pe, ctx) -> addr c = true ->
        (if dpy =? 0 then display ctx else dpy) <> 0 ->
        tex <> SHMIFEXT_BUILTIN ->
        nopass ctx = false -> create_image fns = true ->
        o_create (s_export o) = true -> 0 <= next_handle w ->
        query_image_format fns = false
        \/ (o_query (s_export o) = true /\ o_nplanes (s_export o) = 1
            /\ export_dmabuf fns = false) ->
        arcan_shmifext_signal fns con dpy mask_arg tex o w = None)
  /\ (forall no_fdpass con st i,
        internal_of con = Some i ->
        exists i', internal_of (arcan_shmifext_bufferfail no_fdpass con st) = Some i'
                   /\ nopass i' = no_fdpass || st).
Proof.
  split; [|split; [|split]].
  - intros fns con dpy mask_arg tex o w ret d con' w' Hs Hd.
    unfold arcan_shmifext_signal in Hs. unfold signal_export, internal_of.
    destruct (ext_internal con) as [[[c pe] ctx]|] eqn:He;
      [|injection Hs as _ <- _ _; contradiction].
    exists ctx. split; [reflexivity|].
    destruct (addr c) eqn:Ha; cbn [negb] in Hs;
      [|injection Hs as _ <- _ _; contradiction].
    destruct (signal_prepare c ctx dpy tex o) as [p|] eqn:Hp; [|discriminate].
    pose proof (prepare_keeps_nopass _ _ _ _ _ _ Hp) as Hnp.
    destruct p as [|tex1 ctx1|tex1 ctx1].
    + injection Hs as _ <- _ _. contradiction.
    + injection Hs as <- <- _ _. destruct Hnp as [Hnp _].
      split; [reflexivity|]. split; [|discriminate].
      split; [auto|reflexivity].
    + destruct (nopass ctx1 || negb (create_image fns)) eqn:Hgate.
      * injection Hs as <- <- _ _. split; [reflexivity|]. split; [|discriminate].
        split; [|reflexivity]. intros _.
        apply orb_true_iff in Hgate as [Hn|Hc].
        -- left. congruence.
        -- right. left. now apply negb_true_iff.
      * apply orb_false_iff in Hgate as [Hn Hc]. apply negb_false_iff in Hc.
        destruct (arcan_shmifext_gltex_handle fns (Some (with_internal c pe ctx1)) dpy tex1
                    (s_export o) w) as [r|] eqn:Hr; [|discriminate].
        assert (Hout : gr_ret r = true ->
                  exists fd stride fourcc,
                    gr_dhandle r = Some fd /\ gr_dstride r = Some stride
                    /\ gr_dfmt r = Some fourcc /\ In fd (open_fds (gr_world r))).
        { intros Hret. unfold arcan_shmifext_gltex_handle in Hr.
          rewrite ext_internal_with in Hr. cbn [addr with_internal] in Hr.
          rewrite Ha in Hr. cbn [negb] in Hr.
          destruct (gltex_invalidate fns ctx1 w) as [[ctx2 w2]|]; [|discriminate].
          destruct (gltex_export_true _ _ _ _ _ _ _ Hr Hret)
            as (fd & stride & fourcc & H1 & H2 & H3 & H4).
          eauto 10. }
        destruct (gr_ret r) eqn:Hret.
        -- destruct (Hout eq_refl) as (fd & stride & fourcc & H1 & H2 & H3 & H4).
           rewrite H1, H2, H3 in Hs. injection Hs as <- <- _ <-.
           split; [reflexivity|]. split.
           ++ split; [discriminate|].
              intros [Hn'|[Hc'|(r' & Hr' & Hf)]]; congruence.
           ++ intros _. exists r, fd, stride, fourcc. auto 10.
        -- assert (Hs' : Some (clamp_int (s_elapsed o), ByReadback tex1, gr_con r, gr_world r)
                         = Some (ret, d, con', w')).
           { rewrite <- Hs. destruct (gr_dhandle r), (gr_dstride r), (gr_dfmt r); reflexivity. }
           injection Hs' as <- <- _ _.
           split; [reflexivity|]. split; [|discriminate].
           split; [|reflexivity]. intros _. right. right. exists r. auto.
  - intros fns con c pe ctx dpy mask_arg tex o w He Ha Hd Hb Hres.
    unfold arcan_shmifext_signal. rewrite He, Ha. cbn [negb].
    destruct (prepare_defined c ctx dpy tex o Hd Hb) as (p & Hp & Hrej).
    rewrite Hp. pose proof (prepare_keeps_nopass _ _ _ _ _ _ Hp) as Hnp.
    destruct p as [|tex1 ctx1|tex1 ctx1]; [contradiction| |].
    + do 4 eexists. split; [reflexivity|discriminate].
    + destruct (nopass ctx1 || negb (create_image fns)) eqn:Hgate;
        [do 4 eexists; split; [reflexivity|discriminate]|].
      apply orb_false_iff in Hgate as [Hn Hc]. apply negb_false_iff in Hc.
      destruct Hres as [Hres|[Hres| ->]]; [congruence|congruence|].
      destruct (gltex_handle_resolved (Some (with_internal c pe ctx1)) dpy tex1
                  (s_export o) w) as (r & ->).
      destruct (gr_ret r), (gr_dhandle r), (gr_dstride r), (gr_dfmt r);
        do 4 eexists; (split; [reflexivity|discriminate]).
  - intros fns con c pe ctx dpy mask_arg tex o w He Ha Hd Hb Hn Hc Hoc Hnh Hun.
    unfold arcan_shmifext_signal. rewrite He, Ha. cbn [negb].
    unfold signal_prepare.
    destruct (Z.eqb_spec (if dpy =? 0 then display ctx else dpy) 0); [contradiction|].
    destruct (Z.eqb_spec tex SHMIFEXT_BUILTIN); [contradiction|].
    rewrite Hn, Hc. cbn [negb orb].
    unfold arcan_shmifext_gltex_handle. rewrite ext_internal_with.
    cbn [addr with_internal]. rewrite Ha. cbn [negb].
    assert (Hexp : forall c1 pe1 ctx1 w1, next_handle w1 = next_handle w ->
              gltex_export fns c1 pe1 ctx1 w1 (s_export o) = None).
    { intros c1 pe1 ctx1 w1 Hw1. unfold gltex_export. rewrite Hc, Hoc. cbn [negb].
      unfold w_new_image. rewrite Hw1.
      destruct (Z.eqb_spec (next_handle w + 1) 0); [lia|].
      destruct Hun as [Hq|(Hq & Hp & He')].
      - rewrite Hq. reflexivity.
      - destruct (query_image_format fns); [|reflexivity]. cbn [negb].
        rewrite Hq, Hp, He'. reflexivity. }
    unfold gltex_invalidate.
    destruct (image ctx =? 0); [rewrite Hexp by reflexivity; reflexivity|].
    destruct (destroy_image fns); [|reflexivity].
    rewrite Hexp by reflexivity. reflexivity.
  - intros no_fdpass con st i Hi. unfold arcan_shmifext_bufferfail, internal_of in *.
    destruct (ext_internal con) as [[[c pe] i0]|]; [|discriminate].
    injection Hi as ->. rewrite ext_internal_with.
    eexists. split; [reflexivity|]. destruct no_fdpass; reflexivity.
Qed.


(** *** Instances *)

Lemma swap_context_reference_wraps_witness :
  exists i' con'' i'',
    internal_of (con_of (set_ctx_alloc
                   (set_alt_contexts managed_internal (<[0%nat := 4242]> (repeat 0 64))) 1))
    = Some i'
    /\ Z.testbit (ctx_alloc i') (1 + 32 - 1) = false
    /\ arcan_shmifext_swap_context
         (con_of (set_ctx_alloc
                    (set_alt_contexts managed_internal (<[0%nat := 4242]> (repeat 0 64))) 1))
         (1 + 32) fresh_world
       = Some (con'', w_make_current fresh_world 4242)
    /\ internal_of con'' = Some i''
    /\ context i'' = 4242 /\ context_ind i'' = 1 + 32 - 1.
Proof.
  apply (proj2 (proj2 (proj2 swap_context_reference_wraps)) (con_of managed_internal)
           default_setup (egl_creates 4242) 1 _ fresh_world managed_internal);
    [reflexivity | lia | reflexivity | reflexivity | reflexivity].
Defined.

Lemma signal_unresolved_export_no_readback_witness :
  arcan_shmifext_signal (fst (check_functions [true; true; true; false]))
    (con_of managed_internal) 0 0 11 sig_export_ok fresh_world = None.
Proof.
  apply (proj1 (proj2 (proj2 signal_unresolved_export_no_readback))
           (fst (check_functions [true; true; true; false]))
           (con_of managed_internal) _ _ managed_internal 0 0 11 sig_export_ok
           fresh_world eq_refl eq_refl);
    [ cbn; lia | unfold SHMIFEXT_BUILTIN; lia | reflexivity | reflexivity
    | reflexivity | cbn; lia | right; repeat split; reflexivity ].
Defined.

End EglFacts.

(** ** More facts about the render-node helper *)

Module EglMoreFacts.
Import EglDri EglFacts EglMore.

(** *** Failure of [add_context] *)

(** The outcomes of [add_context]. *)
Lemma add_context_outcomes ctx arg env st ind ctx' :
  add_context ctx arg env = Some (st, ind, ctx') ->
  (st = SHMIFEXT_NO_API \/ st = SHMIFEXT_OUT_OF_MEMORY \/ st = SHMIFEXT_NO_CONFIG
   \/ st = SHMIFEXT_NO_CONTEXT \/ st = SHMIFEXT_OK)
  /\ (st <> SHMIFEXT_OK -> ind = None /\ ctx_alloc ctx' = ctx_alloc ctx)
  /\ (st <> SHMIFEXT_OK -> st <> SHMIFEXT_NO_CONTEXT -> ctx' = ctx)
  /\ (st = SHMIFEXT_NO_CONTEXT ->
      exists slots, ctx' = set_alt_contexts ctx slots
                    /\ length slots = length (alt_contexts ctx))
  /\ (api arg <> API_OPENGL -> api arg <> API_GLES -> st = SHMIFEXT_NO_API).
Proof.
  unfold add_context.
  destruct (Z.eqb_spec (api arg) API_OPENGL) as [Ho|Ho];
    destruct (Z.eqb_spec (api arg) API_GLES) as [Hg|Hg]; cbn [orb negb];
    try (intros [= <- <- <-]; repeat split; auto; try congruence; tauto);
    (destruct (first_free (ctx_alloc ctx) 64 0) as [i|];
       [|intros [= <- <- <-]; repeat split; auto; congruence]);
    (destruct (negb (getconfigs_ok env));
       [intros [= <- <- <-]; repeat split; auto; congruence|]);
    (destruct (getconfigs_nc env =? 0);
       [intros [= <- <- <-]; repeat split; auto; congruence|]);
    (destruct (negb (chooseconfig_ok env) || (chooseconfig_nc env <? 1));
       [intros [= <- <- <-]; repeat split; auto; congruence|]);
    (destruct (if shared_context arg =? 0 then Some None
               else get_egl_context ctx (to_uint32 (shared_context arg))) as [found|];
       [|discriminate]);
    (destruct (alt_write _ _ _) as [slots|] eqn:Hw; [|discriminate]);
    (destruct (alt_read slots _) as [probe|]; [|discriminate]);
    (destruct (probe =? 0); intros [= <- <- <-];
       repeat split; auto; try congruence);
    try (intros _; exists slots; split; [reflexivity|];
         unfold alt_write in Hw;
         destruct (_ && _) in Hw; [|discriminate];
         injection Hw as <-; apply length_insert).
Qed.

(** What [add_context] has done when it ends in [SHMIFEXT_NO_CONTEXT]. *)
Lemma add_context_no_context ctx arg env ind ctx' :
  add_context ctx arg env = Some (SHMIFEXT_NO_CONTEXT, ind, ctx') ->
  let created := create_context env (shared_sctx ctx arg) (context_attribs arg) in
  exists i,
    first_free (ctx_alloc ctx) 64 0 = Some i
    /\ 0 <= to_int32 (shl_int i - 1) < 64
    /\ ctx' = set_alt_contexts ctx
                (<[Z.to_nat (to_int32 (shl_int i - 1)) := created]> (alt_contexts ctx))
    /\ alt_read (alt_contexts ctx') (to_int32 (shl_int i - 1)) = Some created
    /\ alt_read (alt_contexts ctx') (to_uint64 (Z.shiftl i i)) = Some 0.
Proof.
  unfold add_context.
  destruct (negb ((api arg =? API_OPENGL) || (api arg =? API_GLES))); [discriminate|].
  destruct (first_free (ctx_alloc ctx) 64 0) as [i|] eqn:Hfree; [|discriminate].
  destruct (negb (getconfigs_ok env)); [discriminate|].
  destruct (getconfigs_nc env =? 0); [discriminate|].
  destruct (negb (chooseconfig_ok env) || (chooseconfig_nc env <? 1)); [discriminate|].
  assert (Hsctx : forall r,
            (if shared_context arg =? 0 then Some None
             else get_egl_context ctx (to_uint32 (shared_context arg))) = Some r ->
            match r with Some v => v | None => 0 end = shared_sctx ctx arg).
  { intros r Hr. unfold shared_sctx.
    destruct (shared_context arg =? 0); [now injection Hr as <-|].
    rewrite Hr. reflexivity. }
  destruct (if shared_context arg =? 0 then Some None
            else get_egl_context ctx (to_uint32 (shared_context arg))) as [found|];
    [|discriminate].
  rewrite (Hsctx found eq_refl).
  destruct (alt_write _ _ _) as [slots|] eqn:Hw; [|discriminate].
  destruct (alt_read slots _) as [probe|] eqn:Hprobe; [|discriminate].
  destruct (Z.eqb_spec probe 0) as [->|_]; [|discriminate].
  intros [= <- <-]. exists i. split; [reflexivity|].
  pose proof (alt_read_write_same _ _ _ _ Hw) as Hsame.
  split; [exact (alt_read_in_bounds _ _ _ Hsame)|].
  cbn [alt_contexts set_alt_contexts].
  split; [|split; assumption].
  unfold alt_write in Hw. destruct (_ && _) in Hw; [|discriminate].
  injection Hw as <-. reflexivity.
Qed.

(** The three failures that come before anything is stored. *)
Lemma add_context_early_failures ctx arg env :
  (api arg <> API_OPENGL -> api arg <> API_GLES ->
   add_context ctx arg env = Some (SHMIFEXT_NO_API, None, ctx))
  /\ (api arg = API_OPENGL \/ api arg = API_GLES ->
      first_free (ctx_alloc ctx) 64 0 = None ->
      add_context ctx arg env = Some (SHMIFEXT_OUT_OF_MEMORY, None, ctx))
  /\ (api arg = API_OPENGL \/ api arg = API_GLES ->
      first_free (ctx_alloc ctx) 64 0 <> None ->
      getconfigs_ok env = false \/ getconfigs_nc env = 0
      \/ chooseconfig_ok env = false \/ chooseconfig_nc env < 1 ->
      add_context ctx arg env = Some (SHMIFEXT_NO_CONFIG, None, ctx)).
Proof.
  assert (Hapi : api arg = API_OPENGL \/ api arg = API_GLES ->
            negb ((api arg =? API_OPENGL) || (api arg =? API_GLES)) = false).
  { intros [E|E]; rewrite E, Z.eqb_refl; [reflexivity|].
    rewrite orb_true_r. reflexivity. }
  unfold add_context. split; [|split].
  - intros Ho Hg.
    destruct (Z.eqb_spec (api arg) API_OPENGL); [contradiction|].
    destruct (Z.eqb_spec (api arg) API_GLES); [contradiction|]. reflexivity.
  - intros Ha Hfree. rewrite (Hapi Ha), Hfree. reflexivity.
  - intros Ha Hfree Hcfg. rewrite (Hapi Ha).
    destruct (first_free (ctx_alloc ctx) 64 0) as [i|]; [|contradiction].
    destruct (getconfigs_ok env) eqn:G1; [|reflexivity]. cbn [negb].
    destruct (Z.eqb_spec (getconfigs_nc env) 0) as [|G2]; [reflexivity|].
    destruct (chooseconfig_ok env) eqn:G3; [|reflexivity]. cbn [negb orb].
    destruct (Z.ltb_spec (chooseconfig_nc env) 1) as [|G4]; [reflexivity|].
    destruct Hcfg as [Hx|[Hx|[Hx|Hx]]]; [congruence|contradiction|congruence|lia].
Qed.

(** X11: [add_context] ends in one of five states.  An API other than
    OpenGL or GLES is turned away before anything else is looked at, a
    full mask gives [SHMIFEXT_OUT_OF_MEMORY] and an EGL without a
    configuration [SHMIFEXT_NO_CONFIG], each leaving the record as it was.
    Short of success the call writes no index and leaves the allocation
    mask alone; it leaves the whole record alone unless the state is
    [SHMIFEXT_NO_CONTEXT]. In that state the one change is that what
    [eglCreateContext] returned has been stored in
    [alt_contexts[(1 << i)-1]], [i] the first free slot, where it stays,
    while the entry the call then tested, [alt_contexts[i << i]], holds
    null. *)
Theorem add_context_failure_effects ctx arg env :
  (api arg <> API_OPENGL -> api arg <> API_GLES ->
   add_context ctx arg env = Some (SHMIFEXT_NO_API, None, ctx))
  /\ (api arg = API_OPENGL \/ api arg = API_GLES ->
      first_free (ctx_alloc ctx) 64 0 = None ->
      add_context ctx arg env = Some (SHMIFEXT_OUT_OF_MEMORY, None, ctx))
  /\ (api arg = API_OPENGL \/ api arg = API_GLES ->
      first_free (ctx_alloc ctx) 64 0 <> None ->
      getconfigs_ok env = false \/ getconfigs_nc env = 0
      \/ chooseconfig_ok env = false \/ chooseconfig_nc env < 1 ->
      add_context ctx arg env = Some (SHMIFEXT_NO_CONFIG, None, ctx))
  /\ (forall st ind ctx',
        add_context ctx arg env = Some (st, ind, ctx') ->
        (st = SHMIFEXT_NO_API \/ st = SHMIFEXT_OUT_OF_MEMORY \/ st = SHMIFEXT_NO_CONFIG
         \/ st = SHMIFEXT_NO_CONTEXT \/ st = SHMIFEXT_OK)
        /\ (st <> SHMIFEXT_OK -> ind = None /\ ctx_alloc ctx' = ctx_alloc ctx)
        /\ (st <> SHMIFEXT_OK -> st <> SHMIFEXT_NO_CONTEXT -> ctx' = ctx)
        /\ (st = SHMIFEXT_NO_CONTEXT ->
            let created :=
              create_context env (shared_sctx ctx arg) (context_attribs arg) in
            exists i,
              first_free (ctx_alloc ctx) 64 0 = Some i
              /\ 0 <= to_int32 (shl_int i - 1) < 64
              /\ ctx' = set_alt_contexts ctx
                          (<[Z.to_nat (to_int32 (shl_int i - 1)) := created]>
                             (alt_contexts ctx))
              /\ alt_read (alt_contexts ctx') (to_int32 (shl_int i - 1)) = Some created
              /\ alt_read (alt_contexts ctx') (to_uint64 (Z.shiftl i i)) = Some 0)
        /\ (api arg <> API_OPENGL -> api arg <> API_GLES -> st = SHMIFEXT_NO_API)).
Proof.
  destruct (add_context_early_failures ctx arg env) as (E1 & E2 & E3).
  split; [exact E1|]. split; [exact E2|]. split; [exact E3|].
  intros st ind ctx' H.
  destruct (add_context_outcomes ctx arg env st ind ctx' H) as (H1 & H2 & H3 & _ & H5).
  split; [assumption|]. split; [assumption|]. split; [assumption|].
  split; [|assumption].
  intros ->. exact (add_context_no_context ctx arg env ind ctx' H).
Qed.

Lemma add_context_failure_effects_witness :
  exists ind ctx',
    add_context
      (set_ctx_alloc
         (set_alt_contexts managed_internal (<[0%nat := 4242]> (repeat 0 64))) 1)
      default_setup (egl_creates 9) = Some (SHMIFEXT_NO_CONTEXT, ind, ctx')
    /\ ctx_alloc ctx' = 1
    /\ alt_read (alt_contexts ctx') 1 = Some 9
    /\ alt_read (alt_contexts ctx') 2 = Some 0.
Proof.
  destruct (add_context
              (set_ctx_alloc
                 (set_alt_contexts managed_internal (<[0%nat := 4242]> (repeat 0 64))) 1)
              default_setup (egl_creates 9)) as [[[st ind] ctx']|] eqn:Hs;
    [|vm_compute in Hs; discriminate Hs].
  assert (Hst : st = SHMIFEXT_NO_CONTEXT)
    by (pose proof Hs as Hv; vm_compute in Hv; injection Hv as <- _ _; reflexivity).
  destruct (proj2 (proj2 (proj2 (add_context_failure_effects _ _ _))) _ _ _ Hs)
    as (_ & Hmask & _ & Hstored & _).
  subst st. exists ind, ctx'. split; [reflexivity|].
  split; [apply Hmask; discriminate|].
  destruct (Hstored eq_refl) as (i & Hfree & _ & _ & Hread & Hprobe).
  vm_compute in Hfree. injection Hfree as <-.
  split; [exact Hread|exact Hprobe].
Defined.

(** *** Only the first slot is ever allocated *)

Lemma low_mask_table : Libretro.all_from low_mask_bit (Z.to_nat 64) 0 = true.
Proof. vm_compute. reflexivity. Qed.

Lemma low_mask_slot alloc ind :
  alloc = 0 \/ alloc = 1 -> 0 <= ind < 64 -> slot_bit alloc ind = true ->
  alloc = 1 /\ (ind = 0 \/ ind = 32) /\ to_int32 (shl_int ind - 1) = 0.
Proof.
  intros Ha Hi Hb.
  pose proof (LibretroFacts.all_from_below low_mask_bit 64 0 ind low_mask_table Hi) as T.
  unfold low_mask_bit in T. apply andb_true_iff in T as [T0 T1].
  destruct Ha as [-> | ->].
  - rewrite Hb in T0. discriminate.
  - rewrite Hb in T1. cbn [negb orb] in T1. apply andb_true_iff in T1 as [T1 T2].
    apply Z.eqb_eq in T2. apply orb_true_iff in T1.
    rewrite !Z.eqb_eq in T1. auto.
Qed.

Lemma one_slot_get ctx ind :
  one_slot ctx -> 0 <= ind -> get_egl_context ctx ind <> None.
Proof.
  intros (Ha & Hl & _) Hi. unfold get_egl_context.
  destruct (Z.leb_spec 64 ind); [discriminate|].
  destruct (managed ctx); [|discriminate]. cbn [negb orb].
  destruct (slot_bit (ctx_alloc ctx) ind) eqn:Hb; [|discriminate]. cbn [negb].
  assert (Hr : 0 <= ind < 64) by lia.
  destruct (low_mask_slot _ _ Ha Hr Hb) as (_ & _ & ->).
  unfold alt_read. cbn [andb Z.leb Z.ltb].
  change (if (0 <=? 0) && (0 <? 64) then alt_contexts ctx !! Z.to_nat 0 else None)
    with (alt_contexts ctx !! 0%nat).
  destruct (alt_contexts ctx !! 0%nat) eqn:E; [discriminate|].
  apply lookup_ge_None in E. lia.
Qed.

(** One call on a record in that state. *)
Lemma add_context_one_slot ctx arg env :
  one_slot ctx ->
  exists st ind ctx',
    add_context ctx arg env = Some (st, ind, ctx')
    /\ one_slot ctx'
    /\ (st = SHMIFEXT_OK -> ind = Some 1 /\ ctx_alloc ctx = 0 /\ ctx_alloc ctx' = 1).
Proof.
  intros Hone. pose proof Hone as (Ha & Hl & Hz).
  unfold add_context.
  destruct (negb ((api arg =? API_OPENGL) || (api arg =? API_GLES)));
    [do 3 eexists; split; [reflexivity|]; split; [assumption|discriminate]|].
  assert (Hfree : first_free (ctx_alloc ctx) 64 0 = Some (ctx_alloc ctx))
    by (destruct Ha as [-> | ->]; reflexivity).
  rewrite Hfree.
  destruct (negb (getconfigs_ok env));
    [do 3 eexists; split; [reflexivity|]; split; [assumption|discriminate]|].
  destruct (getconfigs_nc env =? 0);
    [do 3 eexists; split; [reflexivity|]; split; [assumption|discriminate]|].
  destruct (negb (chooseconfig_ok env) || (chooseconfig_nc env <? 1));
    [do 3 eexists; split; [reflexivity|]; split; [assumption|discriminate]|].
  assert (Hshared : exists found,
            (if shared_context arg =? 0 then Some None
             else get_egl_context ctx (to_uint32 (shared_context arg))) = Some found).
  { destruct (shared_context arg =? 0); [eauto|].
    destruct (get_egl_context ctx (to_uint32 (shared_context arg))) as [f|] eqn:E; [eauto|].
    exfalso. revert E. apply one_slot_get; [assumption|].
    unfold to_uint32. apply Z.mod_pos_bound. lia. }
  destruct Hshared as (found & ->).
  set (created := create_context env _ _).
  destruct Ha as [E0 | E1].
  - rewrite E0.
    change (to_int32 (shl_int 0 - 1)) with 0.
    change (to_uint64 (Z.shiftl 0 0)) with 0.
    unfold alt_write. rewrite Hl. cbn [andb Z.leb Z.ltb Z.of_nat].
    change ((0 <=? 0) && (0 <? 64) && (0 <? Z.of_nat 64)) with true. cbv iota.
    unfold alt_read.
    change ((0 <=? 0) && (0 <? 64)) with true. cbv iota.
    rewrite list_lookup_insert_eq by (rewrite Hl; cbn; lia).
    assert (Hone' : forall alloc, alloc = 0 \/ alloc = 1 ->
              one_slot (set_ctx_alloc
                          (set_alt_contexts ctx (<[Z.to_nat 0 := created]> (alt_contexts ctx)))
                          alloc)).
    { intros alloc Hal. split; [exact Hal|]. cbn [alt_contexts set_ctx_alloc set_alt_contexts].
      split; [rewrite length_insert; assumption|].
      intros k Hk. rewrite list_lookup_insert_ne by lia. apply Hz. assumption. }
    destruct (created =? 0).
    + do 3 eexists. split; [reflexivity|]. split; [|discriminate].
      specialize (Hone' 0 (or_introl eq_refl)).
      destruct Hone' as (_ & Hl' & Hz'). split; [left; cbn; assumption|].
      split; assumption.
    + do 3 eexists. split; [reflexivity|]. split.
      * apply Hone'. right. reflexivity.
      * intros _. cbn [ctx_alloc set_ctx_alloc]. repeat split; reflexivity.
  - rewrite E1.
    change (to_int32 (shl_int 1 - 1)) with 1.
    change (to_uint64 (Z.shiftl 1 1)) with 2.
    unfold alt_write. rewrite Hl.
    change ((0 <=? 1) && (1 <? 64) && (1 <? Z.of_nat 64)) with true. cbv iota.
    unfold alt_read.
    change ((0 <=? 2) && (2 <? 64)) with true. cbv iota.
    rewrite list_lookup_insert_ne by (cbn; lia).
    change (Z.to_nat 2) with 2%nat. rewrite (Hz 2%nat) by lia.
    cbn [Z.eqb]. do 3 eexists. split; [reflexivity|]. split; [|discriminate].
    split; [right; cbn; assumption|]. cbn [alt_contexts set_alt_contexts].
    split; [rewrite length_insert; assumption|].
    intros k Hk. rewrite list_lookup_insert_ne by (cbn; lia). apply Hz. assumption.
Qed.

Lemma add_context_run_one_slot calls : forall ctx,
  one_slot ctx ->
  exists rs ctx',
    add_context_run ctx calls = Some (rs, ctx')
    /\ one_slot ctx'
    /\ Forall (fun r => is_ok r = true -> snd r = Some 1) rs
    /\ Z.of_nat (length (List.filter is_ok rs)) + ctx_alloc ctx = ctx_alloc ctx'.
Proof.
  induction calls as [|[arg env] calls IH]; intros ctx Hone.
  - exists [], ctx. cbn. split; [reflexivity|]. split; [assumption|].
    split; [constructor|reflexivity].
  - destruct (add_context_one_slot ctx arg env Hone) as (st & ind & ctx1 & Hrun & Hone1 & Hok).
    destruct (IH ctx1 Hone1) as (rs & ctx' & Hrest & Hone' & Hall & Hcount).
    exists ((st, ind) :: rs), ctx'. cbn [add_context_run]. rewrite Hrun, Hrest.
    split; [reflexivity|]. split; [assumption|]. split.
    + apply List.Forall_cons; [|assumption].
      unfold is_ok. cbn [fst snd]. destruct st; try discriminate.
      intros _. apply Hok. reflexivity.
    + cbn [List.filter]. unfold is_ok at 1. cbn [fst].
      destruct (add_context_outcomes _ _ _ _ _ _ Hrun) as (_ & Hfail & _).
      destruct st;
        try (rewrite <- Hcount; destruct Hfail as [_ ->]; [discriminate|reflexivity]).
      destruct (Hok eq_refl) as (_ & E0 & E1). cbn [length]. lia.
Qed.

(** X12: on a record whose slots are as [arcan_shmifext_egl] leaves them,
    every run of [add_context] calls is defined and allocates at most one
    context: the only reference it ever hands out is 1, later calls fail,
    and the slots stay in that state. *)
Theorem only_first_slot_is_allocated ctx calls :
  one_slot ctx ->
  exists rs ctx',
    add_context_run ctx calls = Some (rs, ctx')
    /\ one_slot ctx'
    /\ Forall (fun r => is_ok r = true -> snd r = Some 1) rs
    /\ (length (List.filter is_ok rs) <= 1)%nat
    /\ (ctx_alloc ctx = 1 -> List.filter is_ok rs = []).
Proof.
  intros Hone.
  destruct (add_context_run_one_slot calls ctx Hone) as (rs & ctx' & Hrun & Hone' & Hall & Hcount).
  exists rs, ctx'. split; [assumption|]. split; [assumption|]. split; [assumption|].
  destruct Hone as (Ha & _). destruct Hone' as (Ha' & _).
  split; [lia|].
  intros E1. destruct (List.filter is_ok rs) as [|r l]; [reflexivity|].
  cbn [length] in Hcount. lia.
Qed.

Lemma lookup_repeat {A} (x : A) n : forall k, (k < n)%nat -> repeat x n !! k = Some x.
Proof.
  induction n as [|n IH]; intros k Hk; [lia|].
  destruct k as [|k]; [reflexivity|]. cbn [repeat]. apply IH. lia.
Qed.

Lemma managed_internal_one_slot : one_slot managed_internal.
Proof.
  split; [left; reflexivity|]. split; [reflexivity|].
  intros k Hk. apply lookup_repeat. lia.
Qed.

Lemma only_first_slot_is_allocated_witness :
  exists rs ctx',
    add_context_run managed_internal
      [(default_setup, egl_creates 9); (default_setup, egl_creates 10)] = Some (rs, ctx')
    /\ one_slot ctx'
    /\ Forall (fun r => is_ok r = true -> snd r = Some 1) rs
    /\ (length (List.filter is_ok rs) <= 1)%nat
    /\ (ctx_alloc managed_internal = 1 -> List.filter is_ok rs = []).
Proof.
  apply (only_first_slot_is_allocated managed_internal
           [(default_setup, egl_creates 9); (default_setup, egl_creates 10)]).
  exact managed_internal_one_slot.
Defined.

(** *** What a return value of the export means *)

Lemma gltex_export_cases fns c pe ctx1 w1 o r :
  gltex_export fns c pe ctx1 w1 o = Some r ->
  (gr_ret r = true
   /\ exists fd i',
        gr_dhandle r = Some fd
        /\ gr_dstride r = Some (to_uint64 (to_int32 (o_stride o)))
        /\ gr_dfmt r = Some (o_fourcc o)
        /\ 0 <= to_int32 (o_stride o)
        /\ In fd (open_fds (gr_world r))
        /\ gr_con r = Some (with_internal c pe i')
        /\ dmabuf i' = fd /\ image i' <> 0
        /\ In (image i') (live_images (gr_world r)))
  \/ (gr_ret r = false /\ gr_dstride r = None /\ gr_dfmt r = None).
Proof.
  unfold gltex_export, w_new_image, w_new_fd.
  destruct (create_image fns); [|discriminate]. cbn [negb].
  destruct (o_create o); cbv zeta;
    [|cbn; intros [= <-]; right; auto].
  destruct (Z.eqb_spec (next_handle w1 + 1) 0) as [|Hnz]; [intros [= <-]; right; auto|].
  destruct (query_image_format fns); [|discriminate]. cbn [negb].
  destruct (o_query o); [|intros [= <-]; right; auto]. cbn [negb].
  destruct (o_nplanes o =? 1); [|intros [= <-]; right; auto]. cbn [negb].
  destruct (export_dmabuf fns); [|discriminate]. cbn [negb].
  destruct (o_export o); cbn [negb].
  2:{ destruct (destroy_image fns); [|discriminate]. intros [= <-]; right; auto. }
  destruct (Z.ltb_spec (to_int32 (o_stride o)) 0).
  { destruct (destroy_image fns); [|discriminate]. intros [= <-]; right; auto. }
  intros [= <-]. left. split; [reflexivity|].
  do 2 eexists. cbn [gr_dhandle gr_dstride gr_dfmt gr_world gr_con].
  split; [reflexivity|]. split; [reflexivity|]. split; [reflexivity|].
  split; [assumption|]. split; [cbn; auto|]. split; [reflexivity|].
  cbn. auto.
Qed.

(** X13: the export function reports [true] in two cases only.  Either it
    was turned away at its head, where the [-1] it returns reads as [true]
    although no output has been written and nothing has been done; or it
    has written all three outputs, with a stride that is not negative, the
    descriptor is open, the record names it and the image it belongs to
    exists.  A [false] result never comes with a stride or a format. *)
Theorem gltex_true_is_export_or_guard fns con dpy tex o w r :
  arcan_shmifext_gltex_handle fns con dpy tex o w = Some r ->
  (gr_ret r = true ->
     ((ext_internal con = None
       \/ exists c pe i, ext_internal con = Some (c, pe, i) /\ addr c = false)
      /\ r = mk_gltex true None None None con w)
     \/ (exists fd i',
           gr_dhandle r = Some fd
           /\ gr_dstride r = Some (to_uint64 (to_int32 (o_stride o)))
           /\ gr_dfmt r = Some (o_fourcc o)
           /\ 0 <= to_int32 (o_stride o)
           /\ In fd (open_fds (gr_world r))
           /\ internal_of (gr_con r) = Some i'
           /\ dmabuf i' = fd /\ image i' <> 0
           /\ In (image i') (live_images (gr_world r))))
  /\ (gr_ret r = false -> gr_dstride r = None /\ gr_dfmt r = None).
Proof.
  unfold arcan_shmifext_gltex_handle.
  destruct (ext_internal con) as [[[c pe] i]|] eqn:He.
  2:{ intros [= <-]. split; [intros _; left; auto|discriminate]. }
  destruct (addr c) eqn:Ha; cbn [negb].
  2:{ intros [= <-]. split; [|discriminate].
      intros _. left. split; [right; eauto|reflexivity]. }
  destruct (gltex_invalidate fns i w) as [[ctx1 w1]|]; [|discriminate].
  intros Hr. apply gltex_export_cases in Hr as [(Ht & fd & i' & H1 & H2 & H3 & H4 & H5 & H6 & H7)|(Hf & H1 & H2)].
  - split; [|rewrite Ht; discriminate].
    intros _. right. exists fd, i'.
    rewrite H6, internal_of_with. auto 10.
  - split; [rewrite Hf; discriminate|auto].
Qed.

Lemma gltex_true_is_export_or_guard_witness :
  exists r,
    arcan_shmifext_gltex_handle all_resolved (con_of (fresh_internal false)) 0 11
      export_refused fresh_world = Some r
    /\ gr_dstride r = None /\ gr_dfmt r = None.
Proof.
  eexists. split; [reflexivity|].
  exact (proj2 (gltex_true_is_export_or_guard all_resolved (con_of (fresh_internal false))
                  0 11 export_refused fresh_world _ eq_refl) eq_refl).
Defined.

(** *** A descriptor that no later call closes *)

Lemma invalidate_keeps_fd fns i w ctx1 w1 fd :
  gltex_invalidate fns i w = Some (ctx1, w1) ->
  In fd (open_fds w) -> dmabuf i <> fd -> 0 <= fd ->
  In fd (open_fds w1) /\ next_handle w1 = next_handle w /\ dmabuf ctx1 <> fd
  /\ (dmabuf ctx1 = dmabuf i \/ dmabuf ctx1 = -1).
Proof.
  unfold gltex_invalidate. intros H Hin Hne Hpos.
  destruct (image i =? 0); [injection H as <- <-; auto|].
  destruct (destroy_image fns); [|discriminate].
  injection H as <- <-. cbn [dmabuf set_dmabuf next_handle w_close w_destroy_image].
  split; [|split; [reflexivity|split; [lia|auto]]].
  apply in_close. split; [exact Hin|auto].
Qed.

Lemma export_keeps_fd fns c pe ctx1 w1 o r fd :
  gltex_export fns c pe ctx1 w1 o = Some r ->
  In fd (open_fds w1) -> fd <= next_handle w1 -> dmabuf ctx1 <> fd ->
  exists i', gr_con r = Some (with_internal c pe i')
    /\ In fd (open_fds (gr_world r)) /\ fd <= next_handle (gr_world r)
    /\ dmabuf i' <> fd.
Proof.
  unfold gltex_export, w_new_image, w_new_fd. intros H Hin Hle Hne.
  destruct (create_image fns); [|discriminate]. cbn [negb] in H.
  destruct (o_create o); cbv zeta in H.
  2:{ cbn in H. injection H as <-. eexists. split; [reflexivity|]. cbn. auto. }
  destruct (_ =? 0) in H;
    [injection H as <-; eexists; split; [reflexivity|]; cbn; split; [auto|split; [lia|auto]]|].
  destruct (query_image_format fns); [|discriminate]. cbn [negb] in H.
  destruct (o_query o);
    [|injection H as <-; eexists; split; [reflexivity|]; cbn; split; [auto|split; [lia|auto]]].
  cbn [negb] in H.
  destruct (o_nplanes o =? 1);
    [|injection H as <-; eexists; split; [reflexivity|]; cbn; split; [auto|split; [lia|auto]]].
  cbn [negb] in H.
  destruct (export_dmabuf fns); [|discriminate]. cbn [negb] in H.
  destruct (o_export o); cbn [negb] in H.
  2:{ destruct (destroy_image fns); [|discriminate].
      injection H as <-; eexists; split; [reflexivity|]; cbn; split; [auto|split; [lia|auto]]. }
  destruct (to_int32 (o_stride o) <? 0).
  { destruct (destroy_image fns); [|discriminate].
    injection H as <-; eexists; split; [reflexivity|]; cbn; split; [auto|split; [lia|auto]]. }
  injection H as <-. eexists. split; [reflexivity|]. cbn.
  split; [auto|split; lia].
Qed.

Lemma call_keeps_fd fns con dpy tex o w r fd :
  arcan_shmifext_gltex_handle fns con dpy tex o w = Some r ->
  In fd (open_fds w) -> 0 <= fd <= next_handle w ->
  (forall i, internal_of con = Some i -> dmabuf i <> fd) ->
  In fd (open_fds (gr_world r)) /\ fd <= next_handle (gr_world r)
  /\ (forall i', internal_of (gr_con r) = Some i' -> dmabuf i' <> fd).
Proof.
  unfold arcan_shmifext_gltex_handle, internal_of. intros H Hin Hb Hne.
  destruct (ext_internal con) as [[[c pe] i]|] eqn:He.
  2:{ injection H as <-. cbn. rewrite He. split; [assumption|]. split; [lia|]. discriminate. }
  destruct (addr c); cbn [negb] in H.
  2:{ injection H as <-. cbn. rewrite He. split; [assumption|]. split; [lia|]. exact Hne. }
  destruct (gltex_invalidate fns i w) as [[ctx1 w1]|] eqn:Hinv; [|discriminate].
  destruct (invalidate_keeps_fd _ _ _ _ _ fd Hinv Hin (Hne i eq_refl) ltac:(lia))
    as (Hin1 & Hnh & Hne1 & _).
  destruct (export_keeps_fd _ _ _ _ _ _ _ fd H Hin1 ltac:(lia) Hne1)
    as (i' & Hc & Hin' & Hle' & Hne').
  split; [assumption|]. split; [assumption|].
  rewrite Hc, ext_internal_with. intros i0 [= <-]. exact Hne'.
Qed.

Lemma calls_keep_fd fns calls : forall con w rs con' w' fd,
  export_calls fns con w calls = Some (rs, con', w') ->
  In fd (open_fds w) -> 0 <= fd <= next_handle w ->
  (forall i, internal_of con = Some i -> dmabuf i <> fd) ->
  In fd (open_fds w') /\ (forall i', internal_of con' = Some i' -> dmabuf i' <> fd).
Proof.
  induction calls as [|[[dpy tex] o] calls IH]; intros con w rs con' w' fd Hrun Hin Hb Hne.
  - injection Hrun as <- <- <-. auto.
  - cbn [export_calls] in Hrun.
    destruct (arcan_shmifext_gltex_handle fns con dpy tex o w) as [r|] eqn:Hr; [|discriminate].
    destruct (export_calls fns (gr_con r) (gr_world r) calls) as [[[rs0 con0] w0]|] eqn:Hrest;
      [|discriminate].
    injection Hrun as <- <- <-.
    destruct (call_keeps_fd _ _ _ _ _ _ _ fd Hr Hin Hb Hne) as (Hin1 & Hle1 & Hne1).
    apply (IH _ _ _ _ _ fd Hrest Hin1 ltac:(lia) Hne1).
Qed.

(** X14: when the export itself succeeds but reports a negative stride,
    the call returns [false] with the descriptor already written to
    [*dhandle]; the record does not take it over, so no later call of the
    export function closes it: it is still open after any run of further
    calls, and the record never names it. *)
Theorem negative_stride_leaves_descriptor_open fns con dpy tex o w r c pe i :
  ext_internal con = Some (c, pe, i) -> addr c = true ->
  dmabuf i <= next_handle w -> 0 <= next_handle w ->
  o_create o = true -> o_query o = true -> o_nplanes o = 1 -> o_export o = true ->
  to_int32 (o_stride o) < 0 ->
  arcan_shmifext_gltex_handle fns con dpy tex o w = Some r ->
  gr_ret r = false
  /\ exists fd,
       gr_dhandle r = Some fd
       /\ In fd (open_fds (gr_world r))
       /\ forall calls rs con' w',
            export_calls fns (gr_con r) (gr_world r) calls = Some (rs, con', w') ->
            In fd (open_fds w')
            /\ forall i', internal_of con' = Some i' -> dmabuf i' <> fd.
Proof.
  intros He Ha Hdm H0 Hc Hq Hn He' Hs Hr.
  unfold arcan_shmifext_gltex_handle in Hr. rewrite He, Ha in Hr. cbn [negb] in Hr.
  destruct (gltex_invalidate fns i w) as [[ctx1 w1]|] eqn:Hinv; [|discriminate].
  assert (Hctx1 : next_handle w1 = next_handle w
                  /\ (dmabuf ctx1 = dmabuf i \/ dmabuf ctx1 = -1)).
  { unfold gltex_invalidate in Hinv.
    destruct (image i =? 0); [injection Hinv as <- <-; auto|].
    destruct (destroy_image fns); [|discriminate].
    injection Hinv as <- <-. cbn. auto. }
  destruct Hctx1 as (Hnh & Hd1).
  unfold gltex_export, w_new_image, w_new_fd in Hr.
  destruct (create_image fns); [|discriminate]. cbn [negb] in Hr.
  rewrite Hc in Hr. cbv zeta in Hr.
  destruct (Z.eqb_spec (next_handle w1 + 1) 0); [lia|].
  destruct (query_image_format fns); [|discriminate]. cbn [negb] in Hr.
  rewrite Hq, Hn in Hr. cbn [negb Z.eqb Pos.eqb] in Hr.
  destruct (export_dmabuf fns); [|discriminate]. cbn [negb] in Hr.
  rewrite He' in Hr. cbn [negb] in Hr.
  destruct (Z.ltb_spec (to_int32 (o_stride o)) 0); [|lia].
  destruct (destroy_image fns); [|discriminate].
  injection Hr as <-. cbn [gr_ret gr_dhandle gr_world gr_con].
  split; [reflexivity|].
  exists (next_handle w1 + 1 + 1). split; [reflexivity|].
  split; [cbn; auto|].
  intros calls rs con' w' Hrun.
  apply (calls_keep_fd _ _ _ _ _ _ _ (next_handle w1 + 1 + 1) Hrun).
  - cbn. auto.
  - cbn. lia.
  - rewrite internal_of_with. intros i0 [= <-]. cbn. lia.
Qed.

Lemma negative_stride_leaves_descriptor_open_witness :
  exists r,
    arcan_shmifext_gltex_handle all_resolved (con_of (fresh_internal false)) 0 11
      (export_ok (-4)) fresh_world = Some r
    /\ gr_ret r = false.
Proof.
  eexists. split; [reflexivity|].
  refine (proj1 (negative_stride_leaves_descriptor_open all_resolved
                   (con_of (fresh_internal false)) 0 11 (export_ok (-4)) fresh_world _
                   _ _ (fresh_internal false) eq_refl eq_refl _ _
                   eq_refl eq_refl eq_refl eq_refl _ eq_refl)).
  - cbn. lia.
  - cbn. lia.
  - reflexivity.
Defined.

(** *** When a frame is not signalled *)

Lemma prepare_rejected c ctx dpy tex o :
  signal_prepare c ctx dpy tex o = Some PrepRejected
  <-> (dpy = 0 /\ display ctx = 0)
      \/ ((dpy <> 0 \/ display ctx <> 0) /\ tex = SHMIFEXT_BUILTIN /\ managed ctx = false).
Proof.
  unfold signal_prepare.
  destruct (Z.eqb_spec dpy 0) as [Hd|Hd].
  - destruct (Z.eqb_spec (display ctx) 0) as [Hc|Hc]; [split; auto|].
    destruct (Z.eqb_spec tex SHMIFEXT_BUILTIN) as [Ht|Ht].
    + destruct (managed ctx); cbn [negb].
      * split; [|intros [[_ H]|(_ & _ & H)]; [contradiction|discriminate]].
        destruct (rtgt_cur ctx =? 0), (nopass ctx), (buf_cur ctx); discriminate.
      * split; auto.
    + split; [discriminate|intros [[_ H]|(_ & H & _)]; contradiction].
  - destruct (Z.eqb_spec dpy 0) as [|_]; [contradiction|].
    destruct (Z.eqb_spec tex SHMIFEXT_BUILTIN) as [Ht|Ht].
    + destruct (managed ctx); cbn [negb].
      * split; [|intros [[H _]|(_ & _ & H)]; [contradiction|discriminate]].
        destruct (rtgt_cur ctx =? 0), (nopass ctx), (buf_cur ctx); discriminate.
      * split; auto.
    + split; [discriminate|intros [[H _]|(_ & H & _)]; contradiction].
Qed.

Lemma clamp_int_range res : 0 <= res -> 0 <= clamp_int res <= INT_MAX.
Proof.
  intros H. unfold clamp_int. destruct (Z.ltb_spec INT_MAX res); unfold INT_MAX in *; lia.
Qed.

(** X15: the result -1 of [arcan_shmifext_signal] means exactly that no
    frame was signalled, and then neither the connection nor anything
    outside has changed; this happens when the connection has no page or no
    extension record, when neither the argument nor the record gives a
    display, or when the built-in target is asked for on a context the
    library does not manage.  Every other call returns what the signal
    function reported, capped at [INT_MAX]. *)
Theorem signal_rejected_iff fns con dpy mask_arg tex o w ret d con' w' :
  arcan_shmifext_signal fns con dpy mask_arg tex o w = Some (ret, d, con', w') ->
  0 <= s_elapsed o ->
  (d = Rejected <-> ret = -1)
  /\ (d = Rejected -> con' = con /\ w' = w)
  /\ (d <> Rejected -> 0 <= ret <= INT_MAX)
  /\ (d = Rejected <->
      ext_internal con = None
      \/ exists c pe i,
           ext_internal con = Some (c, pe, i)
           /\ (addr c = false
               \/ (dpy = 0 /\ display i = 0)
               \/ ((dpy <> 0 \/ display i <> 0)
                   /\ tex = SHMIFEXT_BUILTIN /\ managed i = false))).
Proof.
  intros Hs H0.
  pose proof (clamp_int_range _ H0) as Hc.
  unfold arcan_shmifext_signal in Hs.
  destruct (ext_internal con) as [[[c pe] ctx]|] eqn:He.
  2:{ injection Hs as <- <- <- <-. repeat split; auto; try congruence. }
  assert (Hrej : forall P : Prop,
            (P <-> (addr c = false
                    \/ (dpy = 0 /\ display ctx = 0)
                    \/ ((dpy <> 0 \/ display ctx <> 0)
                        /\ tex = SHMIFEXT_BUILTIN /\ managed ctx = false))) ->
            (P <-> None = Some (c, pe, ctx)
                   \/ exists c0 pe0 i0,
                        Some (c, pe, ctx) = Some (c0, pe0, i0)
                        /\ (addr c0 = false
                            \/ (dpy = 0 /\ display i0 = 0)
                            \/ ((dpy <> 0 \/ display i0 <> 0)
                                /\ tex = SHMIFEXT_BUILTIN /\ managed i0 = false)))).
  { intros P HP. rewrite HP. split.
    - intros H. right. exists c, pe, ctx. auto.
    - intros [H|(c0 & pe0 & i0 & [= <- <- <-] & H)]; [discriminate|exact H]. }
  assert (Hsym : forall P : Prop, (P <-> None = Some (c, pe, ctx) \/ exists c0 pe0 i0,
                        Some (c, pe, ctx) = Some (c0, pe0, i0)
                        /\ (addr c0 = false
                            \/ (dpy = 0 /\ display i0 = 0)
                            \/ ((dpy <> 0 \/ display i0 <> 0)
                                /\ tex = SHMIFEXT_BUILTIN /\ managed i0 = false))) ->
            (P <-> Some (c, pe, ctx) = None
                   \/ exists c0 pe0 i0,
                        Some (c, pe, ctx) = Some (c0, pe0, i0)
                        /\ (addr c0 = false
                            \/ (dpy = 0 /\ display i0 = 0)
                            \/ ((dpy <> 0 \/ display i0 <> 0)
                                /\ tex = SHMIFEXT_BUILTIN /\ managed i0 = false)))).
  { intros P [H1 H2]. split.
    - intros HP. destruct (H1 HP) as [H|H]; [discriminate|auto].
    - intros [H|H]; [discriminate|]. apply H2. auto. }
  destruct (addr c) eqn:Ha; cbn [negb] in Hs.
  2:{ injection Hs as <- <- <- <-.
      split; [tauto|]. split; [auto|]. split; [congruence|].
      apply Hsym, Hrej. tauto. }
  destruct (signal_prepare c ctx dpy tex o) as [p|] eqn:Hp; [|discriminate].
  pose proof (prepare_rejected c ctx dpy tex o) as Hpr. rewrite Hp in Hpr.
  destruct p as [|tex1 ctx1|tex1 ctx1].
  - injection Hs as <- <- <- <-.
    split; [tauto|]. split; [auto|]. split; [congruence|].
    apply Hsym, Hrej. destruct Hpr as [Hpr _]. specialize (Hpr eq_refl). tauto.
  - injection Hs as <- <- <- <-.
    split; [split; [discriminate|lia]|]. split; [discriminate|]. split; [auto|].
    apply Hsym, Hrej. split; [discriminate|].
    intros [H|H]; [discriminate|]. apply Hpr in H. discriminate.
  - assert (Hd : d <> Rejected /\ ret = clamp_int (s_elapsed o)).
    { destruct (nopass ctx1 || negb (create_image fns)).
      - injection Hs as <- <- _ _. split; [discriminate|reflexivity].
      - destruct (arcan_shmifext_gltex_handle _ _ _ _ _ _) as [r|]; [|discriminate].
        destruct (gr_ret r), (gr_dhandle r), (gr_dstride r), (gr_dfmt r);
          injection Hs as <- <- _ _; split; (discriminate || reflexivity). }
    destruct Hd as [Hd ->].
    split; [split; [contradiction|lia]|]. split; [contradiction|]. split; [auto|].
    apply Hsym, Hrej. split; [contradiction|].
    intros [H|H]; [discriminate|]. apply Hpr in H. discriminate.
Qed.

Lemma signal_rejected_iff_witness :
  Rejected = Rejected <-> -1 = -1.
Proof.
  refine (proj1 (signal_rejected_iff all_resolved (con_of (fresh_internal false)) 0 0 11
                   sig_export_ok fresh_world (-1) Rejected _ _ eq_refl _)).
  cbn. lia.
Defined.

(** *** The built-in target *)

(** The export touches nothing of the record but the image and the
    descriptor. *)
Lemma gltex_record_frame fns c pe ctx1 dpy tex o w r :
  addr c = true ->
  arcan_shmifext_gltex_handle fns (Some (with_internal c pe ctx1)) dpy tex o w = Some r ->
  exists img fd, gr_con r = Some (with_internal c pe (set_dmabuf (set_image ctx1 img) fd)).
Proof.
  intros Ha. unfold arcan_shmifext_gltex_handle.
  rewrite ext_internal_with. cbn [addr with_internal]. rewrite Ha. cbn [negb].
  assert (Heta : forall i, set_dmabuf (set_image i (image i)) (dmabuf i) = i)
    by (intros []; reflexivity).
  assert (Htwice : forall pe0, with_internal (with_internal c pe ctx1) pe0 = with_internal c pe0)
    by reflexivity.
  unfold gltex_invalidate.
  assert (Hexp : forall ctx2 w2 d0,
            ctx2 = set_dmabuf ctx1 d0 ->
            gltex_export fns (with_internal c pe ctx1)
              (mk_hidden (Some ctx1) (cleanup pe) (active_fd pe) (pending_fd pe)) ctx2 w2 o
            = Some r ->
            exists img fd,
              gr_con r = Some (with_internal c pe (set_dmabuf (set_image ctx1 img) fd))).
  { intros ctx2 w2 d0 -> H. unfold gltex_export, w_new_image, w_new_fd in H.
    destruct (create_image fns); [|discriminate]. cbn [negb] in H.
    destruct (o_create o); cbv zeta in H.
    2:{ cbn in H. injection H as <-. exists 0, d0. reflexivity. }
    destruct (_ =? 0) in H; [injection H as <-; do 2 eexists; reflexivity|].
    destruct (query_image_format fns); [|discriminate]. cbn [negb] in H.
    destruct (o_query o); [|injection H as <-; do 2 eexists; reflexivity]. cbn [negb] in H.
    destruct (o_nplanes o =? 1); [|injection H as <-; do 2 eexists; reflexivity].
    cbn [negb] in H.
    destruct (export_dmabuf fns); [|discriminate]. cbn [negb] in H.
    destruct (o_export o); cbn [negb] in H.
    2:{ destruct (destroy_image fns); [|discriminate].
        injection H as <-; do 2 eexists; reflexivity. }
    destruct (to_int32 (o_stride o) <? 0).
    { destruct (destroy_image fns); [|discriminate].
      injection H as <-; do 2 eexists; reflexivity. }
    injection H as <-. do 2 eexists. reflexivity. }
  destruct (image ctx1 =? 0).
  - apply (Hexp ctx1 w (dmabuf ctx1)). destruct ctx1; reflexivity.
  - destruct (destroy_image fns); [|discriminate].
    apply (Hexp _ _ (-1)). reflexivity.
Qed.

(** X16: signalling the built-in target of a managed context.  Without a
    render target the page is uploaded into the store [buf_cur] selects,
    which takes the size of the connection, and [buf_cur] moves to the other
    store, which is left as it was; with two render targets the current one
    moves to the other and the stores are left alone.  In both cases the
    texture read back, if it comes to that, is the one uploaded or swapped
    out. *)
Theorem signal_builtin_alternates fns c pe ctx dpy mask_arg o w ret d con' w' b :
  addr c = true -> dpy <> 0 \/ display ctx <> 0 ->
  managed ctx = true -> nopass ctx = false -> buf_cur ctx = Some b ->
  arcan_shmifext_signal fns (Some (with_internal c pe ctx)) dpy mask_arg SHMIFEXT_BUILTIN o w
  = Some (ret, d, con', w') ->
  exists ctx',
    internal_of con' = Some ctx'
    /\ (rtgt_cur ctx = 0 ->
        buf_cur ctx' = Some (other_buf b)
        /\ cur_vstore ctx' b
           = mk_vstore (con_w c) (con_h c) (s_upload_glid o) 0
               (to_uint64 (con_w c * con_h c * 4)) (vs_s_fmt (cur_vstore ctx b))
        /\ cur_vstore ctx' (other_buf b) = cur_vstore ctx (other_buf b)
        /\ rtgt_cur ctx' = 0
        /\ forall glid, d = ByReadback glid -> glid = s_upload_glid o)
    /\ (rtgt_cur ctx <> 0 ->
        buf_cur ctx' = Some b /\ buf_a ctx' = buf_a ctx /\ buf_b ctx' = buf_b ctx
        /\ rtgt_cur ctx'
           = (if rtgt_b ctx =? 0 then rtgt_cur ctx
              else if rtgt_cur ctx =? rtgt_a ctx then rtgt_b ctx else rtgt_a ctx)
        /\ forall glid, d = ByReadback glid -> glid = s_swap_tex o).
Proof.
  intros Ha Hd Hm Hn Hb Hs.
  unfold arcan_shmifext_signal in Hs. rewrite ext_internal_with in Hs.
  cbn [addr with_internal] in Hs. rewrite Ha in Hs. cbn [negb] in Hs.
  assert (Htwice : forall i, with_internal (with_internal c pe ctx)
                     (mk_hidden (Some ctx) (cleanup pe) (active_fd pe) (pending_fd pe)) i
                   = with_internal c pe i) by reflexivity.
  assert (Hp : exists tex1 ctx1,
            signal_prepare (with_internal c pe ctx) ctx dpy SHMIFEXT_BUILTIN o
            = Some (PrepExport tex1 ctx1)
            /\ nopass ctx1 = false
            /\ (rtgt_cur ctx = 0 ->
                tex1 = s_upload_glid o
                /\ ctx1 = set_buf_cur
                            (set_cur_vstore ctx b
                               (mk_vstore (con_w c) (con_h c) (s_upload_glid o) 0
                                  (to_uint64 (con_w c * con_h c * 4))
                                  (vs_s_fmt (cur_vstore ctx b))))
                            (Some (other_buf b)))
            /\ (rtgt_cur ctx <> 0 ->
                tex1 = s_swap_tex o
                /\ ctx1 = (if rtgt_b ctx =? 0 then ctx
                           else set_rtgt_cur ctx
                                  (if rtgt_cur ctx =? rtgt_a ctx then rtgt_b ctx
                                   else rtgt_a ctx)))).
  { unfold signal_prepare.
    assert (Hdpy : ((if dpy =? 0 then display ctx else dpy) =? 0) = false).
    { destruct (Z.eqb_spec dpy 0); apply Z.eqb_neq; lia. }
    rewrite Hdpy, Z.eqb_refl, Hm. cbn [negb].
    destruct (Z.eqb_spec (rtgt_cur ctx) 0) as [Hr|Hr].
    - rewrite Hn, Hb. do 2 eexists. split; [reflexivity|].
      split; [destruct b; exact Hn|]. split; [auto|contradiction].
    - rewrite Hb. do 2 eexists. split; [reflexivity|].
      split; [destruct (rtgt_b ctx =? 0); exact Hn|]. split; [contradiction|auto]. }
  destruct Hp as (tex1 & ctx1 & Hp & Hn1 & Hno & Hrt). rewrite Hp in Hs.
  rewrite Htwice, Hn1 in Hs. cbn [orb] in Hs.
  assert (Hfin : exists img fd,
            internal_of con' = Some (set_dmabuf (set_image ctx1 img) fd)
            /\ forall glid, d = ByReadback glid -> glid = tex1).
  { destruct (negb (create_image fns)).
    - injection Hs as _ <- <- _. exists (image ctx1), (dmabuf ctx1).
      rewrite internal_of_with. split; [destruct ctx1; reflexivity|].
      intros glid [= <-]. reflexivity.
    - destruct (arcan_shmifext_gltex_handle _ _ _ _ _ _) as [r|] eqn:Hr; [|discriminate].
      destruct (gltex_record_frame _ _ _ _ _ _ _ _ _ Ha Hr) as (img & fd & Hc).
      exists img, fd.
      assert (Hcon : con' = gr_con r /\ forall glid, d = ByReadback glid -> glid = tex1).
      { destruct (gr_ret r), (gr_dhandle r), (gr_dstride r), (gr_dfmt r);
          injection Hs as _ <- <- _; split; try reflexivity;
          intros glid [= <-]; reflexivity. }
      destruct Hcon as [-> Hg]. rewrite Hc, internal_of_with. auto. }
  destruct Hfin as (img & fd & Hi & Hg).
  exists (set_dmabuf (set_image ctx1 img) fd). split; [exact Hi|]. split.
  - intros Hr. destruct (Hno Hr) as [-> ->].
    split; [reflexivity|]. split; [destruct b; reflexivity|].
    split; [destruct b; reflexivity|]. split; [destruct b; exact Hr|exact Hg].
  - intros Hr. destruct (Hrt Hr) as [-> ->].
    destruct (rtgt_b ctx =? 0); cbn; auto.
Qed.

Lemma signal_builtin_alternates_witness :
  exists ctx',
    internal_of
      (snd (fst (default (0, Rejected, None, fresh_world)
         (arcan_shmifext_signal all_resolved
            (Some (with_internal (mk_con true None 640 480 4096 0)
                     (mk_hidden None true 5 (-1))
                     (set_buf_cur managed_internal (Some BufA))))
            0 0 SHMIFEXT_BUILTIN sig_export_ok fresh_world)))) = Some ctx'.
Proof.
  destruct (arcan_shmifext_signal all_resolved
              (Some (with_internal (mk_con true None 640 480 4096 0)
                       (mk_hidden None true 5 (-1))
                       (set_buf_cur managed_internal (Some BufA))))
              0 0 SHMIFEXT_BUILTIN sig_export_ok fresh_world)
    as [[[[ret d] con'] w']|] eqn:Hs.
  - assert (Hd : 0 <> 0 \/ display (set_buf_cur managed_internal (Some BufA)) <> 0)
      by (right; cbn; lia).
    destruct (signal_builtin_alternates all_resolved (mk_con true None 640 480 4096 0)
                (mk_hidden None true 5 (-1)) (set_buf_cur managed_internal (Some BufA))
                0 0 sig_export_ok fresh_world ret d con' w' BufA
                eq_refl Hd eq_refl eq_refl eq_refl Hs)
      as (ctx' & Hi & _).
    exists ctx'. exact Hi.
  - vm_compute in Hs. discriminate Hs.
Defined.

(** *** The attribute list of a new context *)

(** X17: the list handed to [eglCreateContext] always has its twelve
    entries and ends, at an even position no later than the ninth entry, in
    [EGL_NONE], with attribute names that are not [EGL_NONE] before it; from
    the ninth entry on it holds nothing else.  For GLES, and for OpenGL
    without a major version, mask or flags, it is the initial list that asks
    for client version 2. *)
Theorem context_attribs_shape arg :
  length (context_attribs arg) = 12%nat
  /\ (forall k, (8 <= k < 12)%nat -> context_attribs arg !! k = Some EGL_NONE)
  /\ (exists n, (n <= 4)%nat
                /\ context_attribs arg !! (2 * n)%nat = Some EGL_NONE
                /\ forall k, (k < n)%nat ->
                     exists name, context_attribs arg !! (2 * k)%nat = Some name
                                  /\ name <> EGL_NONE)
  /\ (api arg = API_GLES \/ (major arg = 0 /\ mask arg = 0 /\ flags arg = 0) ->
      context_attribs arg = [EGL_CONTEXT_CLIENT_VERSION; 2] ++ repeat EGL_NONE 10).
Proof.
  assert (Hk : forall l : list Z, length l = 12%nat ->
            l !! 8%nat = Some EGL_NONE -> l !! 9%nat = Some EGL_NONE ->
            l !! 10%nat = Some EGL_NONE -> l !! 11%nat = Some EGL_NONE ->
            forall k, (8 <= k < 12)%nat -> l !! k = Some EGL_NONE).
  { intros l _ H8 H9 H10 H11 k Hk.
    assert (C : k = 8%nat \/ k = 9%nat \/ k = 10%nat \/ k = 11%nat) by lia.
    destruct C as [-> | [-> | [-> | ->]]]; assumption. }
  assert (Hnames : forall (l : list Z) (n : nat),
            (forall k, (k < n)%nat -> exists name, l !! (2 * k)%nat = Some name
                                                   /\ name <> EGL_NONE) ->
            (n <= 4)%nat -> l !! (2 * n)%nat = Some EGL_NONE ->
            exists n, (n <= 4)%nat /\ l !! (2 * n)%nat = Some EGL_NONE
                      /\ forall k, (k < n)%nat ->
                           exists name, l !! (2 * k)%nat = Some name /\ name <> EGL_NONE).
  { intros l n H1 H2 H3. exists n. auto. }
  unfold context_attribs.
  destruct (Z.eqb_spec (api arg) API_GLES) as [Hg|Hg].
  { split; [reflexivity|]. split; [apply Hk; reflexivity|].
    split; [|reflexivity].
    apply (Hnames _ 1%nat); [|lia|reflexivity].
    intros k Hlt. assert (k = 0%nat) as -> by lia.
    eexists. split; [reflexivity|]. unfold EGL_NONE, EGL_CONTEXT_CLIENT_VERSION. lia. }
  destruct (Z.eqb_spec (major arg) 0) as [Hmj|Hmj];
    destruct (Z.eqb_spec (mask arg) 0) as [Hmk|Hmk];
    destruct (Z.eqb_spec (flags arg) 0) as [Hf|Hf];
    cbn [fst snd repeat app];
    (split; [reflexivity|]); (split; [apply Hk; reflexivity|]);
    (split; [|try reflexivity; intros [H|(H1 & H2 & H3)]; contradiction]).
  - apply (Hnames _ 1%nat); [|lia|reflexivity].
    intros k Hlt. assert (k = 0%nat) as -> by lia.
    eexists. split; [reflexivity|]. unfold EGL_NONE, EGL_CONTEXT_CLIENT_VERSION. lia.
  - apply (Hnames _ 1%nat); [|lia|reflexivity].
    intros k Hlt. assert (k = 0%nat) as -> by lia.
    eexists. split; [reflexivity|]. unfold EGL_NONE, EGL_CONTEXT_FLAGS_KHR. lia.
  - apply (Hnames _ 1%nat); [|lia|reflexivity].
    intros k Hlt. assert (k = 0%nat) as -> by lia.
    eexists. split; [reflexivity|]. unfold EGL_NONE, EGL_CONTEXT_OPENGL_PROFILE_MASK_KHR. lia.
  - apply (Hnames _ 2%nat); [|lia|reflexivity].
    intros k Hlt. assert (C : k = 0%nat \/ k = 1%nat) by lia.
    destruct C as [-> | ->]; eexists; (split; [reflexivity|]);
      unfold EGL_NONE, EGL_CONTEXT_OPENGL_PROFILE_MASK_KHR, EGL_CONTEXT_FLAGS_KHR; lia.
  - apply (Hnames _ 2%nat); [|lia|reflexivity].
    intros k Hlt. assert (C : k = 0%nat \/ k = 1%nat) by lia.
    destruct C as [-> | ->]; eexists; (split; [reflexivity|]);
      unfold EGL_NONE, EGL_CONTEXT_MAJOR_VERSION_KHR, EGL_CONTEXT_MINOR_VERSION_KHR; lia.
  - apply (Hnames _ 3%nat); [|lia|reflexivity].
    intros k Hlt. assert (C : k = 0%nat \/ k = 1%nat \/ k = 2%nat) by lia.
    destruct C as [-> | [-> | ->]]; eexists; (split; [reflexivity|]);
      unfold EGL_NONE, EGL_CONTEXT_MAJOR_VERSION_KHR, EGL_CONTEXT_MINOR_VERSION_KHR,
        EGL_CONTEXT_FLAGS_KHR; lia.
  - apply (Hnames _ 3%nat); [|lia|reflexivity].
    intros k Hlt. assert (C : k = 0%nat \/ k = 1%nat \/ k = 2%nat) by lia.
    destruct C as [-> | [-> | ->]]; eexists; (split; [reflexivity|]);
      unfold EGL_NONE, EGL_CONTEXT_MAJOR_VERSION_KHR, EGL_CONTEXT_MINOR_VERSION_KHR,
        EGL_CONTEXT_OPENGL_PROFILE_MASK_KHR; lia.
  - apply (Hnames _ 4%nat); [|lia|reflexivity].
    intros k Hlt. assert (C : k = 0%nat \/ k = 1%nat \/ k = 2%nat \/ k = 3%nat) by lia.
    destruct C as [-> | [-> | [-> | ->]]]; eexists; (split; [reflexivity|]);
      unfold EGL_NONE, EGL_CONTEXT_MAJOR_VERSION_KHR, EGL_CONTEXT_MINOR_VERSION_KHR,
        EGL_CONTEXT_OPENGL_PROFILE_MASK_KHR, EGL_CONTEXT_FLAGS_KHR; lia.
Qed.

(** *** Tearing down *)








(** X19: once dropped, the connection is turned away at every entry: a
    second drop and a signal fail, a context is neither added nor swapped
    in, and the world is left as it is. *)
Theorem dropped_connection_is_turned_away fns con d con' d' :
  arcan_shmifext_drop fns con d = Some (true, con', d') ->
  arcan_shmifext_drop fns con' d' = Some (false, con', d')
  /\ (forall dpy mask_arg tex o w,
        arcan_shmifext_signal fns con' dpy mask_arg tex o w = Some (-1, Rejected, con', w))
  /\ (forall arg env, arcan_shmifext_add_context con' arg env = Some (0, con'))
  /\ (forall ref w, arcan_shmifext_swap_context con' ref w = Some (con', w))
  /\ (forall no_fdpass st, arcan_shmifext_bufferfail no_fdpass con' st = con').
Proof.
  intros H.
  assert (Hnone : ext_internal con' = None).
  { unfold arcan_shmifext_drop in H.
    destruct (ext_internal con) as [[[c pe] ctx]|]; [|discriminate].
    destruct (display ctx =? 0); [discriminate|].
    destruct (drop_slots _ _ _ _ _) as [[[alloc slots] destroyed]|]; [|discriminate].
    destruct (gbm_drop _ _ _) as [[c' d3]|] eqn:Hg; [|discriminate].
    injection H as <- <-. unfold gbm_drop in Hg.
    cbn [privext with_internal internal] in Hg.
    destruct (if dev _ =? 0 then _ else _); [|discriminate].
    injection Hg as <- _. reflexivity. }
  unfold arcan_shmifext_drop, arcan_shmifext_signal, arcan_shmifext_add_context,
    arcan_shmifext_swap_context, arcan_shmifext_bufferfail.
  rewrite Hnone. auto.
Qed.

Lemma dropped_connection_is_turned_away_witness :
  exists con' d',
    arcan_shmifext_drop all_resolved (con_of managed_internal) (fresh_dw fresh_world)
    = Some (true, con', d')
    /\ arcan_shmifext_drop all_resolved con' d' = Some (false, con', d').
Proof.
  do 2 eexists. split; [reflexivity|].
  exact (proj1 (dropped_connection_is_turned_away all_resolved (con_of managed_internal)
                  (fresh_dw fresh_world) _ _ eq_refl)).
Defined.

(** *** Dropping the current context *)

Lemma make_current_destroys_nothing self con st r :
  arcan_shmifext_make_current self con st = Some r ->
  dw_destroyed (cs_world (snd r)) = dw_destroyed (cs_world st).
Proof.
  unfold arcan_shmifext_make_current.
  destruct (ext_internal con) as [[[c0 pe0] ctx0]|]; [|intros [= <-]; reflexivity].
  destruct (display ctx0 =? 0); [intros [= <-]; reflexivity|].
  unfold bind_targets.
  destruct (rtgt_cur ctx0 =? 0).
  - intros [= <-]. destruct (is_active st self); reflexivity.
  - destruct (buf_cur ctx0); [|discriminate].
    intros [= <-]. destruct (is_active st self); reflexivity.
Qed.

(** X20: [arcan_shmifext_drop_context] destroys the current context and
    clears [context], but neither the allocation mask nor the slot array:
    every reference resolves as before, so swapping to the reference of
    the destroyed context hands that same handle to [eglMakeCurrent]
    again. *)
Theorem drop_context_keeps_the_slot self con others st c pe i con' st' :
  ext_internal con = Some (c, pe, i) -> context i <> 0 ->
  arcan_shmifext_drop_context self con others st = Some (true, con', st') ->
  exists i',
    internal_of con' = Some i'
    /\ context i' = 0
    /\ ctx_alloc i' = ctx_alloc i /\ alt_contexts i' = alt_contexts i
    /\ In (context i) (dw_destroyed (cs_world st'))
    /\ (forall ind, get_egl_context i' ind = get_egl_context i ind)
    /\ (forall ref w,
          match arcan_shmifext_swap_context con ref w,
                arcan_shmifext_swap_context con' ref w with
          | Some (_, w1), Some (_, w2) => w2 = w1
          | None, None => True
          | _, _ => False
          end).
Proof.
  intros He Hc H. unfold arcan_shmifext_drop_context in H. rewrite He in H.
  destruct (Z.eqb_spec (display i) 0) as [|Hd]; [discriminate|].
  destruct (if is_active st self then Some (true, st)
            else arcan_shmifext_make_current self con st) as [[b1 st1]|]; [|discriminate].
  destruct (Z.eqb_spec (context i) 0) as [|_]; [contradiction|].
  set (i' := set_context i (context_ind i) 0) in *.
  set (st2 := mk_cs (dw_destroy_context _ _) _ _) in H.
  assert (Hst' : con' = Some (with_internal c pe i')
                 /\ dw_destroyed (cs_world st') = dw_destroyed (cs_world st2)).
  { destruct (active_context st) as [a|].
    - destruct (Z.eqb_spec a self) as [Heq|Hne].
      + destruct (arcan_shmifext_make_current self (Some (with_internal c pe i')) st2)
          as [[b3 st3]|] eqn:Hm; [|discriminate].
        injection H as <- <-. split; [reflexivity|].
        exact (make_current_destroys_nothing _ _ _ _ Hm).
      + destruct (arcan_shmifext_make_current a (others a) st2)
          as [[b3 st3]|] eqn:Hm; [|discriminate].
        injection H as <- <-. split; [reflexivity|].
        exact (make_current_destroys_nothing _ _ _ _ Hm).
    - injection H as <- <-. auto. }
  destruct Hst' as [-> Hdes'].
  exists i'. rewrite internal_of_with.
  split; [reflexivity|]. split; [reflexivity|]. split; [reflexivity|].
  split; [reflexivity|].
  split.
  { rewrite Hdes'. subst st2. cbn. apply in_or_app. right. now left. }
  assert (Hget : forall ind, get_egl_context i' ind = get_egl_context i ind) by reflexivity.
  split; [exact Hget|].
  intros ref w. unfold arcan_shmifext_swap_context.
  rewrite He, ext_internal_with.
  change (display i') with (display i).
  destruct ((display i =? 0) || (64 <? ref) || (ref =? 0)); [reflexivity|].
  rewrite Hget.
  destruct (get_egl_context i (ref - 1)) as [[h|]|]; auto.
Qed.

Lemma drop_context_keeps_the_slot_witness :
  exists i',
    internal_of (Some (with_internal (mk_con true None 640 480 4096 0)
                         (mk_hidden None true 5 (-1))
                         (set_context managed_internal 0 0)))
    = Some i'
    /\ context i' = 0.
Proof.
  assert (Hc : context (set_context managed_internal 0 4242) <> 0) by (cbn; lia).
  destruct (drop_context_keeps_the_slot 1
              (con_of (set_context managed_internal 0 4242)) (fun _ => None)
              (fresh_cs fresh_world)
              (mk_con true (Some (mk_hidden (Some (set_context managed_internal 0 4242))
                                    true 5 (-1))) 640 480 4096 0)
              (mk_hidden (Some (set_context managed_internal 0 4242)) true 5 (-1))
              (set_context managed_internal 0 4242)
              _ _ eq_refl Hc eq_refl) as (i' & Hi & Hc' & _).
  exists i'. split; [exact Hi|exact Hc'].
Defined.

(** *** Opening the device *)

Lemma check_functions_ok lookup :
  snd (check_functions lookup) = true ->
  fst (check_functions lookup) = all_resolved.
Proof.
  unfold check_functions. cbn [fst snd create_image destroy_image query_image_format
                                 export_dmabuf].
  intros H. apply andb_true_iff in H as [H H4]. apply andb_true_iff in H as [H H3].
  apply andb_true_iff in H as [H1 H2]. rewrite H1, H2, H3, H4. reflexivity.
Qed.

Lemma gbm_drop_zeroed fns c pe np gd d :
  gbm_drop fns (with_privext c (mk_hidden (Some (zeroed_internal np gd)) true
                                  (active_fd pe) (pending_fd pe))) d
  = Some (with_privext c (mk_hidden None false (active_fd pe) (pending_fd pe)), d).
Proof.
  unfold gbm_drop, gbm_drop_device. cbn.
  destruct (gd =? 0); destruct d; reflexivity.
Qed.

(** The first call of [arcan_shmifext_egl] on a connection. *)
Lemma egl_open_spec fns c pe o d :
  addr c = true -> privext c = Some pe -> internal pe = None ->
  active_fd pe = -1 -> pending_fd pe = -1 -> 0 <= next_handle (dw_egl d) ->
  exists r,
    arcan_shmifext_egl fns (Some c) true true o d = Some r
    /\ (er_ret r = true <->
        e_open_ok o = true /\ e_malloc_ok o = true /\ e_gbm_dev o <> 0
        /\ snd (check_functions (e_lookup o)) = true)
    /\ (er_ret r = true ->
        er_display r = Some (e_gbm_dev o)
        /\ er_fns r = all_resolved
        /\ er_con r
           = Some (mk_con true
                     (Some (mk_hidden (Some (zeroed_internal (e_no_fdpass o) (e_gbm_dev o)))
                              true (next_handle (dw_egl d) + 1) (-1)))
                     (con_w c) (con_h c) (vidp c) (e_auth_hints o (hints c)))
        /\ open_fds (dw_egl (er_world r)) = (next_handle (dw_egl d) + 1) :: open_fds (dw_egl d))
    /\ (er_ret r = false ->
        er_display r = None /\ internal_of (er_con r) = None
        /\ (forall fd, In fd (open_fds (dw_egl d)) -> In fd (open_fds (dw_egl (er_world r))))
        /\ (e_open_ok o = true ->
            In (next_handle (dw_egl d) + 1) (open_fds (dw_egl (er_world r)))
            /\ exists c' pe', er_con r = Some c' /\ privext c' = Some pe'
                              /\ active_fd pe' = next_handle (dw_egl d) + 1)).
Proof.
  intros Ha Hp Hi Hact Hpend Hnh.
  unfold arcan_shmifext_egl. rewrite Ha, Hp, Hpend, Hact, Hi. cbn [negb orb].
  change (-1 =? -1) with true. cbn [negb].
  destruct (e_open_ok o) eqn:Hopen.
  2:{ eexists. split; [reflexivity|]. cbn.
      split; [split; [discriminate|intros [H _]; discriminate]|].
      split; [discriminate|]. intros _.
      split; [reflexivity|].
      split; [unfold internal_of; cbn; rewrite Hi; reflexivity|].
      split; [auto|discriminate]. }
  unfold w_new_fd. unfold egl_open_device.
  set (fd := next_handle (dw_egl d) + 1).
  destruct (Z.eqb_spec fd (-1)) as [Hfd|Hfd]; [subst fd; lia|].
  rewrite Hi. cbn [internal].
  destruct (e_malloc_ok o) eqn:Hm; cbn [negb].
  2:{ eexists. split; [reflexivity|]. cbn.
      split; [split; [discriminate|intros (_ & H & _); discriminate]|].
      split; [discriminate|]. intros _.
      split; [reflexivity|]. split; [reflexivity|].
      split; [intros x Hx; now right|].
      intros _. split; [now left|]. do 2 eexists. split; [reflexivity|].
      split; reflexivity. }
  change (with_privext
            (with_hints (with_privext c (mk_hidden None true fd (pending_fd pe)))
               (e_auth_hints o (hints c)))
            (mk_hidden (Some (zeroed_internal (e_no_fdpass o) (e_gbm_dev o))) true fd
               (pending_fd pe)))
    with (with_privext (with_hints c (e_auth_hints o (hints c)))
            (mk_hidden (Some (zeroed_internal (e_no_fdpass o) (e_gbm_dev o))) true
               (active_fd (mk_hidden None true fd (pending_fd pe)))
               (pending_fd (mk_hidden None true fd (pending_fd pe))))).
  destruct (Z.eqb_spec (e_gbm_dev o) 0) as [Hdev|Hdev].
  { rewrite gbm_drop_zeroed. eexists. split; [reflexivity|]. cbn.
    split; [split; [discriminate|intros (_ & _ & H & _); contradiction]|].
    split; [discriminate|]. intros _.
    split; [reflexivity|]. split; [reflexivity|].
    split; [intros x Hx; now right|].
    intros _. split; [now left|]. do 2 eexists. split; [reflexivity|].
    split; reflexivity. }
  destruct (check_functions (e_lookup o)) as [fns' ok] eqn:Hck.
  destruct ok.
  - eexists. split; [reflexivity|]. cbn.
    split; [split; auto|]. split; [|discriminate]. intros _.
    split; [reflexivity|].
    split; [pose proof (check_functions_ok (e_lookup o)) as H; rewrite Hck in H;
            apply H; reflexivity|].
    split; [|reflexivity].
    unfold with_privext, with_hints; cbn; rewrite ?Ha, ?Hpend; reflexivity.
  - rewrite gbm_drop_zeroed. eexists. split; [reflexivity|]. cbn.
    split; [split; [discriminate|intros (_ & _ & _ & H); discriminate]|].
    split; [discriminate|]. intros _.
    split; [reflexivity|]. split; [reflexivity|].
    split; [intros x Hx; now right|].
    intros _. split; [now left|]. do 2 eexists. split; [reflexivity|].
    split; reflexivity.
Qed.

(** X21: the first call of [arcan_shmifext_egl] on a connection, one with
    no record and no descriptor yet, succeeds exactly when the render node
    opens, memory and a device are obtained and all four functions resolve.
    It then leaves a zeroed record on that device with no descriptor
    exported, passing switched off only by the environment, writes the
    device to [*display] and notes the open descriptor in [active_fd].  On
    failure no record is left and nothing is written; a descriptor that had
    been opened stays open. *)
Theorem egl_first_open fns c pe o d :
  addr c = true -> privext c = Some pe -> internal pe = None ->
  active_fd pe = -1 -> pending_fd pe = -1 -> 0 <= next_handle (dw_egl d) ->
  exists r,
    arcan_shmifext_egl fns (Some c) true true o d = Some r
    /\ (er_ret r = true <->
        e_open_ok o = true /\ e_malloc_ok o = true /\ e_gbm_dev o <> 0
        /\ snd (check_functions (e_lookup o)) = true)
    /\ (er_ret r = true ->
        er_display r = Some (e_gbm_dev o)
        /\ er_fns r = all_resolved
        /\ er_con r
           = Some (mk_con true
                     (Some (mk_hidden (Some (zeroed_internal (e_no_fdpass o) (e_gbm_dev o)))
                              true (next_handle (dw_egl d) + 1) (-1)))
                     (con_w c) (con_h c) (vidp c) (e_auth_hints o (hints c)))
        /\ open_fds (dw_egl (er_world r)) = (next_handle (dw_egl d) + 1) :: open_fds (dw_egl d))
    /\ (er_ret r = false ->
        er_display r = None /\ internal_of (er_con r) = None
        /\ (forall fd, In fd (open_fds (dw_egl d)) -> In fd (open_fds (dw_egl (er_world r))))
        /\ (e_open_ok o = true ->
            In (next_handle (dw_egl d) + 1) (open_fds (dw_egl (er_world r)))
            /\ exists c' pe', er_con r = Some c' /\ privext c' = Some pe'
                              /\ active_fd pe' = next_handle (dw_egl d) + 1)).
Proof. exact (egl_open_spec fns c pe o d). Qed.

Lemma egl_first_open_witness :
  exists r,
    arcan_shmifext_egl all_resolved (Some fresh_connection) true true (egl_answers true)
      (fresh_dw fresh_world) = Some r
    /\ (er_ret r = true <->
        e_open_ok (egl_answers true) = true /\ e_malloc_ok (egl_answers true) = true
        /\ e_gbm_dev (egl_answers true) <> 0
        /\ snd (check_functions (e_lookup (egl_answers true))) = true).
Proof.
  destruct (egl_first_open all_resolved fresh_connection (mk_hidden None false (-1) (-1))
              (egl_answers true) (fresh_dw fresh_world)
              eq_refl eq_refl eq_refl eq_refl eq_refl ltac:(cbn; lia))
    as (r & Hr & Hiff & _).
  exists r. split; [exact Hr|exact Hiff].
Defined.

(** *** Setting up *)

Lemma add_context_keeps_display ctx arg env st ind ctx' :
  add_context ctx arg env = Some (st, ind, ctx') -> display ctx' = display ctx.
Proof.
  intros H.
  destruct (add_context_outcomes _ _ _ _ _ _ H) as (_ & _ & Hsame & Hnc & _).
  destruct st; try (rewrite Hsame by discriminate; reflexivity).
  - destruct (Hnc eq_refl) as (slots & -> & _). reflexivity.
  - destruct ind as [n|].
    + destruct (add_context_ok _ _ _ _ _ H) as (i & _ & _ & _ & _ & _ & _ & Hd & _).
      exact Hd.
    + unfold add_context in H.
      repeat match type of H with
             | (if ?b then _ else _) = _ => destruct b
             | match ?x with _ => _ end = _ => destruct x
             end; discriminate.
Qed.

Lemma swap_context_keeps_display con ref w con' w' c pe i :
  arcan_shmifext_swap_context con ref w = Some (con', w') ->
  ext_internal con = Some (c, pe, i) ->
  exists c' pe' i', ext_internal con' = Some (c', pe', i')
                 /\ display i' = display i /\ managed i' = managed i
                 /\ ctx_alloc i' = ctx_alloc i /\ alt_contexts i' = alt_contexts i
                 /\ nopass i' = nopass i /\ buf_cur i' = buf_cur i
                 /\ rtgt_cur i' = rtgt_cur i.
Proof.
  unfold arcan_shmifext_swap_context. intros H He. rewrite He in H.
  destruct ((display i =? 0) || (64 <? ref) || (ref =? 0)).
  { injection H as <- <-. exists c, pe, i. auto 10. }
  destruct (get_egl_context i (ref - 1)) as [[h|]|]; [| |discriminate].
  - injection H as <- <-. do 3 eexists. split; [apply ext_internal_with|].
    cbn. auto 10.
  - injection H as <- <-. exists c, pe, i. auto 10.
Qed.

Lemma setup_buffers_keeps_display c arg o ctx st :
  display (fst (setup_buffers c arg o ctx st)) = display ctx.
Proof.
  unfold setup_buffers.
  destruct ((builtin_fbo arg =? 0) && (vidp_pack arg =? 0)); [reflexivity|].
  destruct (builtin_fbo arg =? 0), (vidp_pack arg =? 0); try reflexivity;
    destruct (builtin_fbo arg =? 2); reflexivity.
Qed.

Lemma setup_managed_display self fns c1 pe1 ctx1 arg o st1 r :
  setup_managed self fns c1 pe1 ctx1 arg o st1 = Some r ->
  exists pe i, ext_internal (Some (sr_con r)) = Some (sr_con r, pe, i)
               /\ display i = display ctx1.
Proof.
  unfold setup_managed. intros H.
  destruct (add_context (set_managed ctx1 true) arg (so_config o))
    as [[[status ind] ctx3]|] eqn:Ha; [|discriminate].
  pose proof (add_context_keeps_display _ _ _ _ _ _ Ha) as Hd3.
  cbn [display set_managed] in Hd3.
  assert (Hfail : status <> SHMIFEXT_OK ->
            Some (mk_setupr status fns (with_internal c1 pe1 ctx3) st1) = Some r ->
            exists pe i, ext_internal (Some (sr_con r)) = Some (sr_con r, pe, i)
                         /\ display i = display ctx1).
  { intros _ [= <-]. cbn [sr_con]. do 2 eexists. split; [|exact Hd3].
    unfold ext_internal. reflexivity. }
  destruct status; try (apply Hfail; [discriminate|exact H]).
  destruct ind as [ind|]; [|discriminate].
  destruct (arcan_shmifext_swap_context _ _ _) as [[con4 w4]|] eqn:Hs; [|discriminate].
  destruct (swap_context_keeps_display _ _ _ _ _ _ _ _ Hs (ext_internal_with _ _ _))
    as (c4 & pe4 & ctx4 & He4 & Hd4 & _).
  rewrite He4 in H.
  destruct (arcan_shmifext_make_current _ _ _) as [[b st7]|]; [|discriminate].
  injection H as <-. cbn [sr_con]. do 2 eexists.
  split; [unfold ext_internal; reflexivity|].
  rewrite setup_buffers_keeps_display. cbn [display set_surface]. congruence.
Qed.

Lemma setup_leaves_display self fns c arg o st r :
  arcan_shmifext_setup self fns c arg o st = Some r ->
  sr_status r <> SHMIFEXT_NO_API -> sr_status r <> SHMIFEXT_NO_DISPLAY ->
  is_setup (sr_con r) = true.
Proof.
  unfold arcan_shmifext_setup. intros H Hna Hnd.
  destruct (privext c) as [pe|] eqn:Hp; [|discriminate].
  destruct (is_setup c) eqn:Hset; [injection H as <-; exact Hset|].
  destruct (negb ((api arg =? API_OPENGL) || (api arg =? API_GLES)));
    [injection H as <-; contradiction|].
  destruct (negb (so_bind_api o)); [injection H as <-; contradiction|].
  destruct (arcan_shmifext_egl _ _ _ _ _ _) as [er|]; [|discriminate].
  destruct (er_con er) as [c1|]; [|discriminate].
  destruct (negb (er_ret er)); [injection H as <-; contradiction|].
  destruct (er_display er) as [dpy_ptr|]; [|discriminate].
  destruct (ext_internal (Some c1)) as [[[c1' pe1] ctx]|]; [|discriminate].
  unfold setup_display in H.
  destruct (Z.eqb_spec (display (set_display ctx (so_get_display o dpy_ptr))) 0)
    as [|Hnz]; [injection H as <-; contradiction|].
  assert (Hdone : forall status,
            Some (mk_setupr status (er_fns er)
                    (with_internal c1 pe1 (set_display ctx (so_get_display o dpy_ptr)))
                    (mk_cs (er_world er) (active_context st) (agp_calls st))) = Some r ->
            is_setup (sr_con r) = true).
  { intros status [= <-]. unfold is_setup. cbn [sr_con]. rewrite ext_internal_with.
    apply negb_true_iff, Z.eqb_neq. exact Hnz. }
  destruct (negb (so_initialize o)); [exact (Hdone _ H)|].
  destruct (negb (no_context arg =? 0)); [exact (Hdone _ H)|].
  destruct (setup_managed_display _ _ _ _ _ _ _ _ _ H) as (pe' & i' & He & Hd).
  unfold is_setup. rewrite He. apply negb_true_iff, Z.eqb_neq. congruence.
Qed.

(** X22: a setup that fails after the display has been obtained, whether
    at [eglInitialize], at the choice of a configuration or at the creation
    of the context, leaves the display in the record.  Every later setup
    of that connection is then answered [SHMIFEXT_ALREADY_SETUP] and does
    nothing, as it is after a setup that succeeded. *)
Theorem setup_past_display_blocks_retry self fns c arg o st r :
  arcan_shmifext_setup self fns c arg o st = Some r ->
  sr_status r <> SHMIFEXT_NO_API -> sr_status r <> SHMIFEXT_NO_DISPLAY ->
  forall self' fns' arg' o' st',
    arcan_shmifext_setup self' fns' (sr_con r) arg' o' st'
    = Some (mk_setupr SHMIFEXT_ALREADY_SETUP fns' (sr_con r) st').
Proof.
  intros H Hna Hnd self' fns' arg' o' st'.
  pose proof (setup_leaves_display _ _ _ _ _ _ _ H Hna Hnd) as Hset.
  unfold arcan_shmifext_setup. rewrite Hset.
  unfold is_setup, ext_internal in Hset.
  destruct (privext (sr_con r)); [reflexivity|discriminate].
Qed.

Lemma setup_past_display_blocks_retry_witness :
  exists r,
    arcan_shmifext_setup 1 all_resolved fresh_connection default_setup
      (setup_answers false 9) (fresh_cs fresh_world) = Some r
    /\ arcan_shmifext_setup 1 all_resolved (sr_con r) default_setup
         (setup_answers true 9) (fresh_cs fresh_world)
       = Some (mk_setupr SHMIFEXT_ALREADY_SETUP all_resolved (sr_con r)
                 (fresh_cs fresh_world)).
Proof.
  eexists. split; [reflexivity|].
  apply (setup_past_display_blocks_retry 1 all_resolved fresh_connection default_setup
           (setup_answers false 9) (fresh_cs fresh_world) _ eq_refl); discriminate.
Defined.

(** [add_context] on a record with no slot in use. *)
Lemma add_context_fresh ctx arg env ind ctx3 :
  ctx_alloc ctx = 0 -> length (alt_contexts ctx) = 64%nat ->
  add_context ctx arg env = Some (SHMIFEXT_OK, ind, ctx3) ->
  ind = Some 1
  /\ create_context env 0 (context_attribs arg) <> 0
  /\ ctx3 = set_ctx_alloc
              (set_alt_contexts ctx
                 (<[0%nat := create_context env 0 (context_attribs arg)]> (alt_contexts ctx)))
              1.
Proof.
  intros Ha Hl. unfold add_context.
  destruct (negb ((api arg =? API_OPENGL) || (api arg =? API_GLES))); [discriminate|].
  rewrite Ha. change (first_free 0 64 0) with (Some 0).
  destruct (negb (getconfigs_ok env)); [discriminate|].
  destruct (getconfigs_nc env =? 0); [discriminate|].
  destruct (negb (chooseconfig_ok env) || (chooseconfig_nc env <? 1)); [discriminate|].
  assert (Hshared : (if shared_context arg =? 0 then Some None
                     else get_egl_context ctx (to_uint32 (shared_context arg)))
                    = Some None).
  { destruct (shared_context arg =? 0); [reflexivity|].
    unfold get_egl_context.
    destruct (64 <=? to_uint32 (shared_context arg)); [reflexivity|].
    rewrite Ha.
    assert (Hb : forall ind0, slot_bit 0 ind0 = false).
    { intros ind0. unfold slot_bit. rewrite Z.land_0_r. reflexivity. }
    rewrite Hb. cbn [negb]. rewrite orb_true_r. reflexivity. }
  rewrite Hshared.
  change (to_int32 (shl_int 0 - 1)) with 0.
  change (to_uint64 (Z.shiftl 0 0)) with 0.
  unfold alt_write. rewrite Hl.
  change ((0 <=? 0) && (0 <? 64) && (0 <? Z.of_nat 64)) with true. cbv iota.
  unfold alt_read.
  change ((0 <=? 0) && (0 <? 64)) with true. cbv iota.
  change (Z.to_nat 0) with 0%nat.
  rewrite list_lookup_insert_eq by (rewrite Hl; lia).
  destruct (Z.eqb_spec (create_context env 0 (context_attribs arg)) 0) as [|Hnz];
    [discriminate|].
  intros [= <- <-]. auto.
Qed.

Lemma setup_buffers_spec c arg o ctx st :
  let r := setup_buffers c arg o ctx st in
  display (fst r) = display ctx /\ managed (fst r) = managed ctx
  /\ ctx_alloc (fst r) = ctx_alloc ctx /\ alt_contexts (fst r) = alt_contexts ctx
  /\ context (fst r) = context ctx /\ context_ind (fst r) = context_ind ctx
  /\ nopass (fst r) = nopass ctx /\ image (fst r) = image ctx
  /\ dmabuf (fst r) = dmabuf ctx /\ dev (fst r) = dev ctx
  /\ cs_world (snd r) = cs_world st /\ active_context (snd r) = active_context st
  /\ buf_cur (fst r)
     = (if (builtin_fbo arg =? 0) && (vidp_pack arg =? 0) then buf_cur ctx else Some BufA)
  /\ rtgt_cur (fst r) = (if builtin_fbo arg =? 0 then rtgt_cur ctx else so_rtgt_a o)
  /\ rtgt_a (fst r) = (if builtin_fbo arg =? 0 then rtgt_a ctx else so_rtgt_a o)
  /\ rtgt_b (fst r)
     = (if negb (builtin_fbo arg =? 0) && (builtin_fbo arg =? 2) then so_rtgt_b o
        else rtgt_b ctx)
  /\ swap (fst r) = (if builtin_fbo arg =? 0 then swap ctx else builtin_fbo arg =? 3).
Proof.
  cbv zeta. unfold setup_buffers.
  destruct (builtin_fbo arg =? 0) eqn:Hb, (vidp_pack arg =? 0) eqn:Hv; cbn [andb negb];
    try (destruct (builtin_fbo arg =? 2)); cbn; auto 20.
Qed.

(** A setup that succeeds with a context on a connection without record
    or descriptor. *)
Lemma setup_fresh_spec self fns c pe arg o st r :
  addr c = true -> privext c = Some pe -> internal pe = None ->
  active_fd pe = -1 -> pending_fd pe = -1 ->
  0 <= next_handle (dw_egl (cs_world st)) ->
  no_context arg = 0 ->
  arcan_shmifext_setup self fns c arg o st = Some r -> sr_status r = SHMIFEXT_OK ->
  exists i,
    internal_of (Some (sr_con r)) = Some i
    /\ addr (sr_con r) = true
    /\ managed i = true
    /\ display i = so_get_display o (e_gbm_dev (so_egl o)) /\ display i <> 0
    /\ ctx_alloc i = 1 /\ one_slot i
    /\ context i = create_context (so_config o) 0 (context_attribs arg)
    /\ context i <> 0 /\ context_ind i = 0
    /\ alt_contexts i !! 0%nat = Some (context i)
    /\ current_context (dw_egl (cs_world (sr_state r))) = context i
    /\ active_context (sr_state r) = Some self
    /\ sr_fns r = all_resolved
    /\ nopass i = e_no_fdpass (so_egl o) /\ image i = 0 /\ dmabuf i = -1
    /\ buf_cur i
       = (if (builtin_fbo arg =? 0) && (vidp_pack arg =? 0) then None else Some BufA)
    /\ rtgt_cur i = (if builtin_fbo arg =? 0 then 0 else so_rtgt_a o)
    /\ rtgt_b i
       = (if negb (builtin_fbo arg =? 0) && (builtin_fbo arg =? 2) then so_rtgt_b o else 0)
    /\ swap i = (if builtin_fbo arg =? 0 then false else builtin_fbo arg =? 3).
Proof.
  intros Ha Hp Hi Hact Hpend Hnh Hnc H Hok.
  unfold arcan_shmifext_setup in H. rewrite Hp in H.
  assert (Hns : is_setup c = false)
    by (unfold is_setup, ext_internal; rewrite Hp, Hi; reflexivity).
  rewrite Hns in H.
  destruct (negb ((api arg =? API_OPENGL) || (api arg =? API_GLES)));
    [injection H as <-; discriminate|].
  destruct (negb (so_bind_api o)); [injection H as <-; discriminate|].
  destruct (egl_open_spec fns c pe (so_egl o) (cs_world st) Ha Hp Hi Hact Hpend Hnh)
    as (er & Her & _ & Htrue & _).
  rewrite Her in H.
  destruct (er_con er) as [c1|] eqn:Hc1; [|discriminate].
  destruct (er_ret er) eqn:Hret; cbn [negb] in H; [|injection H as <-; discriminate].
  destruct (Htrue eq_refl) as (Hdpy & Hfns & Hcon & Hopen).
  rewrite Hdpy in H. injection Hcon as ->.
  cbn [ext_internal privext internal] in H.
  unfold setup_display in H. cbn [display set_display] in H.
  destruct (Z.eqb_spec (so_get_display o (e_gbm_dev (so_egl o))) 0) as [|Hdnz];
    [injection H as <-; discriminate|].
  destruct (negb (so_initialize o)); [injection H as <-; discriminate|].
  rewrite Hnc in H. cbn [Z.eqb negb] in H.
  unfold setup_managed in H.
  set (c1 := mk_con true _ _ _ _ _) in H.
  set (pe1 := mk_hidden _ _ _ _) in H.
  set (ctx2 := set_managed _ true) in H.
  destruct (add_context ctx2 arg (so_config o)) as [[[status ind] ctx3]|] eqn:Hadd;
    [|discriminate].
  destruct status; try (injection H as <-; discriminate).
  destruct (add_context_fresh ctx2 arg (so_config o) ind ctx3 eq_refl eq_refl Hadd)
    as (-> & Hcreated & ->).
  set (created := create_context (so_config o) 0 (context_attribs arg)) in *.
  set (ctx3 := set_ctx_alloc _ 1) in H.
  assert (Hswap : arcan_shmifext_swap_context (Some (with_internal c1 pe1 ctx3)) 1
                    (dw_egl (er_world er))
                  = Some (Some (with_internal c1 pe1 (set_context ctx3 0 created)),
                          w_make_current (dw_egl (er_world er)) created)).
  { unfold arcan_shmifext_swap_context. rewrite ext_internal_with.
    change (display ctx3) with (so_get_display o (e_gbm_dev (so_egl o))).
    destruct (Z.eqb_spec (so_get_display o (e_gbm_dev (so_egl o))) 0); [contradiction|].
    reflexivity. }
  cbn [cs_world] in H. rewrite Hswap in H. rewrite ext_internal_with in H.
  set (c4 := with_internal c1 pe1 (set_context ctx3 0 created)) in H.
  set (pe4 := mk_hidden _ _ _ _) in H.
  set (ctx5 := set_surface (set_context ctx3 0 created) 0) in H.
  set (st5 := mk_cs _ (Some self) _) in H.
  pose proof (setup_buffers_spec c4 arg o ctx5 st5) as Hb. cbv zeta in Hb.
  destruct Hb as (B1 & B2 & B3 & B4 & B5 & B6 & B7 & B8 & B9 & B10 & B11 & B12 & B13
                  & B14 & B15 & B16 & B17).
  set (ctx6 := fst (setup_buffers c4 arg o ctx5 st5)) in *.
  set (st6 := snd (setup_buffers c4 arg o ctx5 st5)) in *.
  destruct (arcan_shmifext_make_current self (Some (with_internal c4 pe4 ctx6)) st6)
    as [[b st7]|] eqn:Hmc; [|discriminate].
  injection H as <-. cbn [sr_con sr_state sr_fns].
  exists ctx6. rewrite internal_of_with.
  assert (Hst7 : cs_world st7 = cs_world st6 /\ active_context st7 = active_context st6).
  { unfold arcan_shmifext_make_current in Hmc. rewrite ext_internal_with in Hmc.
    destruct (display ctx6 =? 0); [injection Hmc as _ <-; auto|].
    assert (Hact6 : is_active st6 self = true)
      by (unfold is_active; rewrite B12; cbn; apply Z.eqb_refl).
    rewrite Hact6 in Hmc. unfold bind_targets in Hmc.
    destruct (rtgt_cur ctx6 =? 0); [injection Hmc as _ <-; auto|].
    destruct (buf_cur ctx6); [|discriminate].
    injection Hmc as _ <-. auto. }
  destruct Hst7 as [W7 A7].
  split; [reflexivity|]. split; [reflexivity|].
  split; [rewrite B2; reflexivity|].
  split; [rewrite B1; reflexivity|].
  split; [rewrite B1; exact Hdnz|].
  split; [rewrite B3; reflexivity|].
  split.
  { split; [right; rewrite B3; reflexivity|]. rewrite B4.
    split; [reflexivity|].
    intros k Hk. cbn [alt_contexts ctx5 set_surface set_context ctx3 set_ctx_alloc
                      set_alt_contexts ctx2 set_managed set_display zeroed_internal].
    rewrite list_lookup_insert_ne by lia. apply lookup_repeat. lia. }
  split; [rewrite B5; reflexivity|].
  split; [rewrite B5; exact Hcreated|].
  split; [rewrite B6; reflexivity|].
  split; [rewrite B4, B5; reflexivity|].
  split; [rewrite W7, B11, B5; reflexivity|].
  split; [rewrite A7, B12; reflexivity|].
  split; [exact Hfns|].
  split; [rewrite B7; reflexivity|].
  split; [rewrite B8; reflexivity|].
  split; [rewrite B9; reflexivity|].
  split; [rewrite B13; destruct ((builtin_fbo arg =? 0) && (vidp_pack arg =? 0)); reflexivity|].
  split; [rewrite B14; destruct (builtin_fbo arg =? 0); reflexivity|].
  split; [rewrite B16; destruct (negb (builtin_fbo arg =? 0) && (builtin_fbo arg =? 2));
          reflexivity|].
  rewrite B17. destruct (builtin_fbo arg =? 0); reflexivity.
Qed.

(** X23: a setup that asks for a context and succeeds on a connection
    without record leaves a managed record on the display of the new device
    with exactly the first slot in use: the context EGL created, unshared
    whatever [shared_context] says, is in that slot, is the current one and
    is noted in [context].  This connection is the active one and all four
    functions are resolved.  [buf_cur] points at the first store when a
    built-in target or packing was asked for and nowhere otherwise, and the
    render targets are those the mode asks for. *)
Theorem setup_success_state self fns c pe arg o st r :
  addr c = true -> privext c = Some pe -> internal pe = None ->
  active_fd pe = -1 -> pending_fd pe = -1 ->
  0 <= next_handle (dw_egl (cs_world st)) ->
  no_context arg = 0 ->
  arcan_shmifext_setup self fns c arg o st = Some r -> sr_status r = SHMIFEXT_OK ->
  exists i,
    internal_of (Some (sr_con r)) = Some i
    /\ addr (sr_con r) = true
    /\ managed i = true
    /\ display i = so_get_display o (e_gbm_dev (so_egl o)) /\ display i <> 0
    /\ ctx_alloc i = 1 /\ one_slot i
    /\ context i = create_context (so_config o) 0 (context_attribs arg)
    /\ context i <> 0 /\ context_ind i = 0
    /\ alt_contexts i !! 0%nat = Some (context i)
    /\ current_context (dw_egl (cs_world (sr_state r))) = context i
    /\ active_context (sr_state r) = Some self
    /\ sr_fns r = all_resolved
    /\ nopass i = e_no_fdpass (so_egl o) /\ image i = 0 /\ dmabuf i = -1
    /\ buf_cur i
       = (if (builtin_fbo arg =? 0) && (vidp_pack arg =? 0) then None else Some BufA)
    /\ rtgt_cur i = (if builtin_fbo arg =? 0 then 0 else so_rtgt_a o)
    /\ rtgt_b i
       = (if negb (builtin_fbo arg =? 0) && (builtin_fbo arg =? 2) then so_rtgt_b o else 0)
    /\ swap i = (if builtin_fbo arg =? 0 then false else builtin_fbo arg =? 3).
Proof. exact (setup_fresh_spec self fns c pe arg o st r). Qed.

Lemma setup_success_state_witness :
  exists i,
    internal_of
      (Some (sr_con (default (mk_setupr SHHIFEXT_UNKNOWN all_resolved fresh_connection
                                (fresh_cs fresh_world))
                       (arcan_shmifext_setup 1 all_resolved fresh_connection default_setup
                          (setup_answers true 9) (fresh_cs fresh_world))))) = Some i
    /\ ctx_alloc i = 1.
Proof.
  destruct (arcan_shmifext_setup 1 all_resolved fresh_connection default_setup
              (setup_answers true 9) (fresh_cs fresh_world)) as [r|] eqn:Hs.
  - assert (Hok : sr_status r = SHMIFEXT_OK).
    { pose proof Hs as Hv. vm_compute in Hv. injection Hv as <-. reflexivity. }
    assert (Hnh : 0 <= next_handle (dw_egl (cs_world (fresh_cs fresh_world))))
      by (cbn; lia).
    destruct (setup_success_state 1 all_resolved fresh_connection
                (mk_hidden None false (-1) (-1)) default_setup (setup_answers true 9)
                (fresh_cs fresh_world) r
                eq_refl eq_refl eq_refl eq_refl eq_refl Hnh eq_refl Hs Hok)
      as (i & Hi & _ & _ & _ & _ & Ha & _).
    exists i. split; [exact Hi|exact Ha].
  - vm_compute in Hs. discriminate Hs.
Defined.

(** X24: after a setup that succeeded with a context but was asked for
    neither a built-in target nor packing, with passing not switched off,
    signalling the built-in target reads through the [buf_cur] that was
    never set: the call has no defined result. *)
Theorem builtin_signal_needs_buffers self fns c pe arg o st r :
  addr c = true -> privext c = Some pe -> internal pe = None ->
  active_fd pe = -1 -> pending_fd pe = -1 ->
  0 <= next_handle (dw_egl (cs_world st)) ->
  no_context arg = 0 -> builtin_fbo arg = 0 -> vidp_pack arg = 0 ->
  e_no_fdpass (so_egl o) = false ->
  arcan_shmifext_setup self fns c arg o st = Some r -> sr_status r = SHMIFEXT_OK ->
  forall fns' dpy mask_arg so w,
    arcan_shmifext_signal fns' (Some (sr_con r)) dpy mask_arg SHMIFEXT_BUILTIN so w = None.
Proof.
  intros Ha Hp Hi Hact Hpend Hnh Hnc Hfbo Hpack Hnp H Hok fns' dpy mask_arg so w.
  destruct (setup_fresh_spec _ _ _ _ _ _ _ _ Ha Hp Hi Hact Hpend Hnh Hnc H Hok)
    as (i & Hint & Haddr & Hm & _ & Hd & _ & _ & _ & _ & _ & _ & _ & _ & _ & Hnopass & _ & _
        & Hbuf & Hrt & _).
  rewrite Hfbo, Hpack in Hbuf. rewrite Hfbo in Hrt. cbn in Hbuf, Hrt.
  unfold arcan_shmifext_signal. unfold internal_of in Hint.
  destruct (ext_internal (Some (sr_con r))) as [[[c' pe'] i']|] eqn:He; [|discriminate].
  injection Hint as ->.
  assert (Hc' : c' = sr_con r).
  { unfold ext_internal in He. destruct (privext (sr_con r)) as [p|]; [|discriminate].
    destruct (internal p); [|discriminate]. now injection He as <- _ _. }
  rewrite Hc', Haddr. cbn [negb].
  unfold signal_prepare.
  assert (Hdpy : ((if dpy =? 0 then display i else dpy) =? 0) = false).
  { destruct (Z.eqb_spec dpy 0); apply Z.eqb_neq; lia. }
  rewrite Hdpy, Z.eqb_refl, Hm, Hrt, Hnopass, Hnp, Hbuf. reflexivity.
Qed.

Lemma builtin_signal_needs_buffers_witness :
  arcan_shmifext_signal all_resolved
    (Some (sr_con (default (mk_setupr SHHIFEXT_UNKNOWN all_resolved fresh_connection
                              (fresh_cs fresh_world))
                     (arcan_shmifext_setup 1 all_resolved fresh_connection plain_setup
                        (setup_answers true 9) (fresh_cs fresh_world)))))
    0 0 SHMIFEXT_BUILTIN sig_export_ok fresh_world = None.
Proof.
  destruct (arcan_shmifext_setup 1 all_resolved fresh_connection plain_setup
              (setup_answers true 9) (fresh_cs fresh_world)) as [r|] eqn:Hs.
  - assert (Hok : sr_status r = SHMIFEXT_OK).
    { pose proof Hs as Hv. vm_compute in Hv. injection Hv as <-. reflexivity. }
    assert (Hnh : 0 <= next_handle (dw_egl (cs_world (fresh_cs fresh_world))))
      by (cbn; lia).
    exact (builtin_signal_needs_buffers 1 all_resolved fresh_connection
             (mk_hidden None false (-1) (-1)) plain_setup (setup_answers true 9)
             (fresh_cs fresh_world) r
             eq_refl eq_refl eq_refl eq_refl eq_refl Hnh
             eq_refl eq_refl eq_refl eq_refl Hs Hok
             all_resolved 0 0 sig_export_ok fresh_world).
  - vm_compute in Hs. discriminate Hs.
Defined.

(** *** What a successful [arcan_shmifext_egl] guarantees *)

Lemma egl_open_device_true fns c pe dfd o d r :
  egl_open_device fns c pe dfd o d = Some r -> er_ret r = true ->
  er_fns r = all_resolved
  /\ exists i, internal_of (er_con r) = Some i /\ er_display r = Some (dev i).
Proof.
  unfold egl_open_device.
  destruct (dfd =? -1); [intros [= <-]; discriminate|].
  assert (Hfin : forall c2 i,
            internal_of (Some c2) = Some i ->
            (let '(fns', ok) := check_functions (e_lookup o) in
             if ok then Some (mk_eglr true (Some (dev i)) fns' (Some c2) d)
             else match gbm_drop fns' c2 d with
                  | Some (c3, d3) => Some (mk_eglr false None fns' (Some c3) d3)
                  | None => None
                  end) = Some r ->
            er_ret r = true ->
            er_fns r = all_resolved
            /\ exists i, internal_of (er_con r) = Some i /\ er_display r = Some (dev i)).
  { intros c2 i Hi.
    pose proof (check_functions_ok (e_lookup o)) as Hck.
    destruct (check_functions (e_lookup o)) as [fns' ok]. cbn [fst snd] in Hck.
    destruct ok.
    - intros [= <-] _. cbn. split; [auto|]. exists i. auto.
    - destruct (gbm_drop fns' c2 d) as [[c3 d3]|]; [|discriminate].
      intros [= <-]. discriminate. }
  destruct (internal pe) as [i|] eqn:Hi.
  - apply Hfin. unfold internal_of, ext_internal. cbn. reflexivity.
  - destruct (negb (e_malloc_ok o)); [intros [= <-]; discriminate|].
    destruct (e_gbm_dev o =? 0).
    + destruct (gbm_drop _ _ _) as [[c3 d3]|]; [|discriminate].
      intros [= <-]. discriminate.
    + apply Hfin. reflexivity.
Qed.

(** X25: whenever [arcan_shmifext_egl] returns [true], all four function
    pointers of the file are resolved and the connection has a record.
    The device of that record has been written to [*display], except on
    the path for a connection that has a record but no descriptor: there
    the call only refreshes the pointers, writes nothing and changes
    nothing else. *)
Theorem egl_true_resolves_functions fns con lookup_given display_given o d r :
  arcan_shmifext_egl fns con lookup_given display_given o d = Some r ->
  er_ret r = true ->
  er_fns r = all_resolved
  /\ exists i,
       internal_of (er_con r) = Some i
       /\ (er_display r = Some (dev i)
           \/ (er_display r = None /\ er_con r = con /\ er_world r = d)).
Proof.
  unfold arcan_shmifext_egl.
  destruct con as [c|]; [|intros [= <-]; discriminate].
  destruct (negb lookup_given || negb (addr c) || negb display_given);
    [intros [= <-]; discriminate|].
  destruct (privext c) as [pe|] eqn:Hp; [|discriminate].
  assert (Hopen : forall c0 pe0 dfd d0,
            egl_open_device fns c0 pe0 dfd o d0 = Some r -> er_ret r = true ->
            er_fns r = all_resolved
            /\ exists i,
                 internal_of (er_con r) = Some i
                 /\ (er_display r = Some (dev i)
                     \/ (er_display r = None /\ er_con r = Some c /\ er_world r = d))).
  { intros c0 pe0 dfd d0 H Ht.
    destruct (egl_open_device_true _ _ _ _ _ _ _ H Ht) as (Hf & i & Hi & Hd).
    split; [exact Hf|]. exists i. auto. }
  destruct (negb (pending_fd pe =? -1)).
  - destruct (if negb (active_fd pe =? -1) then _ else _) as [[c1 d1]|]; [|discriminate].
    destruct (privext c1) as [pe1|]; [|discriminate].
    apply Hopen.
  - destruct (negb (active_fd pe =? -1)); [apply Hopen|].
    destruct (internal pe) as [i|] eqn:Hi.
    + pose proof (check_functions_ok (e_lookup o)) as Hck.
      destruct (check_functions (e_lookup o)) as [fns' ok]. cbn [fst snd] in Hck.
      intros [= <-] Ht. cbn in Ht. subst ok. cbn.
      split; [auto|]. exists i. split; [|auto].
      unfold internal_of, ext_internal. rewrite Hp, Hi. reflexivity.
    + destruct (e_open_ok o); [|apply Hopen].
      unfold w_new_fd. apply Hopen.
Qed.

Lemma egl_true_resolves_functions_witness :
  exists r,
    arcan_shmifext_egl (mk_fns false false false false)
      (Some (mk_con true (Some (mk_hidden (Some (fresh_internal false)) true (-1) (-1)))
               640 480 4096 0))
      true true (egl_answers true) (fresh_dw fresh_world) = Some r
    /\ er_fns r = all_resolved /\ er_display r = None.
Proof.
  eexists. split; [reflexivity|].
  split; [|reflexivity].
  exact (proj1 (egl_true_resolves_functions (mk_fns false false false false)
                  (Some (mk_con true (Some (mk_hidden (Some (fresh_internal false)) true
                                              (-1) (-1))) 640 480 4096 0))
                  true true (egl_answers true) (fresh_dw fresh_world) _ eq_refl eq_refl)).
Defined.

End EglMoreFacts.
